(** * FLUX / Ambien Flux sample-and-hold slicer: a shallow embedding

    The firmware lives in
    [original-hothouse-projects/flux-hothouse/flux_main.cpp] (FLUX v3.0) and,
    for the released variant with the freeze latch, in the Ambien Flux
    source.  Every global of the C++ program becomes a record field, every
    function a Rocq function over those records.

    - [float] is IEEE-754 binary32, taken from the Standard Library's
      executable specification [SpecFloat] at precision 24, [emax] 128.
    - [int] is [Z].  Signed overflow is undefined in C++: the cursors of
      the engine are kept inside the arrays by the invariants below, and
      the functions of the stutter system, whose arguments are free, do
      their sums with [int_add] and [int_sub], which return [None] on
      overflow.
    - An out-of-range array access or an undefined float-to-int conversion
      makes a function return [None]. *)

From Stdlib Require Import ZArith Lia Bool List PeanoNat.
From Stdlib Require Import Floats.SpecFloat.
Import ListNotations.

#[local] Open Scope Z_scope.

(** ** Single-precision floats *)

Module F32.

Definition prec : Z := 24.
Definition emax : Z := 128.

Definition float : Type := spec_float.

Definition add : float -> float -> float := SFadd prec emax.
Definition sub : float -> float -> float := SFsub prec emax.
Definition mul : float -> float -> float := SFmul prec emax.
Definition div : float -> float -> float := SFdiv prec emax.
Definition abs : float -> float := SFabs.

(** [<], [<=], [>], [>=] of C++: false as soon as one side is a NaN. *)
Definition ltb : float -> float -> bool := SFltb.
Definition leb : float -> float -> bool := SFleb.
Definition gtb (x y : float) : bool := SFltb y x.
Definition geb (x y : float) : bool := SFleb y x.

(** [(float)n] for an [int] [n]. *)
Definition of_int (n : Z) : float := binary_normalize prec emax n 0 false.

(** A decimal literal [n / 10^k] with the [f] suffix: both [n] and [10^k]
    are below [2^24], so the correctly rounded quotient is the nearest
    binary32 value, which is what the compiler emits. *)
Definition lit (n : Z) (k : Z) : float := div (of_int n) (of_int (10 ^ k)).

Definition zero : float := S754_zero false.
Definition one : float := of_int 1.

Definition INT_MIN : Z := - 2 ^ 31.
Definition INT_MAX : Z := 2 ^ 31 - 1.

(** Truncation toward zero of a finite float, as an exact integer. *)
Definition trunc (x : float) : Z :=
  match x with
  | S754_finite s m e =>
      let q := if 0 <=? e then Zpos m * 2 ^ e else Zpos m / 2 ^ (- e) in
      if s then - q else q
  | _ => 0
  end.

Definition is_finite (x : float) : bool :=
  match x with
  | S754_zero _ | S754_finite _ _ _ => true
  | _ => false
  end.

(** [(int)x]: undefined for NaN, infinities and values whose truncation
    does not fit an [int]. *)
Definition to_int (x : float) : option Z :=
  if is_finite x && (INT_MIN <=? trunc x) && (trunc x <=? INT_MAX)
  then Some (trunc x) else None.

(** *** Exact values

    Every finite binary32 number, and every product of two of them, is an
    integer multiple of [2^-298].  [FV x] is the value of [x] counted in
    that unit; sums, differences and products of floats are then exact
    integers, and the lemmas of [F32Facts] relate each operation to the
    rounding [rvs] of its exact result. *)

Definition K : Z := 298.

Definition sgn (s : bool) (z : Z) : Z := if s then - z else z.

Definition FV (x : float) : Z :=
  match x with
  | S754_finite s m e => sgn s (Zpos m * 2 ^ (e + K))
  | _ => 0
  end.

(** A well-formed finite value: canonical mantissa and exponent, no NaN,
    no infinity. *)
Definition good (x : float) : Prop :=
  valid_binary prec emax x = true /\ is_finite x = true.

(** [M / 2^n] rounded to nearest, ties to even. *)
Definition rne (M n : Z) : Z :=
  let q := M / 2 ^ n in
  match 2 * (M mod 2 ^ n) ?= 2 ^ n with
  | Lt => q
  | Eq => if Z.even q then q else q + 1
  | Gt => q + 1
  end.

(** Number of binary digits. *)
Definition dig (z : Z) : Z := Zdigits2 z.

(** Exponent, counted from [2^-K], of the binary32 grid around [V]. *)
Definition nexp (V : Z) : Z := Z.max (dig V - 24) 149.

(** [V >= 0] rounded to the binary32 grid, and its odd extension. *)
Definition rv (V : Z) : Z := rne V (nexp V) * 2 ^ nexp V.
Definition rvs (V : Z) : Z := if V <? 0 then - rv (- V) else rv V.

(** [W] with everything below bit [g] folded into a sticky half step, and
    the same for a quotient [N / D]: what a division keeps of its exact
    result before rounding. *)
Definition sticky (g W : Z) : Z :=
  2 ^ g * (W / 2 ^ g) + (if W mod 2 ^ g =? 0 then 0 else 2 ^ (g - 1)).

Definition qsticky (g N D : Z) : Z :=
  2 ^ g * (N / (D * 2 ^ g))
  + (if N mod (D * 2 ^ g) =? 0 then 0 else 2 ^ (g - 1)).

(** Round and sticky bit of a remainder [r] of a division by [m2]. *)
Definition loc_bits (m2 r : Z) : bool * bool :=
  (m2 <=? 2 * r, negb (r =? 0) && negb (2 * r =? m2)).

Definition b2z (b : bool) : Z := if b then 1 else 0.

(** The integer nearest to [x], halves away from zero ([roundf]). *)
Definition nearest_int (x : float) : Z :=
  Z.sgn (FV x) * ((2 * Z.abs (FV x) + 2 ^ K) / (2 * 2 ^ K)).

End F32.

(** ** Constants ([flux_main.cpp], "CONSTANTS & CONFIGURATION") *)

Definition MAX_SLICES : Z := 16.
Definition MAX_SLICE_LENGTH : Z := 24000.
Definition MAX_ZERO_SEARCH : Z := 1000.

Definition SAMPLE_RATE : F32.float := F32.of_int 48000.
Definition MIN_SLICE_LENGTH_MS : F32.float := F32.of_int 100.
Definition MAX_SLICE_LENGTH_MS : F32.float := F32.of_int 500.

(** ** A small error monad: [None] is undefined behaviour *)

Notation "x <- e ;; k" :=
  (match e with Some x => k | None => None end)
    (at level 61, e at next level, right associativity).
Notation "' p <- e ;; k" :=
  (match e with Some p => k | None => None end)
    (at level 61, p pattern, e at next level, right associativity).

(** ** C [int] arithmetic

    Signed overflow is undefined, and so are [x % 0] and [INT_MIN % -1]. *)

Definition int_of (z : Z) : option Z :=
  if (F32.INT_MIN <=? z) && (z <=? F32.INT_MAX) then Some z else None.

Definition int_add (a b : Z) : option Z := int_of (a + b).
Definition int_sub (a b : Z) : option Z := int_of (a - b).

Definition int_rem (a b : Z) : option Z :=
  if b =? 0 then None
  else if (a =? F32.INT_MIN) && (b =? -1) then None
  else Some (Z.rem a b).

(** ** The slice store: [sliceBuffers[MAX_SLICES][MAX_SLICE_LENGTH]] and
    [sliceLengths[MAX_SLICES]] *)

Record slice_store := mkStore {
  sliceBuffers : Z -> Z -> F32.float;
  sliceLengths : Z -> Z
}.

Definition slice_ok (i : Z) : bool := (0 <=? i) && (i <? MAX_SLICES).
Definition offset_ok (o : Z) : bool := (0 <=? o) && (o <? MAX_SLICE_LENGTH).

(** [sliceBuffers[i][o]] *)
Definition buf_read (st : slice_store) (i o : Z) : option F32.float :=
  if slice_ok i && offset_ok o then Some (sliceBuffers st i o) else None.

(** [sliceBuffers[i][o] = v] *)
Definition buf_write (st : slice_store) (i o : Z) (v : F32.float)
  : option slice_store :=
  if slice_ok i && offset_ok o
  then Some (mkStore
               (fun i' o' => if (i' =? i) && (o' =? o) then v
                             else sliceBuffers st i' o')
               (sliceLengths st))
  else None.

(** [sliceLengths[i]] *)
Definition len_get (st : slice_store) (i : Z) : option Z :=
  if slice_ok i then Some (sliceLengths st i) else None.

(** [sliceLengths[i] = n] *)
Definition len_set (st : slice_store) (i n : Z) : option slice_store :=
  if slice_ok i
  then Some (mkStore (sliceBuffers st)
               (fun i' => if i' =? i then n else sliceLengths st i'))
  else None.

(** ** The pseudo-random source

    [rand()] is the C library generator seeded from the system clock; its
    state is the sequence of values it is still going to return, each of
    them a non-negative [int]. *)

Definition rand_state : Type := nat -> N.

Definition rand (g : rand_state) : Z * rand_state :=
  (Z.of_N (g O), fun n => g (S n)).

(** ** Engine parameters, written once per block by [UpdateControls],
    [UpdateButtons] and [ProcessParameters] and read by the per-sample code *)

Record controls := mkControls {
  active_slice_count : Z;
  slice_length_samples : Z;
  feedback_amount : F32.float;
  knob_stutter : F32.float;
  toggle_mode : Z;
  knob_mix : F32.float;
  master_level : F32.float;
  lofi_bitcrush : F32.float;
  lofi_wobble : F32.float;
  lofi_noise : F32.float;
  bypass : bool;
  is_frozen : bool
}.

(** ** Capture cursor and playback cursor *)

Record capture_state := mkCapture {
  currentCaptureSlice : Z;
  capturePosition : Z;
  waitingForZeroCrossing : bool;
  previousCaptureSample : F32.float;
  hasLeftZero : bool;
  zeroSearchCount : Z
}.

(** [lastPlayedSlice] and [fadeLength] are the two [static] locals of
    [PlaybackSlice]. *)
Record playback_state := mkPlayback {
  currentPlaybackSlice : Z;
  playbackPosition : Z;
  hasContent : bool;
  playbackReverse : bool;
  repeatCount : Z;
  targetRepeats : Z;
  lastPlayedSlice : Z;
  fadeLength : Z
}.

(** The two functions of the stutter system differ between the firmware
    variants; the capture and playback engines are the same text in both and
    are written once, over the pair they call. *)
Record stutter_policy := mkPolicy {
  CalculateRepeatCount : F32.float -> rand_state -> option (Z * rand_state);
  GetNextSlice : Z -> Z -> F32.float -> Z -> rand_state
                 -> option (Z * bool * rand_state)
}.

(** ** K6 stutter system of [flux_main.cpp] *)

Module Flux.

(** [(float)(rand() % 10000) / 10000.0f] *)
Definition random_unit (g : rand_state) : F32.float * rand_state :=
  let '(r, g) := rand g in
  (F32.div (F32.of_int (Z.rem r 10000)) (F32.of_int 10000), g).

Definition CalculateRepeatCount (k6_value : F32.float) (g : rand_state)
  : option (Z * rand_state) :=
  if F32.ltb k6_value (F32.lit 1 2) then Some (1, g) else
  let '(random_val, g) := random_unit g in
  if F32.ltb k6_value (F32.lit 25 2) then
    Some (if F32.ltb random_val (F32.lit 95 2) then 1 else 2, g)
  else if F32.ltb k6_value (F32.lit 50 2) then
    if F32.ltb random_val (F32.lit 60 2) then Some (1, g)
    else if F32.ltb random_val (F32.lit 90 2) then Some (2, g)
    else Some (4, g)
  else if F32.ltb k6_value (F32.lit 75 2) then
    if F32.ltb random_val (F32.lit 30 2) then Some (1, g)
    else if F32.ltb random_val (F32.lit 70 2) then Some (2, g)
    else if F32.ltb random_val (F32.lit 90 2) then Some (4, g)
    else Some (8, g)
  else
    if F32.ltb random_val (F32.lit 10 2) then Some (1, g)
    else if F32.ltb random_val (F32.lit 40 2) then Some (2, g)
    else if F32.ltb random_val (F32.lit 70 2) then Some (4, g)
    else Some (8, g).

(** Returns the next slice and the new value of the [reverseFlag]
    reference.  The sums are [int] sums and the remainders [int]
    remainders: the call is undefined where one of them is. *)
Definition GetNextSlice (current sliceCount : Z) (k6_value : F32.float)
    (mode : Z) (g : rand_state) : option (Z * bool * rand_state) :=
  let '(random_val, g) := random_unit g in
  let doShuffle := F32.ltb random_val k6_value in
  ' (nextSlice, g) <-
    (if doShuffle then
       let '(r, g) := rand g in
       nextSlice <- int_rem r sliceCount ;;
       Some (nextSlice, g)
     else if mode =? 0 then
       s <- int_add current 1 ;;
       nextSlice <- int_rem s sliceCount ;;
       Some (nextSlice, g)
     else if mode =? 1 then
       d <- int_sub current 1 ;;
       s <- int_add d sliceCount ;;
       nextSlice <- int_rem s sliceCount ;;
       Some (nextSlice, g)
     else
       s <- int_add current 1 ;;
       nextSlice <- int_rem s sliceCount ;;
       Some (nextSlice, g)) ;;
  if mode =? 2 then
    let '(r, g) := rand g in
    Some (nextSlice, Z.rem r 2 =? 0, g)
  else if mode =? 1 then Some (nextSlice, true, g)
  else Some (nextSlice, false, g).

Definition policy : stutter_policy :=
  mkPolicy CalculateRepeatCount GetNextSlice.

End Flux.

(** ** K6 stutter system of Ambien Flux v1.0 *)

Module AmbienFlux.

Definition CalculateRepeatCount (stutter_knob : F32.float) (g : rand_state)
  : option (Z * rand_state) :=
  if F32.ltb stutter_knob (F32.lit 1 2) then Some (1, g) else
  let shuffle_probability := stutter_knob in
  let '(r, g) := rand g in
  pct <- F32.to_int (F32.mul shuffle_probability (F32.of_int 100)) ;;
  if Z.rem r 100 <? pct then
    let '(r, g) := rand g in
    let subdivision_choice := Z.rem r 100 in
    if subdivision_choice <? 40 then Some (2, g)
    else if subdivision_choice <? 70 then Some (4, g)
    else if subdivision_choice <? 90 then Some (1, g)
    else Some (8, g)
  else Some (1, g).

Definition GetNextSlice (currentSlice sliceCount : Z)
    (stutterKnob : F32.float) (toggleMode : Z) (g : rand_state)
  : option (Z * bool * rand_state) :=
  if toggleMode =? 2 then
    let '(r, g) := rand g in
    nextSlice <- int_rem r sliceCount ;;
    let '(r, g) := rand g in
    Some (nextSlice, Z.rem r 2 =? 0, g)
  else if toggleMode =? 1 then
    nextSlice <- int_sub currentSlice 1 ;;
    nextSlice <-
      (if nextSlice <? 0 then int_sub sliceCount 1 else Some nextSlice) ;;
    Some (nextSlice, true, g)
  else
    nextSlice <- int_add currentSlice 1 ;;
    let nextSlice := if nextSlice >=? sliceCount then 0 else nextSlice in
    Some (nextSlice, false, g).

Definition policy : stutter_policy :=
  mkPolicy CalculateRepeatCount GetNextSlice.

End AmbienFlux.

(** ** The DaisySP objects the firmware instantiates

    [OnePole], [CrossFade], [Oscillator], [DelayLine] and [Dust] belong to
    the DaisySP library, not to this repository.  Their joint state is an
    abstract type and each member function the firmware calls is an
    operation on it; every result below holds for any implementation. *)

Class DaisySP := {
  dsp_state : Type;
  lofi_filter_SetFrequency : F32.float -> dsp_state -> dsp_state;
  lofi_filter_Process : F32.float -> dsp_state -> F32.float * dsp_state;
  mix_SetPos : F32.float -> dsp_state -> dsp_state;
  mix_Process : F32.float -> F32.float -> dsp_state -> F32.float * dsp_state;
  wobble_lfo_SetFreq : F32.float -> dsp_state -> dsp_state;
  wobble_lfo_Process : dsp_state -> F32.float * dsp_state;
  wobble_delay_SetDelay : F32.float -> dsp_state -> dsp_state;
  wobble_delay_Write : F32.float -> dsp_state -> dsp_state;
  wobble_delay_Read : dsp_state -> F32.float * dsp_state;
  dust_SetDensity : F32.float -> dsp_state -> dsp_state;
  dust_Process : dsp_state -> F32.float * dsp_state;
  dust_filter_Process : F32.float -> dsp_state -> F32.float * dsp_state
}.

(** An implementation with no state in which every stage passes its input
    through; it serves to run the engine on concrete inputs. *)
#[local] Instance passthrough_dsp : DaisySP := {|
  dsp_state := unit;
  lofi_filter_SetFrequency := fun _ d => d;
  lofi_filter_Process := fun x d => (x, d);
  mix_SetPos := fun _ d => d;
  mix_Process := fun dry wet d => (wet, d);
  wobble_lfo_SetFreq := fun _ d => d;
  wobble_lfo_Process := fun d => (F32.zero, d);
  wobble_delay_SetDelay := fun _ d => d;
  wobble_delay_Write := fun _ d => d;
  wobble_delay_Read := fun d => (F32.zero, d);
  dust_SetDensity := fun _ d => d;
  dust_Process := fun d => (F32.zero, d);
  dust_filter_Process := fun x d => (x, d)
|}.

(** ** The whole audio-rate state *)

Record engine `{DaisySP} := mkEngine {
  store : slice_store;
  cap : capture_state;
  play : playback_state;
  rng : rand_state;
  slice_length_samples_smooth : F32.float;
  bitcrush_hold_sample : F32.float;
  bitcrush_sample_counter : Z;
  dsp : dsp_state
}.

Section Setters.
Context `{DaisySP}.

Definition set_store (e : engine) (s : slice_store) : engine :=
  mkEngine _ s (cap e) (play e) (rng e) (slice_length_samples_smooth e)
    (bitcrush_hold_sample e) (bitcrush_sample_counter e) (dsp e).
Definition set_cap (e : engine) (k : capture_state) : engine :=
  mkEngine _ (store e) k (play e) (rng e) (slice_length_samples_smooth e)
    (bitcrush_hold_sample e) (bitcrush_sample_counter e) (dsp e).
Definition set_play (e : engine) (p : playback_state) : engine :=
  mkEngine _ (store e) (cap e) p (rng e) (slice_length_samples_smooth e)
    (bitcrush_hold_sample e) (bitcrush_sample_counter e) (dsp e).
Definition set_rng (e : engine) (g : rand_state) : engine :=
  mkEngine _ (store e) (cap e) (play e) g (slice_length_samples_smooth e)
    (bitcrush_hold_sample e) (bitcrush_sample_counter e) (dsp e).
Definition set_smooth (e : engine) (x : F32.float) : engine :=
  mkEngine _ (store e) (cap e) (play e) (rng e) x
    (bitcrush_hold_sample e) (bitcrush_sample_counter e) (dsp e).
Definition set_crush (e : engine) (h : F32.float) (n : Z) : engine :=
  mkEngine _ (store e) (cap e) (play e) (rng e) (slice_length_samples_smooth e)
    h n (dsp e).
Definition set_dsp (e : engine) (d : dsp_state) : engine :=
  mkEngine _ (store e) (cap e) (play e) (rng e) (slice_length_samples_smooth e)
    (bitcrush_hold_sample e) (bitcrush_sample_counter e) d.

End Setters.

(** ** Capture and playback engines (identical in both firmware variants) *)

(** The fade length recomputed in [PlaybackSlice] on a slice change. *)
Definition crossfade_length (currentSliceLen : Z) : Z :=
  let fadeLength := Z.quot (currentSliceLen * 15) 100 in
  let fadeLength := if fadeLength <? 240 then 240 else fadeLength in
  if fadeLength * 2 >? currentSliceLen then
    let fadeLength := Z.quot currentSliceLen 3 in
    if fadeLength <? 1 then 1 else fadeLength
  else fadeLength.

(** The fade envelope applied to the sample read at [playbackPosition]. *)
Definition fade_envelope (playbackPosition fadeLength currentSliceLen : Z)
  : F32.float :=
  let fadeEnvelope :=
    if playbackPosition <? fadeLength
    then F32.div (F32.of_int playbackPosition) (F32.of_int fadeLength)
    else F32.one in
  let fadeOutStart := currentSliceLen - fadeLength in
  if (fadeOutStart >? 0) && (playbackPosition >=? fadeOutStart) then
    let fadeOutPos := playbackPosition - fadeOutStart in
    let fadeOutEnvelope :=
      F32.sub F32.one (F32.div (F32.of_int fadeOutPos) (F32.of_int fadeLength)) in
    if F32.ltb fadeOutEnvelope fadeEnvelope then fadeOutEnvelope
    else fadeEnvelope
  else fadeEnvelope.

Module Engine.
Section WithPolicy.
Context `{DaisySP}.
Variable P : stutter_policy.

(** First finalize ([!hasContent]): playback starts on the slice just
    captured. *)
Definition start_playback (c : controls) (e : engine)
  : option (playback_state * rand_state) :=
  ' (t, g) <- CalculateRepeatCount P (knob_stutter c) (rng e) ;;
  let '(rev, g) :=
    if toggle_mode c =? 2 then
      let '(r, g) := rand g in (Z.rem r 2 =? 0, g)
    else if toggle_mode c =? 1 then (true, g)
    else (false, g) in
  Some (mkPlayback (currentCaptureSlice (cap e)) 0 true rev 0 t
          (lastPlayedSlice (play e)) (fadeLength (play e)), g).

(** The capture index moves on per the active mode. *)
Definition next_capture_slice (c : controls) (current : Z) (g : rand_state)
  : option (Z * rand_state) :=
  if toggle_mode c =? 2 then
    if active_slice_count c =? 0 then None else
    let '(r, g) := rand g in Some (Z.rem r (active_slice_count c), g)
  else
    let next := current + 1 in
    Some (if next >=? active_slice_count c then 0 else next, g).

(** The part of [CaptureSlice] that runs when [shouldFinalize] is set; [st]
    already holds the new sample, [pos] is the incremented
    [capturePosition]. *)
Definition finalize_slice (c : controls) (e : engine) (st : slice_store)
    (pos : Z) : option engine :=
  st <- len_set st (currentCaptureSlice (cap e)) pos ;;
  ' (p, g) <-
    (if negb (hasContent (play e)) then start_playback c e
     else Some (play e, rng e)) ;;
  ' (next, g) <- next_capture_slice c (currentCaptureSlice (cap e)) g ;;
  Some (set_rng (set_play (set_cap (set_store e st)
          (mkCapture next 0 false F32.zero false 0)) p) g).

Definition CaptureSlice (c : controls) (input : F32.float) (e : engine)
  : option engine :=
  let k := cap e in
  let hasLeftZero' :=
    if F32.gtb (F32.abs input) (F32.lit 1 2) then true else hasLeftZero k in
  let zeroCrossing :=
    hasLeftZero' &&
    ((F32.gtb (previousCaptureSample k) F32.zero && F32.leb input F32.zero) ||
     (F32.ltb (previousCaptureSample k) F32.zero && F32.geb input F32.zero)) in
  st <- buf_write (store e) (currentCaptureSlice k) (capturePosition k) input ;;
  let pos := capturePosition k + 1 in
  if waitingForZeroCrossing k then
    let zsc := zeroSearchCount k + 1 in
    let shouldFinalize :=
      if zeroCrossing then true
      else if zsc >=? MAX_ZERO_SEARCH then true
      else if pos >=? MAX_SLICE_LENGTH - 1 then true
      else false in
    if shouldFinalize then
      finalize_slice c e st pos
    else
      Some (set_cap (set_store e st)
              (mkCapture (currentCaptureSlice k) pos true input hasLeftZero' zsc))
  else
    target <- F32.to_int (slice_length_samples_smooth e) ;;
    if pos >=? target then
      Some (set_cap (set_store e st)
              (mkCapture (currentCaptureSlice k) pos true input false 0))
    else
      Some (set_cap (set_store e st)
              (mkCapture (currentCaptureSlice k) pos false input hasLeftZero'
                 (zeroSearchCount k))).

(** The end-of-slice part of [PlaybackSlice]: [p] is the cursor after
    [playbackPosition++], [len] the length of the slice being played. *)
Definition advance_playback (c : controls) (e : engine) (p : playback_state)
    (g : rand_state) (len : Z) : option (playback_state * rand_state) :=
  if playbackPosition p >=? len then
    let rc := repeatCount p + 1 in
    if rc >=? targetRepeats p then
      ' (nextSlice, rev, g) <-
        GetNextSlice P (currentPlaybackSlice p) (active_slice_count c)
          (knob_stutter c) (toggle_mode c) g ;;
      ' (nextSlice, rev, g) <-
        (if nextSlice =? currentCaptureSlice (cap e) then
           GetNextSlice P nextSlice (active_slice_count c)
             (knob_stutter c) (toggle_mode c) g
         else Some (nextSlice, rev, g)) ;;
      nlen <- len_get (store e) nextSlice ;;
      let cur := if nlen >? 0 then nextSlice else currentPlaybackSlice p in
      ' (t, g) <- CalculateRepeatCount P (knob_stutter c) g ;;
      Some (mkPlayback cur 0 (hasContent p) rev 0 t
              (lastPlayedSlice p) (fadeLength p), g)
    else
      Some (mkPlayback (currentPlaybackSlice p) 0 (hasContent p)
              (playbackReverse p) rc (targetRepeats p)
              (lastPlayedSlice p) (fadeLength p), g)
  else Some (p, g).

(** The conflict rule at the head of [PlaybackSlice]. *)
Definition resolve_conflict (c : controls) (e : engine)
  : option (playback_state * rand_state) :=
  let p0 := play e in
  if currentPlaybackSlice p0 =? currentCaptureSlice (cap e) then
    ' (next, rev, g) <-
      GetNextSlice P (currentPlaybackSlice p0) (active_slice_count c)
        (knob_stutter c) (toggle_mode c) (rng e) ;;
    ' (t, g) <- CalculateRepeatCount P (knob_stutter c) g ;;
    Some (mkPlayback next 0 (hasContent p0) rev 0 t
            (lastPlayedSlice p0) (fadeLength p0), g)
  else Some (p0, rng e).

(** The offset read for cursor [p] in a slice of length [len], after both
    range checks. *)
Definition read_position (p : playback_state) (len : Z) : Z :=
  let readPosition :=
    if playbackReverse p then
      if playbackPosition p <? len then len - 1 - playbackPosition p else 0
    else playbackPosition p in
  if (readPosition <? 0) || (readPosition >=? len) then 0 else readPosition.

(** [PlaybackSlice] returns the output sample, the buffer cell it read (if
    it read one) and the new state. *)
Definition PlaybackSlice (c : controls) (e : engine)
  : option (F32.float * option (Z * Z) * engine) :=
  if negb (hasContent (play e)) then Some (F32.zero, None, e) else
  ' (p1, g) <- resolve_conflict c e ;;
  len <- len_get (store e) (currentPlaybackSlice p1) ;;
  if len =? 0 then Some (F32.zero, None, set_rng (set_play e p1) g) else
  let readPosition := read_position p1 len in
  output <- buf_read (store e) (currentPlaybackSlice p1) readPosition ;;
  let sliceChanged :=
    negb (currentPlaybackSlice p1 =? lastPlayedSlice p1)
    || (playbackPosition p1 =? 0) in
  let last := if sliceChanged then currentPlaybackSlice p1
              else lastPlayedSlice p1 in
  let fade := if sliceChanged then crossfade_length len else fadeLength p1 in
  let output :=
    F32.mul output (fade_envelope (playbackPosition p1) fade len) in
  let p2 := mkPlayback (currentPlaybackSlice p1) (playbackPosition p1 + 1)
              (hasContent p1) (playbackReverse p1) (repeatCount p1)
              (targetRepeats p1) last fade in
  ' (p3, g) <- advance_playback c e p2 g len ;;
  Some (output, Some (currentPlaybackSlice p1, readPosition),
        set_rng (set_play e p3) g).

End WithPolicy.
End Engine.

(** ** Parameter smoothing and the lo-fi rate reduction *)

(** Modelled from the spec: DaisySP's [fonepole(out, in, coeff)], the
    one-pole smoother "toward the target" of section 4.1,
    [out += coeff * (in - out)]. *)
Definition fonepole (out inp coeff : F32.float) : F32.float :=
  F32.add out (F32.mul coeff (F32.sub inp out)).

Section PerSample.
Context `{DaisySP}.

(** [CustomBitCrush]; [nyquist_fraction] is [0.8f] in [flux_main.cpp] and
    [0.5f] in Ambien Flux. *)
Definition CustomBitCrush (nyquist_fraction : F32.float)
    (input amount : F32.float) (e : engine) : option (F32.float * engine) :=
  if F32.leb amount F32.zero then Some (input, e) else
  n <- F32.to_int (F32.mul (F32.mul amount amount) (F32.of_int 31)) ;;
  let downsample_rate := 1 + n in
  let effective_nyquist :=
    F32.div (F32.div (F32.of_int 48000) (F32.of_int downsample_rate))
            (F32.of_int 2) in
  let cutoff := F32.mul effective_nyquist nyquist_fraction in
  let cutoff := if F32.gtb cutoff (F32.of_int 18000) then F32.of_int 18000
                else cutoff in
  let cutoff := if F32.ltb cutoff (F32.of_int 500) then F32.of_int 500
                else cutoff in
  let d := lofi_filter_SetFrequency cutoff (dsp e) in
  let '(counter, hold) :=
    if bitcrush_sample_counter e >=? downsample_rate then (0, input)
    else (bitcrush_sample_counter e, bitcrush_hold_sample e) in
  let counter := counter + 1 in
  let '(y, d) := lofi_filter_Process hold d in
  Some (y, set_dsp (set_crush e hold counter) d).

End PerSample.

(** ** The body of the sample loop of [AudioCallback], [flux_main.cpp] *)

Module FluxAudio.
Section Body.
Context `{DaisySP}.

Definition PlaybackSlice := Engine.PlaybackSlice Flux.policy.
Definition CaptureSlice := Engine.CaptureSlice Flux.policy.

(** One iteration: returns [out[0][i]], [out[1][i]] and the new state. *)
Definition process_sample (c : controls) (input : F32.float) (e : engine)
  : option (F32.float * F32.float * engine) :=
  let e := set_smooth e
             (fonepole (slice_length_samples_smooth e)
                (F32.of_int (slice_length_samples c)) (F32.lit 2 4)) in
  if negb (bypass c) then
    ' (input, e) <- CustomBitCrush (F32.lit 8 1) input (lofi_bitcrush c) e ;;
    ' (wet, _, e) <- PlaybackSlice c e ;;
    let capture_input := F32.add input (F32.mul wet (feedback_amount c)) in
    e <- CaptureSlice c capture_input e ;;
    let d := mix_SetPos (knob_mix c) (dsp e) in
    let '(output, d) := mix_Process input wet d in
    let output := F32.mul output (master_level c) in
    Some (output, output, set_dsp e d)
  else
    Some (input, input, e).

End Body.
End FluxAudio.

(** ** Ambien Flux v1.0: the freeze latch and the full lo-fi chain *)

Module AmbienAudio.
Section Body.
Context `{DaisySP}.

Definition PlaybackSlice := Engine.PlaybackSlice AmbienFlux.policy.

(** [CaptureSlice] of Ambien Flux: the body above behind the freeze gate. *)
Definition CaptureSlice (c : controls) (input : F32.float) (e : engine)
  : option engine :=
  if is_frozen c then Some e
  else Engine.CaptureSlice AmbienFlux.policy c input e.

(** The wobble stage applied after the dry/wet mix. *)
Definition wobble (c : controls) (output : F32.float) (d : dsp_state)
  : F32.float * dsp_state :=
  if F32.gtb (lofi_wobble c) F32.zero && F32.gtb (knob_mix c) (F32.lit 1 2)
  then
    let w := lofi_wobble c in
    let lfo_rate := F32.add (F32.lit 5 1) (F32.mul (F32.mul w w) (F32.lit 55 1)) in
    let d := wobble_lfo_SetFreq lfo_rate d in
    let '(lfo_value, d) := wobble_lfo_Process d in
    let delay_depth_ms := F32.add (F32.of_int 2) (F32.mul w (F32.of_int 6)) in
    let center_delay_ms := F32.of_int 5 in
    let delay_time_ms :=
      F32.add center_delay_ms
        (F32.mul (F32.mul lfo_value delay_depth_ms) (F32.lit 5 1)) in
    let delay_samples :=
      F32.mul (F32.div delay_time_ms (F32.of_int 1000)) SAMPLE_RATE in
    let d := wobble_delay_SetDelay delay_samples d in
    let d := wobble_delay_Write output d in
    let '(wobbled, d) := wobble_delay_Read d in
    let wobble_mix := F32.mul (F32.mul w w) (F32.lit 5 1) in
    (F32.add (F32.mul output (F32.sub F32.one wobble_mix))
             (F32.mul wobbled wobble_mix), d)
  else (output, d).

(** The dust stage applied after the wobble. *)
Definition dust (c : controls) (output : F32.float) (d : dsp_state)
  : F32.float * dsp_state :=
  if F32.gtb (lofi_noise c) F32.zero && F32.gtb (knob_mix c) (F32.lit 1 2)
  then
    let n := lofi_noise c in
    let density := F32.mul (F32.mul n n) (F32.lit 2 2) in
    let d := dust_SetDensity density d in
    let '(dust_signal, d) := dust_Process d in
    let '(dust_signal, d) := dust_filter_Process dust_signal d in
    let mix_amount := F32.mul (F32.mul n n) (F32.lit 5 2) in
    (F32.add output (F32.mul (F32.sub dust_signal (F32.lit 5 1)) mix_amount), d)
  else (output, d).

(** Everything between [CaptureSlice] and the two output writes: dry/wet
    mix, wobble, dust, master level. *)
Definition output_stage (c : controls) (dry_input wet : F32.float)
    (d : dsp_state) : F32.float * dsp_state :=
  let d := mix_SetPos (knob_mix c) d in
  let '(output, d) := mix_Process dry_input wet d in
  let '(output, d) := wobble c output d in
  let '(output, d) := dust c output d in
  (F32.mul output (master_level c), d).

Definition process_sample (c : controls) (input : F32.float) (e : engine)
  : option (F32.float * F32.float * engine) :=
  let e := set_smooth e
             (fonepole (slice_length_samples_smooth e)
                (F32.of_int (slice_length_samples c)) (F32.lit 2 4)) in
  let dry_input := input in
  if negb (bypass c) then
    ' (processed_input, e) <-
      CustomBitCrush (F32.lit 5 1) input (lofi_bitcrush c) e ;;
    ' (wet, _, e) <- PlaybackSlice c e ;;
    let capture_input :=
      F32.add processed_input (F32.mul wet (feedback_amount c)) in
    e <- CaptureSlice c capture_input e ;;
    let '(output, d) := output_stage c dry_input wet (dsp e) in
    Some (output, output, set_dsp e d)
  else
    Some (input, input, e).

(** [UpdateButtons]: FS1 toggles bypass, FS2 toggles the freeze latch. *)
Definition UpdateButtons (fs1_rising fs2_rising : bool) (c : controls)
  : controls :=
  mkControls (active_slice_count c) (slice_length_samples c)
    (feedback_amount c) (knob_stutter c) (toggle_mode c) (knob_mix c)
    (master_level c) (lofi_bitcrush c) (lofi_wobble c) (lofi_noise c)
    (if fs1_rising then negb (bypass c) else bypass c)
    (if fs2_rising then negb (is_frozen c) else is_frozen c).

End Body.
End AmbienAudio.

(** ** The sample loop and a sequence of callbacks

    [AudioCallback] first refreshes the controls, then runs the loop body
    once per sample of the block.  A run of the firmware is a sequence of
    blocks, each with the controls in force during it. *)

Section Blocks.
Context `{DaisySP}.
Variable process_sample :
  controls -> F32.float -> engine -> option (F32.float * F32.float * engine).

Fixpoint process_block (c : controls) (ins : list F32.float) (e : engine)
  : option (list (F32.float * F32.float) * engine) :=
  match ins with
  | [] => Some ([], e)
  | x :: ins =>
      ' (l, r, e) <- process_sample c x e ;;
      ' (outs, e) <- process_block c ins e ;;
      Some ((l, r) :: outs, e)
  end.

Fixpoint run_blocks (bs : list (controls * list F32.float)) (e : engine)
  : option engine :=
  match bs with
  | [] => Some e
  | (c, ins) :: bs =>
      ' (_, e) <- process_block c ins e ;;
      run_blocks bs e
  end.

End Blocks.

(** ** Control-rate code of [flux_main.cpp] *)

Module FluxControl.

(** [UpdateButtons]: FS1 toggles bypass; FS2 is reserved and does nothing. *)
Definition UpdateButtons (fs1_rising : bool) (c : controls) : controls :=
  mkControls (active_slice_count c) (slice_length_samples c)
    (feedback_amount c) (knob_stutter c) (toggle_mode c) (knob_mix c)
    (master_level c) (lofi_bitcrush c) (lofi_wobble c) (lofi_noise c)
    (if fs1_rising then negb (bypass c) else bypass c)
    (is_frozen c).

Definition clamp_slice_count (n : Z) : Z :=
  let n := if n <? 1 then 1 else n in
  if n >? MAX_SLICES then MAX_SLICES else n.

(** The first three lines of [ProcessParameters]: K4 to slice count. *)
Definition slice_count_of_knob (knob_slice_count : F32.float) : option Z :=
  n <- F32.to_int (F32.mul knob_slice_count (F32.lit 15999 3)) ;;
  Some (clamp_slice_count (n + 1)).

(** The conversion and clamp of [slice_length_samples]. *)
Definition slice_length_samples_of_ms (slice_length_ms : F32.float)
  : option Z :=
  n <- F32.to_int (F32.mul (F32.div slice_length_ms (F32.of_int 1000))
                     SAMPLE_RATE) ;;
  let n := if n <? 1 then 1 else n in
  Some (if n >? MAX_SLICE_LENGTH then MAX_SLICE_LENGTH else n).

(** [slice_length_ms] as [ProcessParameters] computes it; [logf] is the C
    library's single-precision logarithm. *)
Definition slice_length_ms (logf : F32.float -> F32.float)
    (knob_slice_length : F32.float) : F32.float :=
  let log_knob :=
    F32.div (logf (F32.add F32.one (F32.mul (F32.of_int 9) knob_slice_length)))
            (logf (F32.of_int 10)) in
  F32.add MIN_SLICE_LENGTH_MS
    (F32.mul log_knob (F32.sub MAX_SLICE_LENGTH_MS MIN_SLICE_LENGTH_MS)).

(** The constants of [slice_length_ms]: [9.0f], [10.0f] and
    [MAX_SLICE_LENGTH_MS - MIN_SLICE_LENGTH_MS]. *)
Definition nine : F32.float := F32.of_int 9.
Definition ten : F32.float := F32.of_int 10.
Definition span : F32.float :=
  F32.sub MAX_SLICE_LENGTH_MS MIN_SLICE_LENGTH_MS.

(** The slice count as the specification words it:
    round(control x 15.999) + 1, clamped to [1, MAX_SLICES]. *)
Definition spec_slice_count (control : F32.float) : Z :=
  clamp_slice_count (F32.nearest_int (F32.mul control (F32.lit 15999 3)) + 1).

End FluxControl.

(** What the slice-length mapping needs of the C library's [logf] on
    [1, 10]: it is exact at 1, returns finite numbers, never decreases,
    and is positive at 10. *)
Definition logf_ok (logf : F32.float -> F32.float) : Prop :=
  logf F32.one = F32.zero /\
  (forall x, F32.good x ->
     F32.leb F32.one x = true -> F32.leb x (F32.of_int 10) = true ->
     F32.good (logf x)) /\
  (forall x y, F32.good x -> F32.good y ->
     F32.leb F32.one x = true -> F32.leb x y = true ->
     F32.leb y (F32.of_int 10) = true ->
     F32.leb (logf x) (logf y) = true) /\
  F32.ltb F32.zero (logf (F32.of_int 10)) = true.

(** ** Power-on state

    [InitializeSliceBuffers] followed by the assignments of [main]:
    [slice_length_samples_smooth = (float)slice_length_samples], where
    [slice_length_samples] is what [ProcessParameters] yields for the
    hard-wired knob position 0.4 (365 ms, 17524 samples). *)

Section PowerOn.
Context `{DaisySP}.

Definition InitializeSliceBuffers (e : engine) : engine :=
  set_play
    (set_cap
       (set_store e (mkStore (fun _ _ => F32.zero) (fun _ => 0)))
       (mkCapture 0 0 false F32.zero false 0))
    (mkPlayback 0 0 false false (repeatCount (play e)) (targetRepeats (play e))
       (lastPlayedSlice (play e)) (fadeLength (play e))).

Definition power_on (slice_length_samples0 : Z) (g : rand_state)
    (d : dsp_state) : engine :=
  InitializeSliceBuffers
    (mkEngine _ (mkStore (fun _ _ => F32.zero) (fun _ => 0))
       (mkCapture 0 0 false F32.zero false 0)
       (mkPlayback 0 0 false false 0 1 (-1) 0)
       g (F32.of_int slice_length_samples0) F32.zero 0 d).

End PowerOn.

(** ** A bench set-up for concrete runs

    The engine as [main] leaves it, with the pass-through DaisySP objects
    and a random source that always returns 0. *)

Definition bench_engine : @engine passthrough_dsp :=
  @power_on passthrough_dsp 17524 (fun _ => 0%N) tt.

(** Controls with every knob at zero: [count] active slices, target length
    [len], forward mode. *)
Definition bench_controls (count len : Z) (bypassed frozen : bool)
  : controls :=
  mkControls count len F32.zero F32.zero 0 F32.zero F32.one
    F32.zero F32.zero F32.zero bypassed frozen.

(** A full-scale square wave at half the sample rate: +0.5, -0.5, ... *)
Fixpoint square_wave (n : nat) : list F32.float :=
  match n with
  | O => []
  | S n => F32.lit 5 1 :: SFopp (F32.lit 5 1) :: square_wave n
  end.

(** The bench engine some way into a performance: slices 0 and 1 are on
    record, 4800 samples of 0.5 and of 0.25; playback stands at offset
    1000 of slice [playing], past its fade-in, and capture at offset 100
    of slice [capturing]. *)
Definition loaded_engine (playing capturing : Z) : @engine passthrough_dsp :=
  @set_play passthrough_dsp
    (@set_cap passthrough_dsp
       (@set_store passthrough_dsp bench_engine
          (mkStore
             (fun i _ => if i =? 0 then F32.lit 5 1
                         else if i =? 1 then F32.lit 25 2 else F32.zero)
             (fun i => if (i =? 0) || (i =? 1) then 4800 else 0)))
       (mkCapture capturing 100 false F32.zero false 0))
    (mkPlayback playing 1000 true false 0 1 playing 720).

(** ** Invariants of the running engine *)

(** Bounds used for the smoothed slice length, on the [2^-K] scale of
    [F32.FV]: [U] is 24000.0, [P3] the float just below it, [B2] the one
    below that, [B1] is 23990.0; [CF] is the smoothing coefficient 0.0002f
    and [BIG] a bound below which no operation overflows. *)
Module Smooth.
Import F32.

Definition U : Z := 24000 * 2 ^ K.
Definition BIG : Z := 2 ^ (127 + K).
Definition B1 : Z := 23990 * 2 ^ K.
Definition B2 : Z := U - 2 * 2 ^ (K - 9).
Definition P3 : Z := U - 2 ^ (K - 9).

Definition smooth_coeff : float := lit 2 4.
Definition CF : Z := FV smooth_coeff.

(** The smoothed length is a finite float in [0, 24000). *)
Definition smooth_ok (x : float) : Prop := good x /\ 0 <= FV x < U.

End Smooth.

Definition lengths_ok (st : slice_store) : Prop :=
  forall i, 0 <= sliceLengths st i <= MAX_SLICE_LENGTH.

(** While searching for the zero crossing the write offset may reach the
    last cell; before that it stays one short of it. *)
Definition capture_ok (k : capture_state) : Prop :=
  0 <= currentCaptureSlice k < MAX_SLICES /\
  0 <= capturePosition k /\
  capturePosition k
  <= (if waitingForZeroCrossing k then MAX_SLICE_LENGTH - 1
      else MAX_SLICE_LENGTH - 2).

Definition playback_ok (p : playback_state) : Prop :=
  0 <= currentPlaybackSlice p < MAX_SLICES.

Definition engine_ok `{DaisySP} (e : engine) : Prop :=
  lengths_ok (store e) /\ capture_ok (cap e) /\ playback_ok (play e) /\
  Smooth.smooth_ok (slice_length_samples_smooth e).

(** A knob value: a finite binary32 number in [0, 1]. *)
Definition knob01 (x : F32.float) : Prop :=
  F32.good x /\ 0 <= F32.FV x <= 2 ^ F32.K.

(** What [ProcessParameters] and the knob scan guarantee of the controls:
    the two clamps, and a normalized rate-reduction knob. *)
Definition controls_ok (c : controls) : Prop :=
  1 <= active_slice_count c <= MAX_SLICES /\
  1 <= slice_length_samples c <= MAX_SLICE_LENGTH /\
  knob01 (lofi_bitcrush c).

(** A stutter policy that answers at the stutter value [k]: with a repeat
    count, and, from a slice index and a slice count within the arrays,
    with a slice index within the arrays. *)
Definition policy_ok (P : stutter_policy) (k : F32.float) : Prop :=
  (forall g, exists t g', CalculateRepeatCount P k g = Some (t, g')) /\
  (forall cur count mode g,
      0 <= cur < MAX_SLICES -> 1 <= count <= MAX_SLICES ->
      exists next rev g',
        GetNextSlice P cur count k mode g = Some (next, rev, g') /\
        0 <= next < MAX_SLICES).



(** The slice index [PlaybackSlice] reads from coincides with the slice
    being captured. *)
Definition reads_capture_slice `{DaisySP} (P : stutter_policy)
    (c : controls) (e : engine) : bool :=
  match Engine.PlaybackSlice P c e with
  | Some (_, Some (i, _), _) => i =? currentCaptureSlice (cap e)
  | _ => false
  end.

(** ** Closed forms used to state properties of the stutter table and of
    the rate reduction *)

(** The bin of the stutter knob that [CalculateRepeatCount] selects. *)
Definition stutter_bin (k6_value : F32.float) : Z :=
  if F32.ltb k6_value (F32.lit 1 2) then 0
  else if F32.ltb k6_value (F32.lit 25 2) then 1
  else if F32.ltb k6_value (F32.lit 50 2) then 2
  else if F32.ltb k6_value (F32.lit 75 2) then 3
  else 4.

(** The weighted table of [CalculateRepeatCount] over the draw
    [rand() % 10000] itself: each threshold of the code times 10000. *)
Definition repeat_of_draw (bin r : Z) : Z :=
  if bin =? 0 then 1
  else if bin =? 1 then (if r <? 9500 then 1 else 2)
  else if bin =? 2 then
    (if r <? 6000 then 1 else if r <? 9000 then 2 else 4)
  else if bin =? 3 then
    (if r <? 3000 then 1 else if r <? 7000 then 2
     else if r <? 9000 then 4 else 8)
  else
    (if r <? 1000 then 1 else if r <? 4000 then 2
     else if r <? 7000 then 4 else 8).

(** The cutoff [CustomBitCrush] hands to [lofi_filter.SetFrequency] for a
    hold of [downsample_rate] samples. *)
Definition bitcrush_cutoff (nyquist_fraction : F32.float)
    (downsample_rate : Z) : F32.float :=
  let effective_nyquist :=
    F32.div (F32.div (F32.of_int 48000) (F32.of_int downsample_rate))
            (F32.of_int 2) in
  let cutoff := F32.mul effective_nyquist nyquist_fraction in
  let cutoff := if F32.gtb cutoff (F32.of_int 18000) then F32.of_int 18000
                else cutoff in
  if F32.ltb cutoff (F32.of_int 500) then F32.of_int 500 else cutoff.

(** Holds of 1 to 32 samples. *)
Definition downsample_rates : list Z := map Z.of_nat (seq 1 32).

(** ** The control-rate code of [flux_main.cpp] on its own globals *)

Module Panel.

Definition KNOB_TOUCH_THRESHOLD : F32.float := F32.lit 2 2.

(** What the Hothouse reports at the top of a callback: the six knobs
    ([KNOB_1] .. [KNOB_6] as 0 .. 5), two toggle switches and the edge of
    the first footswitch. *)
Record hardware := mkHardware {
  GetKnobValue : Z -> F32.float;
  TOGGLESWITCH_1 : Z;
  TOGGLESWITCH_3 : Z;
  FOOTSWITCH_1_RisingEdge : bool
}.

(** The globals of the control state and the processed parameters. *)
Record state := mkState {
  bypass : bool;
  shift_mode : bool;
  knob_mix : F32.float;
  knob_feedback : F32.float;
  knob_slice_count : F32.float;
  knob_slice_length : F32.float;
  knob_stutter : F32.float;
  toggle_mode : Z;
  knob_prev : Z -> F32.float;
  knob_touched : Z -> bool;
  master_level : F32.float;
  lofi_wobble : F32.float;
  lofi_noise : F32.float;
  lofi_bitcrush : F32.float;
  lofi_age_mix : F32.float;
  active_slice_count : Z;
  slice_length_ms : F32.float;
  slice_length_samples : Z;
  feedback_amount : F32.float
}.

(** One iteration of the movement loop of [UpdateControls]. *)
Definition touch (knobValues : Z -> F32.float) (i : Z) (s : state) : state :=
  if F32.gtb (F32.abs (F32.sub (knobValues i) (knob_prev s i)))
       KNOB_TOUCH_THRESHOLD
  then
    mkState (bypass s) (shift_mode s) (knob_mix s) (knob_feedback s)
      (knob_slice_count s) (knob_slice_length s) (knob_stutter s)
      (toggle_mode s)
      (fun j => if j =? i then knobValues i else knob_prev s j)
      (fun j => if j =? i then true else knob_touched s j)
      (master_level s) (lofi_wobble s) (lofi_noise s) (lofi_bitcrush s)
      (lofi_age_mix s) (active_slice_count s) (slice_length_ms s)
      (slice_length_samples s) (feedback_amount s)
  else s.

(** The movement loop of [UpdateControls], K3 to K6. *)
Definition detect_movement (hw : hardware) (s : state) : state :=
  let knobValues := GetKnobValue hw in
  touch knobValues 5 (touch knobValues 4 (touch knobValues 3
    (touch knobValues 2 s))).

(** The part of [UpdateControls] after the movement loop: the switches and
    the two pages of K3 to K6. *)
Definition map_controls (hw : hardware) (s : state) : state :=
  let knobValues := GetKnobValue hw in
  let shift := TOGGLESWITCH_3 hw =? 2 in
  let k1 := knobValues 0 in
  let k2 := knobValues 1 in
  let k3 := knobValues 2 in
  let k4 := knobValues 3 in
  let k5 := knobValues 4 in
  let k6 := knobValues 5 in
  let normal (i : Z) (k old : F32.float) :=
    if negb shift && knob_touched s i then k else old in
  let lofi (i : Z) (k old : F32.float) :=
    if shift && knob_touched s i then k else old in
  mkState (bypass s) shift k2
    (normal 2 k3 (knob_feedback s))
    (normal 3 k4 (knob_slice_count s))
    (normal 4 k5 (knob_slice_length s))
    (normal 5 k6 (knob_stutter s))
    (TOGGLESWITCH_1 hw)
    (knob_prev s) (knob_touched s)
    (F32.mul k1 (F32.of_int 2))
    (lofi 2 k3 (lofi_wobble s))
    (lofi 3 k4 (lofi_noise s))
    (lofi 4 k5 (lofi_bitcrush s))
    (lofi 5 k6 (lofi_age_mix s))
    (active_slice_count s) (slice_length_ms s) (slice_length_samples s)
    (feedback_amount s).

Definition UpdateControls (hw : hardware) (s : state) : state :=
  map_controls hw (detect_movement hw s).

Definition UpdateButtons (hw : hardware) (s : state) : state :=
  mkState
    (if FOOTSWITCH_1_RisingEdge hw then negb (bypass s) else bypass s)
    (shift_mode s) (knob_mix s) (knob_feedback s)
    (knob_slice_count s) (knob_slice_length s) (knob_stutter s)
    (toggle_mode s) (knob_prev s) (knob_touched s)
    (master_level s) (lofi_wobble s) (lofi_noise s) (lofi_bitcrush s)
    (lofi_age_mix s) (active_slice_count s) (slice_length_ms s)
    (slice_length_samples s) (feedback_amount s).

(** The brightness set on LED 1 and LED 2. *)
Definition UpdateLEDs (s : state) : F32.float * F32.float :=
  (if bypass s then F32.zero else F32.one,
   if shift_mode s then F32.one else F32.zero).

(** [ProcessParameters]; the two casts are undefined outside [int]. *)
Definition ProcessParameters (logf : F32.float -> F32.float) (s : state)
  : option state :=
  count <- FluxControl.slice_count_of_knob (knob_slice_count s) ;;
  let ms := FluxControl.slice_length_ms logf (knob_slice_length s) in
  samples <- FluxControl.slice_length_samples_of_ms ms ;;
  Some (mkState (bypass s) (shift_mode s) (knob_mix s) (knob_feedback s)
          (knob_slice_count s) (knob_slice_length s) (knob_stutter s)
          (toggle_mode s) (knob_prev s) (knob_touched s)
          (master_level s) (lofi_wobble s) (lofi_noise s) (lofi_bitcrush s)
          (lofi_age_mix s) count ms samples (knob_feedback s)).

(** The globals the sample loop reads. *)
Definition controls_of (s : state) : controls :=
  mkControls (active_slice_count s) (slice_length_samples s)
    (feedback_amount s) (knob_stutter s) (toggle_mode s) (knob_mix s)
    (master_level s) (lofi_bitcrush s) (lofi_wobble s) (lofi_noise s)
    (bypass s) false.

(** The control state as the assignments of [main] leave it, before its
    call of [ProcessParameters]. *)
Definition main_controls : state :=
  mkState true false (F32.lit 5 1) (F32.lit 3 1) (F32.lit 25 2)
    (F32.lit 4 1) F32.zero 0 (fun _ => F32.zero) (fun _ => true)
    F32.one F32.zero F32.zero F32.zero F32.zero 0 F32.zero 0 F32.zero.

(** Every knob reads as a finite number in [0, 1]. *)
Definition hardware_ok (hw : hardware) : Prop :=
  forall i, 0 <= i <= 5 -> knob01 (GetKnobValue hw i).

(** The knob values that reach a cast or the capture length. *)
Definition state_ok (s : state) : Prop :=
  knob01 (knob_slice_count s) /\ knob01 (knob_slice_length s) /\
  knob01 (lofi_bitcrush s).

End Panel.

(** ** [UpdateControls] of FLUX v3.0 with dust and wobble

    The later firmware adds one step between the movement loop and the
    mapping: when Toggle 3 has moved since the last callback the touch
    flags of K3 to K6 are cleared and the knob positions are taken as the
    new reference. *)

Module Pickup.

Record state := mkState {
  panel : Panel.state;
  prev_toggle3_pos : Z
}.

Definition reset_touch (hw : Panel.hardware) (s : Panel.state)
  : Panel.state :=
  let moved (j : Z) := (2 <=? j) && (j <=? 5) in
  Panel.mkState (Panel.bypass s) (Panel.shift_mode s) (Panel.knob_mix s)
    (Panel.knob_feedback s) (Panel.knob_slice_count s)
    (Panel.knob_slice_length s) (Panel.knob_stutter s) (Panel.toggle_mode s)
    (fun j => if moved j then Panel.GetKnobValue hw j
              else Panel.knob_prev s j)
    (fun j => if moved j then false else Panel.knob_touched s j)
    (Panel.master_level s) (Panel.lofi_wobble s) (Panel.lofi_noise s)
    (Panel.lofi_bitcrush s) (Panel.lofi_age_mix s)
    (Panel.active_slice_count s) (Panel.slice_length_ms s)
    (Panel.slice_length_samples s) (Panel.feedback_amount s).

Definition UpdateControls (hw : Panel.hardware) (s : state) : state :=
  let p := Panel.detect_movement hw (panel s) in
  let toggle3_pos := Panel.TOGGLESWITCH_3 hw in
  if negb (toggle3_pos =? prev_toggle3_pos s) then
    mkState (Panel.map_controls hw (reset_touch hw p)) toggle3_pos
  else
    mkState (Panel.map_controls hw p) (prev_toggle3_pos s).

End Pickup.

Section Firmware.
Context `{DaisySP}.
Variable logf : F32.float -> F32.float.

(** [AudioCallback]: the four control-rate calls, then the sample loop.
    Returns the two output channels and the LED levels. *)
Definition AudioCallback (hw : Panel.hardware) (ins : list F32.float)
    (s : Panel.state * engine)
  : option (list (F32.float * F32.float) * (F32.float * F32.float)
            * (Panel.state * engine)) :=
  let p := Panel.UpdateControls hw (fst s) in
  let p := Panel.UpdateButtons hw p in
  let leds := Panel.UpdateLEDs p in
  p <- Panel.ProcessParameters logf p ;;
  ' (outs, e) <-
    process_block FluxAudio.process_sample (Panel.controls_of p) ins (snd s) ;;
  Some (outs, leds, (p, e)).

Fixpoint run_callbacks (cbs : list (Panel.hardware * list F32.float))
    (s : Panel.state * engine) : option (Panel.state * engine) :=
  match cbs with
  | [] => Some s
  | (hw, ins) :: cbs =>
      ' (_, _, s) <- AudioCallback hw ins s ;;
      run_callbacks cbs s
  end.

(** The state in which [main] starts the audio: [random] is what [rand]
    will return after [srand], [d] the DaisySP objects after their
    [Init]. *)
Definition main (random : rand_state) (d : dsp_state)
  : option (Panel.state * engine) :=
  p <- Panel.ProcessParameters logf Panel.main_controls ;;
  Some (p, power_on (Panel.slice_length_samples p) random d).

End Firmware.

(** [main] on the bench: pass-through DaisySP objects, a random source
    that always returns 0 and [x - 1] standing in for [logf]. *)
Definition bench_main : Panel.state * @engine passthrough_dsp :=
  match @main passthrough_dsp (fun x => F32.sub x F32.one)
          (fun _ => 0%N) tt with
  | Some s => s
  | None => (Panel.main_controls, bench_engine)
  end.

(** * Verification *)

(** ** Binary32 arithmetic: each operation rounds its exact result *)

Module F32Facts.
Import F32.

(** *** Powers of two *)

Lemma pow2_pos n : 0 <= n -> 0 < 2 ^ n.
Proof. intro. apply Z.pow_pos_nonneg; lia. Qed.

Lemma pow2_add a b : 0 <= a -> 0 <= b -> 2 ^ (a + b) = 2 ^ a * 2 ^ b.
Proof. intros. apply Z.pow_add_r; lia. Qed.

Lemma pow2_le a b : 0 <= a <= b -> 2 ^ a <= 2 ^ b.
Proof. intros. apply Z.pow_le_mono_r; lia. Qed.

Lemma pow2_lt a b : 0 <= a < b -> 2 ^ a < 2 ^ b.
Proof. intros. apply Z.pow_lt_mono_r; lia. Qed.

Lemma pow2_lt_inv a b : 0 <= a -> 0 <= b -> 2 ^ a < 2 ^ b -> a < b.
Proof.
  intros Ha Hb Hlt. destruct (Z_lt_le_dec a b) as [|Hge]; [assumption|].
  pose proof (pow2_le b a ltac:(lia)). lia.
Qed.

Lemma pow2_succ a : 0 <= a -> 2 ^ (a + 1) = 2 * 2 ^ a.
Proof. intro. rewrite pow2_add by lia. change (2 ^ 1) with 2. lia. Qed.

(** *** Number of binary digits *)

Lemma digits2_pos_bounds p :
  2 ^ (Zpos (digits2_pos p) - 1) <= Zpos p < 2 ^ Zpos (digits2_pos p).
Proof.
  induction p as [p IH|p IH|]; simpl digits2_pos.
  - rewrite Pos2Z.inj_succ. unfold Z.succ.
    replace (Zpos (digits2_pos p) + 1 - 1) with (Zpos (digits2_pos p) - 1 + 1) by lia.
    rewrite !pow2_succ by lia. lia.
  - rewrite Pos2Z.inj_succ. unfold Z.succ.
    replace (Zpos (digits2_pos p) + 1 - 1) with (Zpos (digits2_pos p) - 1 + 1) by lia.
    rewrite !pow2_succ by lia. lia.
  - change (2 ^ (1 - 1)) with 1. change (2 ^ 1) with 2. lia.
Qed.

Lemma dig_bounds z : 0 < z -> 1 <= dig z /\ 2 ^ (dig z - 1) <= z < 2 ^ dig z.
Proof.
  intro Hz. destruct z as [|p|p]; try lia. unfold dig; simpl.
  split; [lia | apply digits2_pos_bounds].
Qed.

Lemma dig_unique z k : 0 < z -> 1 <= k -> 2 ^ (k - 1) <= z < 2 ^ k -> dig z = k.
Proof.
  intros Hz Hk [Hlo Hhi]. destruct (dig_bounds z Hz) as (Hd & Hdl & Hdh).
  assert (k - 1 < dig z) by (apply pow2_lt_inv; lia).
  assert (dig z - 1 < k) by (apply pow2_lt_inv; lia).
  lia.
Qed.

Lemma dig_mono a b : 0 < a <= b -> dig a <= dig b.
Proof.
  intros [Ha Hab].
  destruct (dig_bounds a Ha) as (Hd & Hdl & Hdh).
  destruct (dig_bounds b ltac:(lia)) as (Hd' & Hdl' & Hdh').
  assert (dig a - 1 < dig b) by (apply pow2_lt_inv; lia). lia.
Qed.

Lemma dig_shift a k : 0 < a -> 0 <= k -> dig (a * 2 ^ k) = dig a + k.
Proof.
  intros Ha Hk. destruct (dig_bounds a Ha) as (Hd & Hdl & Hdh).
  pose proof (pow2_pos k Hk).
  apply dig_unique; [nia | lia |].
  replace (dig a + k - 1) with (dig a - 1 + k) by lia.
  rewrite !pow2_add by lia. nia.
Qed.

Lemma dig_0 : dig 0 = 0.
Proof. reflexivity. Qed.

Lemma compare_mul_r a b p : 0 < p -> (a * p ?= b * p) = (a ?= b).
Proof.
  intro Hp. destruct (Z.compare_spec a b).
  - subst. apply Z.compare_refl.
  - apply Z.compare_lt_iff. nia.
  - apply Z.compare_gt_iff. nia.
Qed.

(** *** Rounding of a quotient by a power of two *)

Section Rne.
Variable n : Z.
Hypothesis Hn : 0 <= n.

Let P := pow2_pos n Hn.

Lemma rne_bounds M : M / 2 ^ n <= rne M n <= M / 2 ^ n + 1.
Proof.
  unfold rne. cbv zeta.
  destruct (2 * (M mod 2 ^ n) ?= 2 ^ n); try destruct (Z.even _); lia.
Qed.

Lemma rne_exact q : rne (q * 2 ^ n) n = q.
Proof.
  unfold rne. cbv zeta. rewrite Z.div_mul, Z.mod_mul by lia.
  rewrite Z.mul_0_r.
  destruct (Z.compare_spec 0 (2 ^ n)); [lia | reflexivity | lia].
Qed.

Lemma rne_mono M1 M2 : M1 <= M2 -> rne M1 n <= rne M2 n.
Proof.
  intro Hle.
  pose proof (Z.div_mod M1 (2 ^ n) ltac:(lia)) as E1.
  pose proof (Z.div_mod M2 (2 ^ n) ltac:(lia)) as E2.
  pose proof (Z.mod_pos_bound M1 (2 ^ n) P) as B1.
  pose proof (Z.mod_pos_bound M2 (2 ^ n) P) as B2.
  assert (Hq : M1 / 2 ^ n <= M2 / 2 ^ n) by (apply Z.div_le_mono; lia).
  destruct (Z.eq_dec (M1 / 2 ^ n) (M2 / 2 ^ n)) as [Heq|Hne].
  - assert (Hr : M1 mod 2 ^ n <= M2 mod 2 ^ n) by nia.
    unfold rne. cbv zeta. rewrite Heq.
    destruct (Z.compare_spec (2 * (M1 mod 2 ^ n)) (2 ^ n));
      destruct (Z.compare_spec (2 * (M2 mod 2 ^ n)) (2 ^ n));
      try destruct (Z.even _); lia.
  - pose proof (rne_bounds M1). pose proof (rne_bounds M2). lia.
Qed.

Lemma rne_le_of_le M B : M <= B * 2 ^ n -> rne M n <= B.
Proof. intro Hle. rewrite <- (rne_exact B). apply rne_mono, Hle. Qed.

Lemma rne_ge_of_ge M B : B * 2 ^ n <= M -> B <= rne M n.
Proof. intro Hle. rewrite <- (rne_exact B). apply rne_mono, Hle. Qed.

Lemma rne_scale M k : 0 <= k -> rne (M * 2 ^ k) (n + k) = rne M n.
Proof.
  intro Hk. pose proof (pow2_pos k Hk) as Pk. unfold rne. cbv zeta.
  rewrite pow2_add by lia.
  rewrite Z.div_mul_cancel_r by lia.
  rewrite Z.mul_mod_distr_r by lia.
  replace (2 * (M mod 2 ^ n * 2 ^ k)) with (2 * (M mod 2 ^ n) * 2 ^ k) by lia.
  rewrite compare_mul_r by lia. reflexivity.
Qed.

End Rne.

(** *** The shifter of [SpecFloat] *)

Lemma iter_pos_nat {A} (f : A -> A) p x :
  iter_pos f p x = Nat.iter (Pos.to_nat p) f x.
Proof.
  revert x. induction p as [p IH|p IH|]; intro x; simpl iter_pos.
  - rewrite !IH, Pos2Nat.inj_xI.
    replace (S (2 * Pos.to_nat p)) with (Pos.to_nat p + S (Pos.to_nat p))%nat by lia.
    rewrite Nat.iter_add, Nat.iter_succ_r. reflexivity.
  - rewrite !IH, Pos2Nat.inj_xO.
    replace (2 * Pos.to_nat p)%nat with (Pos.to_nat p + Pos.to_nat p)%nat by lia.
    rewrite Nat.iter_add. reflexivity.
  - reflexivity.
Qed.

Lemma shr_1_nonneg m r s :
  0 <= m ->
  shr_1 (Build_shr_record m r s) = Build_shr_record (m / 2) (Z.odd m) (r || s).
Proof.
  intro Hm. rewrite <- Z.div2_div.
  destruct m as [|[p|p|]|p]; try lia; reflexivity.
Qed.

(** After [k] single shifts of [(M, false, false)]: the quotient, the
    round bit and the sticky bit describe [M / 2^k] and where the
    remainder lies with respect to one half. *)
Lemma shr_iter_spec M (k : nat) :
  0 <= M ->
  let mrs := Nat.iter k shr_1 (Build_shr_record M false false) in
  let R := 2 * (M mod 2 ^ Z.of_nat k)
             - (if shr_r mrs then 2 ^ Z.of_nat k else 0) in
  shr_m mrs = M / 2 ^ Z.of_nat k /\
  0 <= R < 2 ^ Z.of_nat k /\
  (shr_s mrs = true <-> R <> 0).
Proof.
  intro HM. induction k as [|k IH].
  - simpl. rewrite Z.mod_1_r, Z.div_1_r.
    repeat split; try lia; intro; (discriminate || lia).
  - cbv zeta in IH |- *. rewrite Nat.iter_succ.
    destruct (Nat.iter k shr_1 _) as [m r s]. cbn [shr_m shr_r shr_s] in IH.
    destruct IH as (Em & HR & Hs).
    assert (Hk : 0 <= Z.of_nat k) by lia.
    pose proof (pow2_pos _ Hk) as Pk.
    assert (Hm : 0 <= m) by (rewrite Em; apply Z.div_pos; lia).
    rewrite shr_1_nonneg by assumption. cbn [shr_m shr_r shr_s].
    rewrite Nat2Z.inj_succ. unfold Z.succ. rewrite pow2_succ by lia.
    replace (2 * 2 ^ Z.of_nat k) with (2 ^ Z.of_nat k * 2) by lia.
    rewrite Z.rem_mul_r by lia. rewrite <- Z.div_div by lia. rewrite <- Em.
    rewrite (Zmod_odd m).
    destruct (Z.odd m).
    + repeat split; try (destruct r; lia).
      * intro Hrs. destruct r; [lia|]. simpl in Hrs. apply Hs in Hrs. lia.
      * intro Hne. destruct r; [reflexivity|]. simpl. apply Hs. lia.
    + repeat split; try (destruct r; lia).
      * intro Hrs. destruct r; [lia|]. simpl in Hrs. apply Hs in Hrs. lia.
      * intro Hne. destruct r; [reflexivity|]. simpl. apply Hs. lia.
Qed.

(** Shifting right by [n > 0] and rounding to nearest even is [rne]. *)
Lemma shr_round M n e :
  0 <= M -> 0 < n ->
  let '(mrs, e') := shr (Build_shr_record M false false) e n in
  round_nearest_even (shr_m mrs) (loc_of_shr_record mrs) = rne M n /\
  e' = e + n.
Proof.
  intros HM Hn. destruct n as [|p|p]; try lia. simpl shr.
  split; [|reflexivity]. rewrite iter_pos_nat.
  pose proof (shr_iter_spec M (Pos.to_nat p) HM) as S0. cbv zeta in S0.
  rewrite positive_nat_Z in S0.
  destruct (Nat.iter _ shr_1 _) as [m r s]. cbn [shr_m shr_r shr_s] in S0.
  destruct S0 as (Em & HR & Hs). unfold rne. cbv zeta. rewrite <- Em.
  cbn [shr_m].
  destruct r, s; cbn [loc_of_shr_record round_nearest_even].
  - assert (2 * (M mod 2 ^ Z.pos p) - 2 ^ Z.pos p <> 0) by (apply Hs; reflexivity).
    destruct (Z.compare_spec (2 * (M mod 2 ^ Z.pos p)) (2 ^ Z.pos p)); lia.
  - assert (~ (2 * (M mod 2 ^ Z.pos p) - 2 ^ Z.pos p <> 0))
      by (intro C; apply Hs in C; discriminate).
    destruct (Z.compare_spec (2 * (M mod 2 ^ Z.pos p)) (2 ^ Z.pos p)); lia.
  - destruct (Z.compare_spec (2 * (M mod 2 ^ Z.pos p)) (2 ^ Z.pos p)); lia.
  - destruct (Z.compare_spec (2 * (M mod 2 ^ Z.pos p)) (2 ^ Z.pos p)); lia.
Qed.

(** *** The binary32 format *)

Lemma fexp_eq e : fexp prec emax e = Z.max (e - 24) (-149).
Proof. reflexivity. Qed.

Lemma bounded_iff m e :
  bounded prec emax m e = true <->
  Z.max (dig (Zpos m) + e - 24) (-149) = e /\ e <= 104.
Proof.
  unfold bounded, canonical_mantissa. rewrite fexp_eq.
  rewrite andb_true_iff, Z.eqb_eq, Z.leb_le.
  change (emax - prec) with 104. unfold dig. simpl Zdigits2. reflexivity.
Qed.

Lemma FV_finite s m e :
  FV (S754_finite s m e) = sgn s (Zpos m * 2 ^ (e + K)).
Proof. reflexivity. Qed.

Lemma nexp_shift M E :
  0 < M -> - K <= E ->
  nexp (M * 2 ^ (E + K)) = Z.max (dig M + E - 24) (-149) + K.
Proof.
  intros HM HE. unfold nexp. rewrite dig_shift by lia. unfold K. lia.
Qed.

(** First stage: shift to the format's exponent and round. *)
Lemma shr_fexp_round M E :
  0 < M ->
  let e := Z.max (dig M + E - 24) (-149) in
  E <= e ->
  let '(mrs, e') := shr_fexp prec emax M E loc_Exact in
  round_nearest_even (shr_m mrs) (loc_of_shr_record mrs) = rne M (e - E) /\
  e' = e.
Proof.
  intros HM e Hfine. unfold shr_fexp. rewrite fexp_eq. fold (dig M). fold e.
  cbn [shr_record_of_loc].
  destruct (Z.eq_dec (e - E) 0) as [E0|NE].
  - rewrite E0. cbn [shr shr_m loc_of_shr_record round_nearest_even].
    split; [|lia]. rewrite <- (rne_exact 0 ltac:(lia) M) at 1.
    f_equal. change (2 ^ 0) with 1. lia.
  - pose proof (shr_round M (e - E) E ltac:(lia) ltac:(lia)) as S0.
    destruct (shr _ E (e - E)) as [mrs e'].
    destruct S0 as [E1 E2]. split; [exact E1 | lia].
Qed.

(** Second stage: renormalise a rounded mantissa of at most 25 bits. *)
Lemma shr_fexp_renorm q e :
  -149 <= e -> 0 <= q <= 2 ^ 24 ->
  let '(mrs, e') := shr_fexp prec emax q e loc_Exact in
  (q = 2 ^ 24 /\ shr_m mrs = 2 ^ 23 /\ e' = e + 1) \/
  (q < 2 ^ 24 /\ shr_m mrs = q /\ e' = e).
Proof.
  intros He [Hq0 Hq]. unfold shr_fexp. rewrite fexp_eq. fold (dig q).
  cbn [shr_record_of_loc].
  destruct (Z.eq_dec q 0) as [->|Hq1].
  - rewrite dig_0.
    destruct (Z.max (0 + e - 24) (-149) - e) eqn:En; try lia;
      cbn [shr shr_m]; right; repeat split; try lia.
  - destruct (dig_bounds q ltac:(lia)) as (Hd & Hdl & Hdh).
    destruct (Z.eq_dec q (2 ^ 24)) as [->|Hq2].
    + replace (dig (2 ^ 24)) with 25 by reflexivity.
      replace (Z.max (25 + e - 24) (-149) - e) with 1 by lia.
      left. repeat split; reflexivity.
    + assert (dig q <= 24).
      { assert (dig q - 1 < 24) by (apply pow2_lt_inv; lia). lia. }
      destruct (Z.max (dig q + e - 24) (-149) - e) eqn:En; try lia;
        cbn [shr shr_m]; right; repeat split; try lia.
Qed.

Lemma good_zero s : good (S754_zero s).
Proof. split; reflexivity. Qed.

(** The rounding core on an input at least as fine as the format. *)
Lemma round_aux_spec s M E :
  0 < M -> - K <= E ->
  E <= Z.max (dig M + E - 24) (-149) ->
  M * 2 ^ (E + K) < 2 ^ (127 + K) ->
  good (binary_round_aux prec emax s M E loc_Exact) /\
  FV (binary_round_aux prec emax s M E loc_Exact)
  = sgn s (rv (M * 2 ^ (E + K))).
Proof.
  intros HM HE Hfine Hov.
  set (e := Z.max (dig M + E - 24) (-149)) in *.
  assert (HEK : 0 <= E + K) by lia.
  pose proof (pow2_pos _ HEK) as PEK.
  destruct (dig_bounds M HM) as (Hd & Hdl & Hdh).
  (* the mantissa after rounding *)
  assert (Hn : 0 <= e - E) by lia.
  pose proof (pow2_pos _ Hn) as Pn.
  assert (Hq : 0 <= rne M (e - E) <= 2 ^ 24).
  { split.
    - apply rne_ge_of_ge; lia.
    - apply rne_le_of_le; [lia|].
      rewrite <- pow2_add by lia.
      assert (2 ^ dig M <= 2 ^ (24 + (e - E))) by (apply pow2_le; lia). lia. }
  assert (Hrv : rv (M * 2 ^ (E + K)) = rne M (e - E) * 2 ^ (e + K)).
  { unfold rv. rewrite nexp_shift by lia. fold e.
    replace (e + K) with (e - E + (E + K)) by lia.
    rewrite rne_scale by lia. reflexivity. }
  assert (He : e <= 103).
  { assert (dig (M * 2 ^ (E + K)) <= 127 + K).
    { destruct (dig_bounds (M * 2 ^ (E + K)) ltac:(nia)) as (Hd' & Hdl' & _).
      assert (dig (M * 2 ^ (E + K)) - 1 < 127 + K)
        by (apply pow2_lt_inv; unfold K in *; lia). lia. }
    rewrite dig_shift in H by lia. lia. }
  unfold binary_round_aux.
  pose proof (shr_fexp_round M E HM Hfine) as S1. fold e in S1.
  destruct (shr_fexp prec emax M E loc_Exact) as [mrs1 e1].
  destruct S1 as [E1 E2]. rewrite E1, E2. clear E1 E2 mrs1 e1.
  pose proof (shr_fexp_renorm (rne M (e - E)) e ltac:(lia) Hq) as S2.
  destruct (shr_fexp prec emax (rne M (e - E)) e loc_Exact) as [mrs2 e2].
  rewrite Hrv.
  destruct S2 as [(Eq & Em2 & Ee2) | (Hlt & Em2 & Ee2)]; rewrite Em2, Ee2;
    clear Em2 Ee2 mrs2 e2.
  - (* rounded up to the next binade *)
    change (2 ^ 23) with (Zpos 8388608).
    replace (e + 1 <=? emax - prec) with true
      by (symmetry; apply Z.leb_le; change (emax - prec) with 104; lia).
    split.
    + split; [|reflexivity]. apply bounded_iff.
      replace (dig (Zpos 8388608)) with 24 by reflexivity. lia.
    + rewrite FV_finite, Eq. f_equal.
      replace (e + 1 + K) with (e + K + 1) by lia.
      rewrite pow2_succ by lia.
      change (Zpos 8388608) with (2 ^ 23). change (2 ^ 24) with (2 * 2 ^ 23). lia.
  - destruct (rne M (e - E)) as [|p|p] eqn:Eq; try lia.
    + split; [apply good_zero|]. destruct s; reflexivity.
    + replace (e <=? emax - prec) with true
        by (symmetry; apply Z.leb_le; change (emax - prec) with 104; lia).
      split; [|reflexivity].
      split; [|reflexivity]. apply bounded_iff.
      split; [|lia].
      destruct (dig_bounds (Zpos p) ltac:(lia)) as (Hp & Hpl & Hph).
      assert (dig (Zpos p) <= 24).
      { assert (dig (Zpos p) - 1 < 24) by (apply pow2_lt_inv; lia). lia. }
      destruct (Z.eq_dec e (-149)) as [->|Hne]; [lia|].
      (* normal range: the rounded mantissa has exactly 24 bits *)
      assert (En : e - E = dig M - 24) by lia.
      assert (2 ^ 23 <= Zpos p).
      { rewrite <- Eq. apply rne_ge_of_ge; [lia|].
        rewrite <- pow2_add by lia.
        replace (23 + (e - E)) with (dig M - 1) by lia. lia. }
      assert (23 < dig (Zpos p)) by (apply pow2_lt_inv; lia).
      lia.
Qed.

Lemma pos_iter_xO m d : Zpos (Pos.iter xO m d) = Zpos m * 2 ^ Zpos d.
Proof.
  induction d as [|d IH] using Pos.peano_ind.
  - simpl. change (2 ^ 1) with 2. lia.
  - rewrite Pos.iter_succ, Pos2Z.inj_succ. unfold Z.succ.
    rewrite pow2_succ by lia. rewrite Pos2Z.inj_xO, IH. lia.
Qed.

Lemma shl_align_fst m e e' :
  e' <= e -> Zpos (fst (shl_align m e e')) = Zpos m * 2 ^ (e - e').
Proof.
  intro Hle. unfold shl_align.
  destruct (e' - e) as [|d|d] eqn:Ed; try lia; cbn [fst].
  - replace (e - e') with 0 by lia. change (2 ^ 0) with 1. lia.
  - pose proof (Pos2Z.opp_pos d). rewrite pos_iter_xO. f_equal. f_equal. lia.
Qed.

Lemma binary_round_spec s m E :
  - K <= E ->
  Zpos m * 2 ^ (E + K) < 2 ^ (127 + K) ->
  good (binary_round prec emax s m E) /\
  FV (binary_round prec emax s m E) = sgn s (rv (Zpos m * 2 ^ (E + K))).
Proof.
  intros HE Hov. unfold binary_round. rewrite fexp_eq.
  change (Zpos (digits2_pos m)) with (dig (Zpos m)).
  set (e := Z.max (dig (Zpos m) + E - 24) (-149)).
  unfold shl_align. destruct (e - E) as [|d|d] eqn:Ed.
  - apply round_aux_spec; try fold e; lia.
  - apply round_aux_spec; try fold e; lia.
  - pose proof (Pos2Z.opp_pos d) as Od.
    assert (He : -149 <= e) by (unfold e; lia).
    assert (EV : Zpos (Pos.iter xO m d) * 2 ^ (e + K) = Zpos m * 2 ^ (E + K)).
    { rewrite pos_iter_xO. replace (E + K) with (Zpos d + (e + K)) by lia.
      rewrite (pow2_add (Zpos d) (e + K)) by (unfold K in *; lia). lia. }
    rewrite <- EV.
    apply round_aux_spec; try lia.
    + unfold K in *; lia.
    + rewrite pos_iter_xO, dig_shift by lia. lia.
Qed.

Lemma rv_0 : rv 0 = 0.
Proof. reflexivity. Qed.

Lemma rvs_0 : rvs 0 = 0.
Proof. reflexivity. Qed.

Lemma binary_normalize_spec W E sz :
  - K <= E ->
  Z.abs W * 2 ^ (E + K) < 2 ^ (127 + K) ->
  good (binary_normalize prec emax W E sz) /\
  FV (binary_normalize prec emax W E sz) = rvs (W * 2 ^ (E + K)).
Proof.
  intros HE Hov. pose proof (pow2_pos (E + K) ltac:(lia)) as PEK.
  destruct W as [|p|p]; cbn [binary_normalize].
  - split; [apply good_zero | reflexivity].
  - destruct (binary_round_spec false p E HE Hov) as [G V].
    split; [exact G|]. rewrite V. unfold rvs, sgn.
    replace (Zpos p * 2 ^ (E + K) <? 0) with false; [reflexivity|].
    symmetry. apply Z.ltb_ge. lia.
  - destruct (binary_round_spec true p E HE Hov) as [G V].
    split; [exact G|]. rewrite V. unfold rvs, sgn.
    replace (Zneg p * 2 ^ (E + K) <? 0) with true
      by (symmetry; apply Z.ltb_lt; lia).
    do 2 f_equal. lia.
Qed.

(** *** The rounded value as a function of the exact value *)

Lemma nexp_ge V : 149 <= nexp V.
Proof. unfold nexp. lia. Qed.

Lemma rv_nonneg V : 0 <= V -> 0 <= rv V.
Proof.
  intro HV. unfold rv. pose proof (nexp_ge V).
  pose proof (pow2_pos (nexp V) ltac:(lia)).
  assert (0 <= rne V (nexp V)) by (apply rne_ge_of_ge; lia). nia.
Qed.

Lemma rv_mono V1 V2 : 0 <= V1 <= V2 -> rv V1 <= rv V2.
Proof.
  intros [H1 H12].
  destruct (Z.eq_dec V1 0) as [->|N1]; [rewrite rv_0; apply rv_nonneg; lia|].
  assert (P1 : 0 < V1) by lia. assert (P2 : 0 < V2) by lia.
  destruct (dig_bounds V1 P1) as (Hd1 & Hl1 & Hh1).
  destruct (dig_bounds V2 P2) as (Hd2 & Hl2 & Hh2).
  pose proof (dig_mono V1 V2 ltac:(lia)) as HD.
  unfold rv, nexp.
  set (n1 := Z.max (dig V1 - 24) 149). set (n2 := Z.max (dig V2 - 24) 149).
  assert (Hn1 : 0 <= n1) by lia. assert (Hn2 : 0 <= n2) by lia.
  pose proof (pow2_pos n1 Hn1). pose proof (pow2_pos n2 Hn2).
  destruct (Z.eq_dec n1 n2) as [En|Nn].
  - rewrite <- En. pose proof (rne_mono n1 Hn1 V1 V2 H12). nia.
  - assert (Hlt : n1 < n2) by lia.
    assert (E2 : n2 = dig V2 - 24) by lia.
    assert (L2 : 2 ^ 23 <= rne V2 n2).
    { apply rne_ge_of_ge; [lia|]. rewrite <- pow2_add by lia.
      replace (23 + n2) with (dig V2 - 1) by lia. lia. }
    set (k := Z.max (dig V1 - n1) 0).
    assert (U1 : rne V1 n1 <= 2 ^ k).
    { apply rne_le_of_le; [lia|]. rewrite <- pow2_add by lia.
      assert (2 ^ dig V1 <= 2 ^ (k + n1)) by (apply pow2_le; lia). lia. }
    assert (2 ^ k * 2 ^ n1 <= 2 ^ 23 * 2 ^ n2).
    { rewrite <- !pow2_add by lia. apply pow2_le. lia. }
    nia.
Qed.

Lemma rvs_mono V1 V2 : V1 <= V2 -> rvs V1 <= rvs V2.
Proof.
  intro Hle. unfold rvs.
  destruct (Z.ltb_spec V1 0), (Z.ltb_spec V2 0).
  - pose proof (rv_mono (- V2) (- V1) ltac:(lia)). lia.
  - pose proof (rv_nonneg (- V1) ltac:(lia)).
    pose proof (rv_nonneg V2 ltac:(lia)). lia.
  - lia.
  - apply rv_mono. lia.
Qed.

Lemma rvs_opp V : rvs (- V) = - rvs V.
Proof.
  unfold rvs. destruct (Z.ltb_spec V 0), (Z.ltb_spec (- V) 0); try lia.
  - rewrite Z.opp_involutive. reflexivity.
  - assert (V = 0) by lia. subst. reflexivity.
Qed.

(** *** Canonical floats *)

Lemma bounded_facts m e :
  bounded prec emax m e = true ->
  -149 <= e <= 104 /\ 1 <= dig (Zpos m) <= 24 /\
  (e = -149 \/ dig (Zpos m) = 24).
Proof.
  intro Hb. apply bounded_iff in Hb.
  destruct (dig_bounds (Zpos m) ltac:(lia)) as (Hd & _). lia.
Qed.

Lemma rv_fix m e :
  bounded prec emax m e = true ->
  rv (Zpos m * 2 ^ (e + K)) = Zpos m * 2 ^ (e + K).
Proof.
  intro Hb. apply bounded_iff in Hb. unfold rv.
  rewrite nexp_shift by (unfold K; lia).
  replace (Z.max (dig (Zpos m) + e - 24) (-149)) with e by lia.
  rewrite rne_exact by (unfold K; lia). reflexivity.
Qed.

Lemma rvs_fix x : good x -> rvs (FV x) = FV x.
Proof.
  intros [Hv Hf]. destruct x as [s|s| |s m e]; try discriminate; try reflexivity.
  simpl in Hv. pose proof (bounded_facts m e Hv) as (He & _).
  pose proof (pow2_pos (e + K) ltac:(unfold K; lia)).
  rewrite FV_finite. destruct s; unfold sgn.
  - rewrite rvs_opp. f_equal. unfold rvs.
    replace (Zpos m * 2 ^ (e + K) <? 0) with false
      by (symmetry; apply Z.ltb_ge; lia).
    apply rv_fix, Hv.
  - unfold rvs.
    replace (Zpos m * 2 ^ (e + K) <? 0) with false
      by (symmetry; apply Z.ltb_ge; lia).
    apply rv_fix, Hv.
Qed.

Lemma FV_pos_finite m e :
  bounded prec emax m e = true -> 0 < Zpos m * 2 ^ (e + K).
Proof.
  intro Hb. pose proof (bounded_facts m e Hb) as (He & _).
  pose proof (pow2_pos (e + K) ltac:(unfold K; lia)). lia.
Qed.

(** Values of canonical floats are ordered first by exponent. *)
Lemma canonical_lt m1 e1 m2 e2 :
  bounded prec emax m1 e1 = true -> bounded prec emax m2 e2 = true ->
  e1 < e2 -> Zpos m1 * 2 ^ (e1 + K) < Zpos m2 * 2 ^ (e2 + K).
Proof.
  intros B1 B2 Hlt.
  pose proof (bounded_facts _ _ B1) as (He1 & Hd1 & _).
  pose proof (bounded_facts _ _ B2) as (He2 & Hd2 & Hn2).
  destruct (dig_bounds (Zpos m1) ltac:(lia)) as (_ & _ & Hh1).
  destruct (dig_bounds (Zpos m2) ltac:(lia)) as (_ & Hl2 & _).
  assert (E24 : dig (Zpos m2) = 24) by lia. rewrite E24 in Hl2.
  assert (2 ^ dig (Zpos m1) <= 2 ^ 24) by (apply pow2_le; lia).
  pose proof (pow2_pos (e1 + K) ltac:(unfold K; lia)).
  pose proof (pow2_pos (e2 + K) ltac:(unfold K; lia)).
  assert (2 ^ 24 * 2 ^ (e1 + K) <= 2 ^ (24 - 1) * 2 ^ (e2 + K)).
  { rewrite <- !pow2_add by (unfold K; lia). apply pow2_le. unfold K. lia. }
  nia.
Qed.

Lemma compare_cont_Eq p q : Pos.compare_cont Eq p q = (Zpos p ?= Zpos q).
Proof. reflexivity. Qed.

Lemma SFcompare_FV x y :
  good x -> good y -> SFcompare x y = Some (FV x ?= FV y).
Proof.
  intros [Vx Fx] [Vy Fy].
  destruct x as [sx|sx| |sx mx ex]; try discriminate;
    destruct y as [sy|sy| |sy my ey]; try discriminate; simpl in Vx, Vy.
  - reflexivity.
  - pose proof (FV_pos_finite _ _ Vy). cbn [SFcompare]. f_equal.
    rewrite FV_finite. cbn [FV]. destruct sy; unfold sgn; symmetry.
    + apply Z.compare_gt_iff. lia.
    + apply Z.compare_lt_iff. lia.
  - pose proof (FV_pos_finite _ _ Vx). cbn [SFcompare]. f_equal.
    rewrite FV_finite. cbn [FV]. destruct sx; unfold sgn; symmetry.
    + apply Z.compare_lt_iff. lia.
    + apply Z.compare_gt_iff. lia.
  - pose proof (FV_pos_finite _ _ Vx) as Px.
    pose proof (FV_pos_finite _ _ Vy) as Py.
    cbn [SFcompare]. f_equal. rewrite !FV_finite.
    destruct sx, sy; unfold sgn.
    + (* both negative *)
      rewrite Z.compare_opp.
      destruct (Z.compare_spec ex ey) as [->|Hlt|Hgt].
      * rewrite compare_cont_Eq.
        rewrite compare_mul_r by lia. symmetry. apply Z.compare_antisym.
      * pose proof (canonical_lt _ _ _ _ Vx Vy Hlt).
        symmetry. apply Z.compare_gt_iff. lia.
      * pose proof (canonical_lt _ _ _ _ Vy Vx Hgt).
        symmetry. apply Z.compare_lt_iff. lia.
    + symmetry. apply Z.compare_lt_iff. lia.
    + symmetry. apply Z.compare_gt_iff. lia.
    + destruct (Z.compare_spec ex ey) as [->|Hlt|Hgt].
      * rewrite compare_cont_Eq. rewrite compare_mul_r by lia. reflexivity.
      * pose proof (canonical_lt _ _ _ _ Vx Vy Hlt).
        symmetry. apply Z.compare_lt_iff. lia.
      * pose proof (canonical_lt _ _ _ _ Vy Vx Hgt).
        symmetry. apply Z.compare_gt_iff. lia.
Qed.

Lemma SFltb_FV x y : good x -> good y -> SFltb x y = (FV x <? FV y).
Proof.
  intros Gx Gy. unfold SFltb. rewrite (SFcompare_FV x y Gx Gy).
  unfold Z.ltb. destruct (FV x ?= FV y); reflexivity.
Qed.

Lemma SFleb_FV x y : good x -> good y -> SFleb x y = (FV x <=? FV y).
Proof.
  intros Gx Gy. unfold SFleb. rewrite (SFcompare_FV x y Gx Gy).
  unfold Z.leb. destruct (FV x ?= FV y); reflexivity.
Qed.

(** *** Addition, subtraction, multiplication, conversion *)

Lemma good_finite s m e :
  good (S754_finite s m e) <-> bounded prec emax m e = true.
Proof. unfold good. simpl. intuition. Qed.

Lemma aligned_value s m e ez :
  -149 <= ez <= e ->
  cond_Zopp s (Zpos (fst (shl_align m e ez))) * 2 ^ (ez + K)
  = FV (S754_finite s m e).
Proof.
  intro He. rewrite shl_align_fst by lia. rewrite FV_finite.
  replace (e + K) with (e - ez + (ez + K)) by lia.
  rewrite (pow2_add (e - ez) (ez + K)) by (unfold K; lia).
  unfold cond_Zopp, sgn. destruct s; lia.
Qed.

Lemma abs_scale W k : 0 <= k -> Z.abs W * 2 ^ k = Z.abs (W * 2 ^ k).
Proof.
  intro Hk. pose proof (pow2_pos k Hk). rewrite Z.abs_mul.
  rewrite (Z.abs_eq (2 ^ k)) by lia. reflexivity.
Qed.

Lemma SFadd_spec x y :
  good x -> good y -> Z.abs (FV x + FV y) < 2 ^ (127 + K) ->
  good (SFadd prec emax x y) /\
  FV (SFadd prec emax x y) = rvs (FV x + FV y).
Proof.
  intros Gx Gy Hov.
  destruct x as [sx|sx| |sx mx ex]; try (destruct Gx; discriminate);
    destruct y as [sy|sy| |sy my ey]; try (destruct Gy; discriminate).
  - split; [destruct sx, sy; apply good_zero | destruct sx, sy; reflexivity].
  - cbn [SFadd]. split; [exact Gy|].
    change (FV (S754_zero sx)) with 0. rewrite Z.add_0_l.
    symmetry. apply rvs_fix, Gy.
  - cbn [SFadd]. split; [exact Gx|].
    change (FV (S754_zero sy)) with 0. rewrite Z.add_0_r.
    symmetry. apply rvs_fix, Gx.
  - pose proof (bounded_facts mx ex (proj1 Gx)) as (Hex & _).
    pose proof (bounded_facts my ey (proj1 Gy)) as (Hey & _).
    cbn [SFadd]. set (ez := Z.min ex ey).
    set (W := cond_Zopp sx (Zpos (fst (shl_align mx ex ez)))
              + cond_Zopp sy (Zpos (fst (shl_align my ey ez)))).
    assert (EW : W * 2 ^ (ez + K)
                 = FV (S754_finite sx mx ex) + FV (S754_finite sy my ey)).
    { unfold W. rewrite Z.mul_add_distr_r.
      rewrite !aligned_value by (unfold ez; lia). reflexivity. }
    rewrite <- EW in *.
    apply binary_normalize_spec; [unfold ez, K; lia|].
    rewrite abs_scale by (unfold ez, K; lia). exact Hov.
Qed.

Lemma SFsub_spec x y :
  good x -> good y -> Z.abs (FV x - FV y) < 2 ^ (127 + K) ->
  good (SFsub prec emax x y) /\
  FV (SFsub prec emax x y) = rvs (FV x - FV y).
Proof.
  intros Gx Gy Hov.
  destruct x as [sx|sx| |sx mx ex]; try (destruct Gx; discriminate);
    destruct y as [sy|sy| |sy my ey]; try (destruct Gy; discriminate).
  - split; [destruct sx, sy; apply good_zero | destruct sx, sy; reflexivity].
  - cbn [SFsub]. split; [apply good_finite, (proj1 Gy)|].
    change (FV (S754_zero sx)) with 0. rewrite Z.sub_0_l.
    rewrite rvs_opp, (rvs_fix _ Gy). rewrite !FV_finite.
    destruct sy; unfold sgn; simpl negb; lia.
  - cbn [SFsub]. split; [exact Gx|].
    change (FV (S754_zero sy)) with 0. rewrite Z.sub_0_r.
    symmetry. apply rvs_fix, Gx.
  - pose proof (bounded_facts mx ex (proj1 Gx)) as (Hex & _).
    pose proof (bounded_facts my ey (proj1 Gy)) as (Hey & _).
    cbn [SFsub]. set (ez := Z.min ex ey).
    set (W := cond_Zopp sx (Zpos (fst (shl_align mx ex ez)))
              - cond_Zopp sy (Zpos (fst (shl_align my ey ez)))).
    assert (EW : W * 2 ^ (ez + K)
                 = FV (S754_finite sx mx ex) - FV (S754_finite sy my ey)).
    { unfold W. rewrite Z.mul_sub_distr_r.
      rewrite !aligned_value by (unfold ez; lia). reflexivity. }
    rewrite <- EW in *.
    apply binary_normalize_spec; [unfold ez, K; lia|].
    rewrite abs_scale by (unfold ez, K; lia). exact Hov.
Qed.

Lemma rvs_sgn s V : 0 <= V -> sgn s (rv V) = rvs (sgn s V).
Proof.
  intro HV. destruct s; unfold sgn.
  - rewrite rvs_opp. f_equal. unfold rvs.
    destruct (Z.ltb_spec V 0); [lia | reflexivity].
  - unfold rvs. destruct (Z.ltb_spec V 0); [lia | reflexivity].
Qed.

(** The product of two binary32 values is rounded from the exact product;
    [W] is that product on the [2^-K] scale. *)
Lemma SFmul_spec x y :
  good x -> good y -> Z.abs (FV x * FV y) < 2 ^ (127 + K) * 2 ^ K ->
  good (SFmul prec emax x y) /\
  exists W, W * 2 ^ K = FV x * FV y /\ FV (SFmul prec emax x y) = rvs W.
Proof.
  intros Gx Gy Hov.
  destruct x as [sx|sx| |sx mx ex]; try (destruct Gx; discriminate);
    destruct y as [sy|sy| |sy my ey]; try (destruct Gy; discriminate);
    try (split; [apply good_zero | exists 0; split; [cbn [FV]; lia | reflexivity]]).
  pose proof (bounded_facts mx ex (proj1 Gx)) as (Hex & Hdx & Hnx).
  pose proof (bounded_facts my ey (proj1 Gy)) as (Hey & Hdy & Hny).
  destruct (dig_bounds (Zpos mx) ltac:(lia)) as (_ & Hlx & Hhx).
  destruct (dig_bounds (Zpos my) ltac:(lia)) as (_ & Hly & Hhy).
  cbn [SFmul]. rewrite Pos2Z.inj_mul.
  set (M := Zpos mx * Zpos my). set (E := ex + ey).
  assert (HM : 0 < M) by (unfold M; lia).
  destruct (dig_bounds M HM) as (HdM & HlM & HhM).
  assert (Hdig : dig (Zpos mx) + dig (Zpos my) - 1 <= dig M).
  { assert (2 ^ (dig (Zpos mx) - 1) * 2 ^ (dig (Zpos my) - 1) <= M)
      by (unfold M; nia).
    rewrite <- pow2_add in H by lia.
    assert (dig (Zpos mx) - 1 + (dig (Zpos my) - 1) < dig M)
      by (apply pow2_lt_inv; lia). lia. }
  pose proof (pow2_pos (E + K) ltac:(unfold E, K; lia)) as PEK.
  pose proof (pow2_pos K ltac:(unfold K; lia)) as PK.
  assert (PW : 2 ^ (E + K) * 2 ^ K = 2 ^ (ex + K) * 2 ^ (ey + K)).
  { rewrite <- (pow2_add (E + K) K), <- (pow2_add (ex + K) (ey + K))
      by (unfold E, K; lia).
    f_equal. unfold E. lia. }
  assert (EP : M * 2 ^ (E + K) * 2 ^ K
               = (Zpos mx * 2 ^ (ex + K)) * (Zpos my * 2 ^ (ey + K))).
  { rewrite <- Z.mul_assoc, PW. unfold M. ring. }
  pose proof (FV_pos_finite mx ex (proj1 Gx)) as Px.
  pose proof (FV_pos_finite my ey (proj1 Gy)) as Py.
  assert (Hov' : M * 2 ^ (E + K) < 2 ^ (127 + K)).
  { rewrite !FV_finite in Hov.
    assert (Z.abs (sgn sx (Zpos mx * 2 ^ (ex + K))
                   * sgn sy (Zpos my * 2 ^ (ey + K)))
            = M * 2 ^ (E + K) * 2 ^ K).
    { rewrite EP.
      assert (0 < Zpos mx * 2 ^ (ex + K) * (Zpos my * 2 ^ (ey + K)))
        by (apply Z.mul_pos_pos; assumption).
      destruct sx, sy; unfold sgn;
        rewrite ?Z.mul_opp_l, ?Z.mul_opp_r, ?Z.opp_involutive, ?Z.abs_opp;
        apply Z.abs_eq; apply Z.lt_le_incl; assumption. }
    rewrite H in Hov.
    apply (Z.mul_lt_mono_pos_r (2 ^ K)); [exact PK | exact Hov]. }
  destruct (round_aux_spec (xorb sx sy) M E HM ltac:(unfold E, K; lia)
              ltac:(unfold E; lia) Hov') as [G V].
  split; [exact G|].
  exists (sgn (xorb sx sy) (M * 2 ^ (E + K))). split.
  - rewrite !FV_finite. destruct sx, sy; unfold sgn; simpl xorb; lia.
  - rewrite V. apply rvs_sgn. lia.
Qed.

Lemma rvs_exact_small n : Z.abs n < 2 ^ 24 -> rvs (n * 2 ^ K) = n * 2 ^ K.
Proof.
  intro Hn. pose proof (pow2_pos K ltac:(unfold K; lia)) as PK.
  assert (Hpos : forall p, Zpos p < 2 ^ 24 ->
                           rv (Zpos p * 2 ^ K) = Zpos p * 2 ^ K).
  { intros p Hp. unfold rv.
    destruct (dig_bounds (Zpos p) ltac:(lia)) as (Hd & Hl & _).
    assert (dig (Zpos p) - 1 < 24) by (apply pow2_lt_inv; lia).
    unfold nexp. rewrite dig_shift by (unfold K; lia).
    set (n' := Z.max (dig (Zpos p) + K - 24) 149).
    assert (Hn' : 0 <= n' <= K) by (unfold n', K; lia).
    replace (Zpos p * 2 ^ K) with (Zpos p * 2 ^ (K - n') * 2 ^ n') at 1.
    - rewrite rne_exact by lia. rewrite <- Z.mul_assoc.
      rewrite <- (pow2_add (K - n') n') by lia. do 2 f_equal. lia.
    - rewrite <- Z.mul_assoc. rewrite <- (pow2_add (K - n') n') by lia.
      do 2 f_equal. lia. }
  destruct n as [|p|p].
  - reflexivity.
  - unfold rvs. destruct (Z.ltb_spec (Zpos p * 2 ^ K) 0); [lia|].
    apply Hpos. lia.
  - replace (Zneg p * 2 ^ K) with (- (Zpos p * 2 ^ K)) by lia.
    rewrite rvs_opp. f_equal.
    unfold rvs. destruct (Z.ltb_spec (Zpos p * 2 ^ K) 0); [lia|].
    apply Hpos. lia.
Qed.

(** [(float)n] is exact for [|n| < 2^24]. *)
Lemma of_int_spec n :
  Z.abs n < 2 ^ 24 ->
  good (binary_normalize prec emax n 0 false) /\
  FV (binary_normalize prec emax n 0 false) = n * 2 ^ K.
Proof.
  intro Hn.
  destruct (binary_normalize_spec n 0 false ltac:(unfold K; lia)) as [G V].
  - rewrite Z.add_0_l.
    assert (2 ^ 24 * 2 ^ K <= 2 ^ (127 + K)).
    { rewrite <- (pow2_add 24 K) by (unfold K; lia).
      apply pow2_le. unfold K. lia. }
    pose proof (pow2_pos K ltac:(unfold K; lia)). nia.
  - split; [exact G|]. rewrite V, Z.add_0_l. apply rvs_exact_small, Hn.
Qed.

Lemma trunc_nonneg x :
  good x -> 0 <= FV x -> trunc x = FV x / 2 ^ K.
Proof.
  intros [Hv Hf] Hx. pose proof (pow2_pos K ltac:(unfold K; lia)) as PK.
  destruct x as [s|s| |s m e]; try discriminate; try reflexivity.
  simpl in Hv. pose proof (bounded_facts m e Hv) as (He & _).
  pose proof (FV_pos_finite m e Hv) as Pm.
  rewrite FV_finite in *. destruct s; unfold sgn in *; [lia|].
  cbn [trunc]. destruct (Z.leb_spec 0 e).
  - rewrite (pow2_add e K) by (unfold K; lia).
    rewrite Z.mul_assoc, Z.div_mul by lia. reflexivity.
  - replace (2 ^ K) with (2 ^ (- e) * 2 ^ (e + K)).
    + rewrite Z.div_mul_cancel_r; [reflexivity| |];
        pose proof (pow2_pos (- e) ltac:(lia));
        pose proof (pow2_pos (e + K) ltac:(unfold K; lia)); lia.
    + rewrite <- (pow2_add (- e) (e + K)) by (unfold K; lia). f_equal. lia.
Qed.

End F32Facts.

(** ** Tactics shared by the proofs *)

(** Case analysis on the scrutinee of the outermost [match] or [if] of a
    hypothesis that computes an [option]. *)
Ltac split_match H :=
  match type of H with
  | context [match ?x with _ => _ end] =>
      lazymatch x with
      | context [match _ with _ => _ end] => fail
      | _ => destruct x eqn:?; try discriminate H
      end
  end.

Ltac invert_some H := injection H as <-; subst.

(** ** Stutter policy: repeat-count draw at stutter 0 *)

(** Claim C8.  With the stutter control at zero (of either sign),
    [CalculateRepeatCount] returns exactly 1 and leaves the pseudo-random
    source as it found it, whatever that source is going to produce. *)
Theorem CalculateRepeatCount_stutter_zero :
  forall (s : bool) (g : rand_state),
    Flux.CalculateRepeatCount (S754_zero s) g = Some (1, g).
Proof.
  intros s g. unfold Flux.CalculateRepeatCount.
  replace (F32.ltb (S754_zero s) (F32.lit 1 2)) with true; [reflexivity|].
  destruct s; vm_compute; reflexivity.
Qed.

(** The later firmware variants draw differently but agree at zero. *)
Lemma Ambien_CalculateRepeatCount_stutter_zero :
  forall (s : bool) (g : rand_state),
    AmbienFlux.CalculateRepeatCount (S754_zero s) g = Some (1, g).
Proof.
  intros s g. unfold AmbienFlux.CalculateRepeatCount.
  replace (F32.ltb (S754_zero s) (F32.lit 1 2)) with true; [reflexivity|].
  destruct s; vm_compute; reflexivity.
Qed.

(** ** Lo-fi rate reduction: exact bypass at amount 0 *)

(** Claim C9.  With the rate-reduction amount at zero, [CustomBitCrush]
    returns its input sample unchanged and touches nothing: hold sample,
    hold counter and filter state are those it was given.  This holds for
    both cut-off fractions (0.8 in FLUX, 0.5 in Ambien Flux) and for every
    DaisySP filter implementation. *)
Theorem CustomBitCrush_zero_is_bypass :
  forall (D : DaisySP) (nyquist_fraction x : F32.float) (s : bool)
         (e : engine),
    CustomBitCrush nyquist_fraction x (S754_zero s) e = Some (x, e).
Proof.
  intros D nf x s e. unfold CustomBitCrush.
  destruct s; reflexivity.
Qed.

(** ** Crossfade length *)





(** ** What the engines leave alone *)

Section Frames.
Context `{DaisySP}.
Variable P : stutter_policy.

(** [PlaybackSlice] only moves the playback cursor and the random source. *)
Lemma PlaybackSlice_frame c e out rd e' :
  Engine.PlaybackSlice P c e = Some (out, rd, e') ->
  store e' = store e /\ cap e' = cap e /\
  slice_length_samples_smooth e' = slice_length_samples_smooth e /\
  bitcrush_hold_sample e' = bitcrush_hold_sample e /\
  bitcrush_sample_counter e' = bitcrush_sample_counter e /\
  dsp e' = dsp e.
Proof.
  unfold Engine.PlaybackSlice. intro H0.
  destruct (negb _); [inversion H0; subst; repeat split; reflexivity|].
  destruct (Engine.resolve_conflict _ _ _) as [[p1 g]|]; [|discriminate].
  destruct (len_get _ _) as [len|]; [|discriminate].
  destruct (len =? 0); [inversion H0; subst; repeat split; reflexivity|].
  destruct (buf_read _ _ _); [|discriminate].
  destruct (Engine.advance_playback _ _ _ _ _ _) as [[p3 g3]|];
    [|discriminate].
  inversion H0; subst; repeat split; reflexivity.
Qed.

Lemma finalize_slice_frame c e st pos e' :
  Engine.finalize_slice P c e st pos = Some e' ->
  slice_length_samples_smooth e' = slice_length_samples_smooth e /\
  bitcrush_hold_sample e' = bitcrush_hold_sample e /\
  bitcrush_sample_counter e' = bitcrush_sample_counter e /\
  dsp e' = dsp e.
Proof.
  unfold Engine.finalize_slice. intro H0.
  destruct (len_set _ _ _); [|discriminate].
  destruct (if negb _ then _ else _) as [[p g]|]; [|discriminate].
  destruct (Engine.next_capture_slice _ _ _) as [[next g']|]; [|discriminate].
  inversion H0; subst; simpl; repeat split; reflexivity.
Qed.

(** [CaptureSlice] never touches the smoothed length, the rate-reduction
    state or the DaisySP objects. *)
Lemma CaptureSlice_frame c x e e' :
  Engine.CaptureSlice P c x e = Some e' ->
  slice_length_samples_smooth e' = slice_length_samples_smooth e /\
  bitcrush_hold_sample e' = bitcrush_hold_sample e /\
  bitcrush_sample_counter e' = bitcrush_sample_counter e /\
  dsp e' = dsp e.
Proof.
  unfold Engine.CaptureSlice. intro H0.
  destruct (buf_write _ _ _ _) as [st|]; [|discriminate].
  destruct (waitingForZeroCrossing (cap e)).
  - match type of H0 with
    | (if ?b then _ else _) = _ => destruct b
    end.
    + apply finalize_slice_frame in H0. exact H0.
    + inversion H0; subst; simpl; repeat split; reflexivity.
  - repeat split_match H0; inversion H0; subst; simpl; repeat split; reflexivity.
Qed.

End Frames.

(** [CustomBitCrush] never touches the slice store, the cursors, the random
    source or the smoothed length. *)
Lemma CustomBitCrush_frame `{DaisySP} nf x a e y e' :
  CustomBitCrush nf x a e = Some (y, e') ->
  store e' = store e /\ cap e' = cap e /\ play e' = play e /\
  rng e' = rng e /\
  slice_length_samples_smooth e' = slice_length_samples_smooth e.
Proof.
  unfold CustomBitCrush. intro H0.
  repeat split_match H0; inversion H0; subst; simpl; repeat split; reflexivity.
Qed.

(** ** Bypass *)

(** Claim C10, as stated, fails: the loop body smooths
    [slice_length_samples_smooth] toward its target before it looks at
    [bypass], so a bypassed sample does change the engine state. *)
Lemma bypass_moves_smoothed_length :
  ~ (forall (c : controls) (x : F32.float) (e : @engine passthrough_dsp),
        bypass c = true ->
        FluxAudio.process_sample c x e = Some (x, x, e)).
Proof.
  intro Hall.
  pose (c := bench_controls 4 24000 true false).
  pose (e := bench_engine).
  specialize (Hall c F32.zero e eq_refl).
  apply (f_equal (fun o => match o with
                           | Some (_, _, e') => slice_length_samples_smooth e'
                           | None => F32.zero
                           end)) in Hall.
  vm_compute in Hall. discriminate Hall.
Qed.

(** Claim C10, amended.  Under bypass every sample is written unchanged to
    both output channels, and slice buffers, slice lengths, capture cursor,
    playback cursor, stutter state, random source, rate-reduction state and
    DaisySP objects are exactly what they were; the one field that moves is
    the smoothed slice length, which takes one more one-pole step toward
    [slice_length_samples]. *)
Theorem bypass_passthrough :
  forall (D : DaisySP) (c : controls) (x : F32.float) (e : engine),
    bypass c = true ->
    exists e',
      FluxAudio.process_sample c x e = Some (x, x, e') /\
      store e' = store e /\ cap e' = cap e /\ play e' = play e /\
      rng e' = rng e /\
      bitcrush_hold_sample e' = bitcrush_hold_sample e /\
      bitcrush_sample_counter e' = bitcrush_sample_counter e /\
      dsp e' = dsp e /\
      slice_length_samples_smooth e'
      = fonepole (slice_length_samples_smooth e)
          (F32.of_int (slice_length_samples c)) (F32.lit 2 4).
Proof.
  intros D c x e Hb. eexists. split.
  - unfold FluxAudio.process_sample. rewrite Hb. simpl. reflexivity.
  - simpl. repeat split; reflexivity.
Qed.

Lemma bypass_passthrough_witness :
  exists e',
    FluxAudio.process_sample (bench_controls 4 24000 true false)
      F32.one bench_engine = Some (F32.one, F32.one, e') /\
    store e' = store bench_engine /\ cap e' = cap bench_engine /\
    play e' = play bench_engine /\ rng e' = rng bench_engine /\
    bitcrush_hold_sample e' = bitcrush_hold_sample bench_engine /\
    bitcrush_sample_counter e' = bitcrush_sample_counter bench_engine /\
    dsp e' = dsp bench_engine /\
    slice_length_samples_smooth e'
    = fonepole (slice_length_samples_smooth bench_engine)
        (F32.of_int 24000) (F32.lit 2 4).
Proof.
  apply (bypass_passthrough passthrough_dsp
           (bench_controls 4 24000 true false) F32.one bench_engine).
  reflexivity.
Defined.

(** ** Read/write conflict *)

(** Claim C1 fails on the code.  With one active slice, the engine run
    from power-on over a square wave finalizes slice 0 at sample 17525 and
    goes on capturing into slice 0; from then on every call of
    [PlaybackSlice] takes the conflict branch, gets slice 0 again from
    [GetNextSlice] ((0 + 1) % 1) and reads from the slice under capture. *)
Lemma single_slice_reads_capture_slice :
  exists e x i o e',
    run_blocks FluxAudio.process_sample
      [(bench_controls 1 17524 false false, square_wave (Z.to_nat 8763))] bench_engine
    = Some e /\
    FluxAudio.PlaybackSlice (bench_controls 1 17524 false false) e
    = Some (x, Some (i, o), e') /\
    i = currentCaptureSlice (cap e).
Proof.
  assert (C : match run_blocks FluxAudio.process_sample
                      [(bench_controls 1 17524 false false, square_wave (Z.to_nat 8763))]
                      bench_engine with
              | Some e => reads_capture_slice Flux.policy
                            (bench_controls 1 17524 false false) e
              | None => false
              end = true) by (vm_compute; reflexivity).
  destruct (run_blocks _ _ _) as [e|]; [|discriminate C].
  unfold reads_capture_slice in C.
  destruct (Engine.PlaybackSlice _ _ e) as [[[x [[i o]|]] e']|] eqn:EP;
    try discriminate C.
  exists e, x, i, o, e'.
  split; [reflexivity | split; [exact EP | apply Z.eqb_eq; exact C]].
Qed.

(** ** The one-pole smoother never reaches 24000 *)

Module SmoothFacts.
Import F32 F32Facts Smooth.

Lemma good_coeff : good smooth_coeff.
Proof. split; reflexivity. Qed.

Lemma pow2K_pos : 0 < 2 ^ K.
Proof. apply pow2_pos. unfold K. lia. Qed.

Lemma rvs_U : rvs U = U.
Proof. apply (rvs_exact_small 24000). reflexivity. Qed.

Lemma rvs_nonneg V : 0 <= V -> 0 <= rvs V.
Proof. intro. change 0 with (rvs 0) at 1. apply rvs_mono. assumption. Qed.

Lemma good_lt_U x : good x -> FV x < U -> FV x <= U - 2 ^ (K - 9).
Proof.
  intros G Hlt. destruct (Z_le_gt_dec (FV x) (2 ^ (14 + K))) as [Hs|Hb].
  - assert (2 ^ (14 + K) <= U - 2 ^ (K - 9)) by (vm_compute; discriminate).
    lia.
  - destruct G as [Hv Hf].
    destruct x as [s|s| |s m e]; try discriminate;
      try (assert (0 < 2 ^ (14 + K)) by (apply pow2_pos; unfold K; lia);
           cbn [FV] in Hb; lia).
    simpl in Hv. pose proof (bounded_facts m e Hv) as (He & Hd & Hn).
    pose proof (FV_pos_finite m e Hv) as Pm.
    assert (0 < 2 ^ (14 + K)) by (apply pow2_pos; unfold K; lia).
    rewrite FV_finite in *. destruct s; unfold sgn in *; [lia|].
    assert (HU : U < 2 ^ (15 + K)) by (vm_compute; reflexivity).
    assert (Hdig : dig (Zpos m * 2 ^ (e + K)) = 15 + K).
    { apply dig_unique; [lia | unfold K; lia |].
      replace (15 + K - 1) with (14 + K) by lia. lia. }
    rewrite dig_shift in Hdig by (unfold K; lia).
    apply bounded_iff in Hv.
    assert (T : dig (Zpos m) + e = 15) by lia.
    assert (He9 : e = -9) by (clear - Hv T; lia). subst e.
    replace (-9 + K) with (K - 9) in * by lia.
    assert (EU : U = 12288000 * 2 ^ (K - 9)) by (vm_compute; reflexivity).
    pose proof (pow2_pos (K - 9) ltac:(unfold K; lia)).
    rewrite EU in *.
    assert (Hm : Zpos m < 12288000).
    { destruct (Z_lt_le_dec (Zpos m) 12288000) as [|Hge]; [assumption|].
      assert (12288000 * 2 ^ (K - 9) <= Zpos m * 2 ^ (K - 9))
        by (apply Z.mul_le_mono_nonneg_r; lia).
      lia. }
    assert (Zpos m * 2 ^ (K - 9) <= 12287999 * 2 ^ (K - 9))
      by (apply Z.mul_le_mono_nonneg_r; lia).
    lia.
Qed.

Lemma mul_bound_hi c W d D :
  0 <= c -> W * 2 ^ K = c * d -> d <= D * 2 ^ K -> W <= c * D.
Proof.
  intros Hc EW Hd. pose proof pow2K_pos.
  apply (Z.mul_le_mono_pos_r _ _ (2 ^ K)); [assumption|].
  rewrite EW. replace (c * D * 2 ^ K) with (c * (D * 2 ^ K)) by ring.
  apply Z.mul_le_mono_nonneg_l; assumption.
Qed.

Lemma mul_bound_lo c W d o :
  0 <= c <= 2 ^ K -> W * 2 ^ K = c * d -> - o <= d -> 0 <= o -> - o <= W.
Proof.
  intros Hc EW Hd Ho. pose proof pow2K_pos.
  apply (Z.mul_le_mono_pos_r _ _ (2 ^ K)); [assumption|].
  rewrite EW.
  assert (c * - o <= c * d) by (apply Z.mul_le_mono_nonneg_l; lia).
  assert (c * o <= 2 ^ K * o) by (apply Z.mul_le_mono_nonneg_r; lia).
  lia.
Qed.


Lemma consts :
  2 * U < BIG /\ 0 < CF < 2 ^ K /\ 0 < B1 < B2 /\ B2 < P3 < U /\
  rvs (U - B1) = 10 * 2 ^ K /\ rvs (U - B2) <= 1 * 2 ^ K /\
  rvs (B1 + rvs (CF * 24000)) < U /\
  rvs (B2 + rvs (CF * 10)) < U /\
  rvs (P3 + rvs (CF * 1)) < U.
Proof. vm_compute. repeat split; congruence. Qed.

Lemma fonepole_ok out n :
  smooth_ok out -> 1 <= n <= 24000 ->
  smooth_ok (fonepole out (of_int n) smooth_coeff).
Proof.
  intros [G [H0 HU]] Hn.
  pose proof pow2K_pos as PK.
  destruct consts as (HBIG & HCF & HB1 & HB2 & E2 & E3 & C1 & C2 & C3).
  fold BIG in *.
  (* the target *)
  destruct (of_int_spec n) as [Gt Vt].
  { assert (24000 < 2 ^ 24) by reflexivity. lia. }
  fold (of_int n) in Gt, Vt.
  assert (Ht : 0 <= FV (of_int n) <= U).
  { rewrite Vt. unfold U. split; [nia|].
    apply Z.mul_le_mono_nonneg_r; lia. }
  (* d = in - out *)
  unfold fonepole, sub, mul, add.
  destruct (SFsub_spec (of_int n) out Gt G) as [Gd Vd].
  { fold BIG. lia. }
  set (d := SFsub prec emax (of_int n) out) in *.
  assert (Ld : - FV out <= FV d).
  { rewrite Vd, <- (rvs_fix out G) at 1. rewrite <- rvs_opp.
    apply rvs_mono. lia. }
  assert (Ud : FV d <= rvs (U - FV out)) by (rewrite Vd; apply rvs_mono; lia).
  assert (Ud' : FV d <= U).
  { rewrite <- rvs_U. etransitivity; [exact Ud|]. apply rvs_mono. lia. }
  (* p = coeff * d *)
  destruct (SFmul_spec smooth_coeff d good_coeff Gd) as [Gp [W [EW Vp]]].
  { fold CF. fold BIG.
    assert (Z.abs (CF * FV d) <= 2 ^ K * U).
    { rewrite Z.abs_mul. apply Z.mul_le_mono_nonneg; lia. }
    assert (2 ^ K * U < BIG * 2 ^ K) by nia. lia. }
  fold CF in EW.
  set (p := SFmul prec emax smooth_coeff d) in *.
  assert (LW : - FV out <= W)
    by (apply (mul_bound_lo CF W (FV d) (FV out)); lia).
  assert (UW : W <= U).
  { assert (W <= CF * 24000)
      by (apply (mul_bound_hi CF W (FV d) 24000); fold U; lia).
    unfold U. lia. }
  assert (Lp : - FV out <= FV p).
  { rewrite Vp, <- (rvs_fix out G) at 1. rewrite <- rvs_opp.
    apply rvs_mono. exact LW. }
  assert (Up : FV p <= U).
  { rewrite Vp, <- rvs_U. apply rvs_mono. exact UW. }
  (* r = out + p *)
  destruct (SFadd_spec out p G Gp) as [Gr Vr].
  { fold BIG. lia. }
  split; [exact Gr|]. rewrite Vr. split.
  - apply rvs_nonneg. lia.
  - destruct (Z_le_gt_dec (FV out) B1) as [I1|I1];
      [|destruct (Z_le_gt_dec (FV out) B2) as [I2|I2]].
    + (* far from the target *)
      assert (W <= CF * 24000)
        by (apply (mul_bound_hi CF W (FV d) 24000); fold U; lia).
      assert (FV p <= rvs (CF * 24000)) by (rewrite Vp; apply rvs_mono; lia).
      eapply Z.le_lt_trans; [|exact C1]. apply rvs_mono. lia.
    + (* within ten samples of it *)
      assert (FV d <= 10 * 2 ^ K).
      { rewrite <- E2. etransitivity; [exact Ud|]. apply rvs_mono. lia. }
      assert (W <= CF * 10)
        by (apply (mul_bound_hi CF W (FV d) 10); lia).
      assert (FV p <= rvs (CF * 10)) by (rewrite Vp; apply rvs_mono; lia).
      eapply Z.le_lt_trans; [|exact C2]. apply rvs_mono. lia.
    + (* the last float below it *)
      pose proof (good_lt_U out G HU) as HP3. fold P3 in HP3.
      assert (FV d <= 1 * 2 ^ K).
      { etransitivity; [exact Ud|]. etransitivity; [|exact E3].
        apply rvs_mono. lia. }
      assert (W <= CF * 1)
        by (apply (mul_bound_hi CF W (FV d) 1); lia).
      assert (FV p <= rvs (CF * 1)) by (rewrite Vp; apply rvs_mono; lia).
      eapply Z.le_lt_trans; [|exact C3]. apply rvs_mono. lia.
Qed.

End SmoothFacts.

Import F32Facts Smooth SmoothFacts.

(** ** The engine keeps its invariants *)

Lemma to_int_smooth x :
  smooth_ok x -> exists t, F32.to_int x = Some t /\ 0 <= t <= 23999.
Proof.
  intros [G [H0 HU]]. pose proof pow2K_pos as PK.
  pose proof (trunc_nonneg x G H0) as Et.
  assert (Ht : 0 <= F32.trunc x < 24000).
  { rewrite Et. split.
    - apply Z.div_pos; lia.
    - apply Z.div_lt_upper_bound; [lia|]. unfold U in HU. lia. }
  exists (F32.trunc x). split; [|lia].
  unfold F32.to_int. rewrite (proj2 G).
  replace (F32.INT_MIN <=? F32.trunc x) with true
    by (symmetry; apply Z.leb_le; unfold F32.INT_MIN; lia).
  replace (F32.trunc x <=? F32.INT_MAX) with true
    by (symmetry; apply Z.leb_le; unfold F32.INT_MAX; lia).
  reflexivity.
Qed.

Lemma rand_nonneg g : 0 <= fst (rand g).
Proof. unfold rand. simpl. lia. Qed.

(** *** [int] operations inside their range *)

Lemma int_of_ok z : F32.INT_MIN <= z <= F32.INT_MAX -> int_of z = Some z.
Proof.
  intro Hz. unfold int_of.
  replace (F32.INT_MIN <=? z) with true by (symmetry; apply Z.leb_le; lia).
  replace (z <=? F32.INT_MAX) with true by (symmetry; apply Z.leb_le; lia).
  reflexivity.
Qed.

Lemma int_rem_ok a b : 0 <= a -> 1 <= b -> int_rem a b = Some (Z.rem a b).
Proof.
  intros Ha Hb. unfold int_rem.
  replace (b =? 0) with false by (symmetry; apply Z.eqb_neq; lia).
  replace (a =? F32.INT_MIN) with false
    by (symmetry; apply Z.eqb_neq; unfold F32.INT_MIN; lia).
  reflexivity.
Qed.

(** Where no [int] sum overflows, [GetNextSlice] of [flux_main.cpp] is the
    same computation on integers. *)
Lemma Flux_GetNextSlice_eq current sliceCount k6_value mode g :
  0 <= current -> 1 <= sliceCount -> current + sliceCount <= F32.INT_MAX ->
  Flux.GetNextSlice current sliceCount k6_value mode g
  = (let '(random_val, g) := Flux.random_unit g in
     let '(nextSlice, g) :=
       if F32.ltb random_val k6_value then
         let '(r, g) := rand g in (Z.rem r sliceCount, g)
       else if mode =? 0 then (Z.rem (current + 1) sliceCount, g)
       else if mode =? 1 then
         (Z.rem (current - 1 + sliceCount) sliceCount, g)
       else (Z.rem (current + 1) sliceCount, g) in
     if mode =? 2 then
       let '(r, g) := rand g in
       Some (nextSlice, Z.rem r 2 =? 0, g)
     else if mode =? 1 then Some (nextSlice, true, g)
     else Some (nextSlice, false, g)).
Proof.
  intros Hcur Hcount Hsum. unfold Flux.GetNextSlice.
  assert (Hmin : F32.INT_MIN = - 2 ^ 31) by reflexivity.
  destruct (Flux.random_unit g) as [rv g1].
  assert (Ef : (s <- int_add current 1 ;;
                nextSlice <- int_rem s sliceCount ;;
                Some (nextSlice, g1))
               = Some (Z.rem (current + 1) sliceCount, g1)).
  { unfold int_add. rewrite int_of_ok by lia.
    rewrite int_rem_ok by lia. reflexivity. }
  assert (Eb : (d <- int_sub current 1 ;;
                s <- int_add d sliceCount ;;
                nextSlice <- int_rem s sliceCount ;;
                Some (nextSlice, g1))
               = Some (Z.rem (current - 1 + sliceCount) sliceCount, g1)).
  { unfold int_sub, int_add. rewrite int_of_ok by lia.
    rewrite int_of_ok by lia. rewrite int_rem_ok by lia. reflexivity. }
  destruct (F32.ltb rv k6_value).
  - pose proof (rand_nonneg g1) as Hr. destruct (rand g1) as [r g2].
    cbn [fst] in Hr. rewrite int_rem_ok by lia. reflexivity.
  - destruct (mode =? 0); [rewrite Ef; reflexivity|].
    destruct (mode =? 1); [rewrite Eb | rewrite Ef]; reflexivity.
Qed.

Lemma Flux_policy_ok k : policy_ok Flux.policy k.
Proof.
  split.
  - intros g. cbn [CalculateRepeatCount Flux.policy].
    unfold Flux.CalculateRepeatCount.
    destruct (Flux.random_unit g) as [rv g1].
    repeat match goal with
           | |- context [if ?b then _ else _] => destruct b
           end; eauto.
  - intros cur count mode g Hcur Hcount.
    cbn [GetNextSlice Flux.policy].
    rewrite Flux_GetNextSlice_eq
      by (unfold MAX_SLICES, F32.INT_MAX in *; lia).
    destruct (Flux.random_unit g) as [rv g1].
    assert (Hnext : forall r, 0 <= r -> 0 <= Z.rem r count < MAX_SLICES).
    { intros r Hr. pose proof (Z.rem_bound_pos r count Hr). lia. }
    destruct (F32.ltb rv k).
    + pose proof (rand_nonneg g1). destruct (rand g1) as [r g2].
      simpl in H.
      destruct (mode =? 2); [destruct (rand g2) as [r3 g3]|destruct (mode =? 1)];
        do 3 eexists; (split; [reflexivity | apply Hnext; lia]).
    + destruct (mode =? 0); [|destruct (mode =? 1)];
        (destruct (mode =? 2); [destruct (rand g1) as [r3 g3]|try destruct (mode =? 1)]);
        do 3 eexists; (split; [reflexivity | apply Hnext; lia]).
Qed.

Lemma in_range_slice i : 0 <= i < MAX_SLICES -> slice_ok i = true.
Proof.
  intro Hi. unfold slice_ok. apply andb_true_intro.
  split; [apply Z.leb_le | apply Z.ltb_lt]; lia.
Qed.

Lemma in_range_offset o : 0 <= o < MAX_SLICE_LENGTH -> offset_ok o = true.
Proof.
  intro Ho. unfold offset_ok. apply andb_true_intro.
  split; [apply Z.leb_le | apply Z.ltb_lt]; lia.
Qed.

Section EngineInvariant.
Context `{DaisySP}.
Variable P : stutter_policy.

Lemma start_playback_ok c e :
  policy_ok P (knob_stutter c) ->
  capture_ok (cap e) ->
  exists p g, Engine.start_playback P c e = Some (p, g) /\ playback_ok p.
Proof.
  intros HP (Hcs & _). unfold Engine.start_playback.
  destruct (proj1 HP (rng e)) as (t & g' & ->).
  destruct (toggle_mode c =? 2);
    [destruct (rand g') as [r g0] | destruct (toggle_mode c =? 1)];
    do 2 eexists; (split; [reflexivity | exact Hcs]).
Qed.

Lemma next_capture_slice_ok c cur g :
  controls_ok c -> 0 <= cur < MAX_SLICES ->
  exists next g',
    Engine.next_capture_slice c cur g = Some (next, g') /\
    0 <= next < MAX_SLICES.
Proof.
  intros (Hcount & _) Hcur. unfold Engine.next_capture_slice.
  destruct (toggle_mode c =? 2).
  - replace (active_slice_count c =? 0) with false
      by (symmetry; apply Z.eqb_neq; lia).
    pose proof (rand_nonneg g) as Hr. destruct (rand g) as [r g0].
    simpl in Hr. do 2 eexists. split; [reflexivity|].
    pose proof (Z.rem_bound_pos r (active_slice_count c)). lia.
  - do 2 eexists. split; [reflexivity|]. cbv zeta.
    destruct (Z.geb_spec (cur + 1) (active_slice_count c));
      unfold MAX_SLICES in *; lia.
Qed.

Lemma finalize_slice_ok c e st pos :
  policy_ok P (knob_stutter c) ->
  controls_ok c ->
  lengths_ok st -> capture_ok (cap e) -> playback_ok (play e) ->
  smooth_ok (slice_length_samples_smooth e) ->
  0 <= pos <= MAX_SLICE_LENGTH ->
  exists e', Engine.finalize_slice P c e st pos = Some e' /\ engine_ok e'.
Proof.
  intros HP Hc Hl Hk Hp Hs Hpos. pose proof Hk as (Hcs & _).
  unfold Engine.finalize_slice. unfold len_set.
  rewrite (in_range_slice _ Hcs).
  set (st' := mkStore _ _).
  assert (Hl' : lengths_ok st').
  { intro i. unfold st'. simpl. destruct (i =? _); [lia | apply Hl]. }
  assert (Hplay : exists p g,
             (if negb (hasContent (play e)) then Engine.start_playback P c e
              else Some (play e, rng e)) = Some (p, g) /\ playback_ok p).
  { destruct (negb (hasContent (play e))).
    - apply start_playback_ok; [exact HP | exact Hk].
    - do 2 eexists. split; [reflexivity | exact Hp]. }
  destruct Hplay as (p & g & -> & Hp').
  destruct (next_capture_slice_ok c _ g Hc Hcs) as (next & g' & -> & Hn).
  eexists. split; [reflexivity|].
  split; [exact Hl' | split; [|split; [exact Hp' | exact Hs]]].
  unfold capture_ok, MAX_SLICE_LENGTH, MAX_SLICES in *. simpl. lia.
Qed.

Lemma CaptureSlice_ok c x e :
  policy_ok P (knob_stutter c) ->
  controls_ok c -> engine_ok e ->
  exists e', Engine.CaptureSlice P c x e = Some e' /\ engine_ok e'.
Proof.
  intros HP Hc (Hl & Hk & Hp & Hs).
  pose proof Hk as (Hcs & Hp0 & Hpw).
  unfold Engine.CaptureSlice. unfold buf_write.
  rewrite (in_range_slice _ Hcs).
  rewrite in_range_offset
    by (destruct (waitingForZeroCrossing (cap e)); lia).
  cbn [andb]. set (st := mkStore _ _).
  assert (Hl' : lengths_ok st) by exact Hl.
  destruct (waitingForZeroCrossing (cap e)) eqn:Ew.
  - match goal with
    | |- context [if ?b then Engine.finalize_slice _ _ _ _ _ else _] =>
        destruct b eqn:Ef
    end.
    + apply finalize_slice_ok; try assumption. lia.
    + eexists. split; [reflexivity|].
      assert (capturePosition (cap e) + 1 < MAX_SLICE_LENGTH - 1).
      { destruct (_ && _); [discriminate|].
        destruct (_ >=? MAX_ZERO_SEARCH); [discriminate|].
        destruct (Z.geb_spec (capturePosition (cap e) + 1)
                    (MAX_SLICE_LENGTH - 1)); [discriminate | lia]. }
      split; [exact Hl' | split; [|split; [exact Hp | exact Hs]]].
      unfold capture_ok, MAX_SLICE_LENGTH, MAX_SLICES in *. simpl. lia.
  - destruct (to_int_smooth _ Hs) as (t & -> & Ht).
    destruct (Z.geb_spec (capturePosition (cap e) + 1) t);
      (eexists; split; [reflexivity|]);
      (split; [exact Hl' | split; [|split; [exact Hp | exact Hs]]]);
      unfold capture_ok, MAX_SLICE_LENGTH, MAX_SLICES in *; simpl; lia.
Qed.

Lemma resolve_conflict_ok c e :
  policy_ok P (knob_stutter c) ->
  controls_ok c -> playback_ok (play e) ->
  exists p g, Engine.resolve_conflict P c e = Some (p, g) /\ playback_ok p.
Proof.
  intros HP (Hcount & _) Hp. unfold Engine.resolve_conflict. cbv zeta.
  destruct (_ =? _).
  - destruct (proj2 HP (currentPlaybackSlice (play e)) (active_slice_count c)
                (toggle_mode c) (rng e))
      as (next & rev & g & -> & Hn); [apply Hp | exact Hcount |].
    destruct (proj1 HP g) as (t & g' & ->).
    do 2 eexists. split; [reflexivity|].
    unfold playback_ok. simpl. exact Hn.
  - do 2 eexists. split; [reflexivity | exact Hp].
Qed.

Lemma advance_playback_ok c e p g len :
  policy_ok P (knob_stutter c) ->
  controls_ok c -> capture_ok (cap e) -> playback_ok p ->
  exists p' g',
    Engine.advance_playback P c e p g len = Some (p', g') /\ playback_ok p'.
Proof.
  intros HP (Hcount & _) Hk Hp. unfold Engine.advance_playback.
  destruct (_ >=? len); [|do 2 eexists; split; [reflexivity | exact Hp]].
  destruct (_ >=? targetRepeats p);
    [|do 2 eexists; split; [reflexivity | exact Hp]].
  destruct (proj2 HP (currentPlaybackSlice p) (active_slice_count c)
              (toggle_mode c) g)
    as (n1 & rev1 & g1 & -> & Hn1); [apply Hp | exact Hcount |].
  assert (Hsecond : exists n2 rev2 g2,
             (if n1 =? currentCaptureSlice (cap e)
              then GetNextSlice P n1 (active_slice_count c) (knob_stutter c)
                     (toggle_mode c) g1
              else Some (n1, rev1, g1)) = Some (n2, rev2, g2) /\
             0 <= n2 < MAX_SLICES).
  { destruct (n1 =? _).
    - apply (proj2 HP); [exact Hn1 | exact Hcount].
    - do 3 eexists. split; [reflexivity | exact Hn1]. }
  destruct Hsecond as (n2 & rev2 & g2 & -> & Hn2).
  unfold len_get. rewrite in_range_slice by exact Hn2.
  destruct (proj1 HP g2) as (t & g3 & ->).
  do 2 eexists. split; [reflexivity|].
  unfold playback_ok, MAX_SLICES in *. simpl.
  destruct (_ >? 0); lia.
Qed.

(** The two range checks of [PlaybackSlice] leave an offset that is zero
    or inside the slice, whatever the cursor. *)
Lemma read_position_clamped p len :
  Engine.read_position p len = 0 \/ 0 <= Engine.read_position p len < len.
Proof.
  unfold Engine.read_position. cbv zeta.
  match goal with
  | |- context [if (?r <? 0) || (?r >=? len) then _ else _] =>
      destruct (Z.ltb_spec r 0); destruct (Z.geb_spec r len); simpl
  end; lia.
Qed.

Lemma PlaybackSlice_ok c e :
  policy_ok P (knob_stutter c) ->
  controls_ok c -> engine_ok e ->
  exists out rd e',
    Engine.PlaybackSlice P c e = Some (out, rd, e') /\ engine_ok e' /\
    forall i o, rd = Some (i, o) ->
                0 <= i < MAX_SLICES /\ 0 <= o < sliceLengths (store e) i /\
                sliceLengths (store e) i <= MAX_SLICE_LENGTH.
Proof.
  intros HP Hc (Hl & Hk & Hp & Hs). unfold Engine.PlaybackSlice.
  destruct (negb _).
  { do 3 eexists. split; [reflexivity|].
    split; [exact (conj Hl (conj Hk (conj Hp Hs))) | discriminate]. }
  destruct (resolve_conflict_ok c e HP Hc Hp) as (p1 & g & -> & Hp1).
  unfold len_get. rewrite (in_range_slice _ Hp1).
  set (len := sliceLengths (store e) (currentPlaybackSlice p1)).
  pose proof (Hl (currentPlaybackSlice p1)) as Hlen. fold len in Hlen.
  destruct (Z.eqb_spec len 0) as [|Hne].
  { do 3 eexists. split; [reflexivity|].
    split; [exact (conj Hl (conj Hk (conj Hp1 Hs))) | discriminate]. }
  destruct (read_position_clamped p1 len) as [E0|Hr].
  - rewrite E0. unfold buf_read. rewrite (in_range_slice _ Hp1).
    rewrite in_range_offset by (unfold MAX_SLICE_LENGTH; lia). cbn [andb].
    match goal with
    | |- context [Engine.advance_playback P c e ?p2 g len] =>
        destruct (advance_playback_ok c e p2 g len HP Hc Hk Hp1)
          as (p3 & g3 & -> & Hp3)
    end.
    do 3 eexists. split; [reflexivity|].
    split; [exact (conj Hl (conj Hk (conj Hp3 Hs)))|].
    intros i o E. inversion E; subst. fold len.
    unfold playback_ok in Hp1. lia.
  - unfold buf_read. rewrite (in_range_slice _ Hp1).
    rewrite in_range_offset by lia. cbn [andb].
    match goal with
    | |- context [Engine.advance_playback P c e ?p2 g len] =>
        destruct (advance_playback_ok c e p2 g len HP Hc Hk Hp1)
          as (p3 & g3 & -> & Hp3)
    end.
    do 3 eexists. split; [reflexivity|].
    split; [exact (conj Hl (conj Hk (conj Hp3 Hs)))|].
    intros i o E. inversion E; subst. fold len.
    unfold playback_ok in Hp1. lia.
Qed.

End EngineInvariant.

Lemma to_int_bounded x B :
  F32.good x -> 0 <= F32.FV x <= B * 2 ^ F32.K -> B < 2 ^ 31 ->
  exists t, F32.to_int x = Some t /\ 0 <= t <= B /\ t = F32.FV x / 2 ^ F32.K.
Proof.
  intros G [H0 HB] HBr. pose proof pow2K_pos as PK.
  pose proof (trunc_nonneg x G H0) as Et.
  assert (Ht : 0 <= F32.trunc x <= B).
  { rewrite Et. split.
    - apply Z.div_pos; lia.
    - apply Z.div_le_upper_bound; lia. }
  exists (F32.trunc x). split; [|split; [lia | exact Et]].
  unfold F32.to_int. rewrite (proj2 G).
  replace (F32.INT_MIN <=? F32.trunc x) with true
    by (symmetry; apply Z.leb_le; unfold F32.INT_MIN; lia).
  replace (F32.trunc x <=? F32.INT_MAX) with true
    by (symmetry; apply Z.leb_le; unfold F32.INT_MAX; lia).
  reflexivity.
Qed.

(** A knob value times a small non-negative constant. *)
Lemma mul_knob_bounded a k B :
  knob01 a -> F32.good k -> 0 <= F32.FV k <= B * 2 ^ F32.K ->
  0 <= B < 2 ^ 24 ->
  F32.good (F32.mul a k) /\ 0 <= F32.FV (F32.mul a k) <= B * 2 ^ F32.K.
Proof.
  intros [Ga [Ha0 Ha1]] Gk [Hk0 Hk1] HB. pose proof pow2K_pos as PK.
  assert (HBIG : 2 ^ 24 * 2 ^ F32.K < 2 ^ (127 + F32.K)) by reflexivity.
  destruct (SFmul_spec a k Ga Gk) as [Gm [W [EW Vm]]].
  { rewrite Z.abs_eq by (apply Z.mul_nonneg_nonneg; lia).
    assert (F32.FV a * F32.FV k <= 2 ^ F32.K * (B * 2 ^ F32.K))
      by (apply Z.mul_le_mono_nonneg; lia).
    assert (B * 2 ^ F32.K <= 2 ^ 24 * 2 ^ F32.K)
      by (apply Z.mul_le_mono_nonneg_r; lia).
    assert (2 ^ F32.K * (B * 2 ^ F32.K)
            <= 2 ^ F32.K * (2 ^ 24 * 2 ^ F32.K))
      by (apply Z.mul_le_mono_nonneg_l; lia).
    assert (2 ^ F32.K * (2 ^ 24 * 2 ^ F32.K)
            < 2 ^ F32.K * 2 ^ (127 + F32.K))
      by (apply Z.mul_lt_mono_pos_l; lia).
    lia. }
  split; [exact Gm|]. unfold F32.mul. rewrite Vm.
  assert (HW0 : 0 <= W).
  { apply (Z.mul_le_mono_pos_r _ _ (2 ^ F32.K)); [lia|]. rewrite EW.
    rewrite Z.mul_0_l. apply Z.mul_nonneg_nonneg; lia. }
  assert (HW1 : W <= B * 2 ^ F32.K).
  { apply (Z.mul_le_mono_pos_r _ _ (2 ^ F32.K)); [lia|]. rewrite EW.
    replace (B * 2 ^ F32.K * 2 ^ F32.K) with (2 ^ F32.K * (B * 2 ^ F32.K))
      by ring.
    apply Z.mul_le_mono_nonneg; lia. }
  split.
  - apply rvs_nonneg, HW0.
  - rewrite <- (rvs_exact_small B) by lia. apply rvs_mono, HW1.
Qed.

Lemma knob01_one_bound a : knob01 a -> 0 <= F32.FV a <= 1 * 2 ^ F32.K.
Proof. intros [_ Hb]. lia. Qed.

Lemma CustomBitCrush_defined `{DaisySP} nf x a e :
  knob01 a -> exists y e', CustomBitCrush nf x a e = Some (y, e').
Proof.
  intro Ka. unfold CustomBitCrush. pose proof pow2K_pos as PK.
  destruct (F32.leb a F32.zero); [do 2 eexists; reflexivity|].
  destruct (mul_knob_bounded a a 1 Ka (proj1 Ka) (knob01_one_bound a Ka)
              ltac:(lia)) as [Gaa Haa].
  assert (Kaa : knob01 (F32.mul a a)) by (split; [exact Gaa | lia]).
  destruct (of_int_spec 31 ltac:(reflexivity)) as [G31 V31].
  fold (F32.of_int 31) in G31, V31.
  destruct (mul_knob_bounded (F32.mul a a) (F32.of_int 31) 31 Kaa G31)
    as [Gp Hp]; [rewrite V31; lia | lia |].
  destruct (to_int_bounded _ 31 Gp Hp ltac:(reflexivity)) as (t & -> & _).
  destruct (_ >=? _); destruct (lofi_filter_Process _ _);
    do 2 eexists; reflexivity.
Qed.

Section FluxRuns.
Context `{DaisySP}.

Lemma engine_ok_frame (e e' : engine) :
  store e' = store e -> cap e' = cap e -> play e' = play e ->
  slice_length_samples_smooth e' = slice_length_samples_smooth e ->
  engine_ok e -> engine_ok e'.
Proof. unfold engine_ok. intros -> -> -> ->. exact (fun H => H). Qed.

Lemma process_sample_ok c x e :
  controls_ok c -> engine_ok e ->
  exists l r e',
    FluxAudio.process_sample c x e = Some (l, r, e') /\ engine_ok e'.
Proof.
  intros Hc (Hl & Hk & Hp & Hs). unfold FluxAudio.process_sample.
  set (e1 := set_smooth e _).
  assert (H1 : engine_ok e1).
  { split; [exact Hl | split; [exact Hk | split; [exact Hp|]]].
    apply fonepole_ok; [exact Hs | apply Hc]. }
  destruct (negb (bypass c)); [|do 3 eexists; split; [reflexivity | exact H1]].
  destruct (CustomBitCrush_defined (F32.lit 8 1) x (lofi_bitcrush c) e1
              (proj2 (proj2 Hc))) as (y & e2 & Ec).
  rewrite Ec. apply CustomBitCrush_frame in Ec.
  destruct Ec as (Es & Ek & Ep & _ & Esm).
  pose proof (engine_ok_frame e1 e2 Es Ek Ep Esm H1) as H2.
  destruct (PlaybackSlice_ok Flux.policy c e2 (Flux_policy_ok _) Hc H2)
    as (wet & rd & e3 & Epl & H3 & _).
  unfold FluxAudio.PlaybackSlice. rewrite Epl.
  destruct (CaptureSlice_ok Flux.policy c
              (F32.add y (F32.mul wet (feedback_amount c))) e3
              (Flux_policy_ok _) Hc H3)
    as (e4 & Eca & H4).
  unfold FluxAudio.CaptureSlice. rewrite Eca.
  destruct (mix_Process _ _ _) as [o d].
  do 3 eexists. split; [reflexivity|]. exact H4.
Qed.

Lemma process_block_ok c ins : forall e,
  controls_ok c -> engine_ok e ->
  exists outs e',
    process_block FluxAudio.process_sample c ins e = Some (outs, e') /\
    engine_ok e'.
Proof.
  induction ins as [|x ins IH]; intros e Hc He; simpl.
  - do 2 eexists. split; [reflexivity | exact He].
  - destruct (process_sample_ok c x e Hc He) as (l & r & e1 & -> & H1).
    destruct (IH e1 Hc H1) as (outs & e2 & -> & H2).
    do 2 eexists. split; [reflexivity | exact H2].
Qed.

Lemma run_blocks_ok bs : forall e,
  Forall (fun b => controls_ok (fst b)) bs -> engine_ok e ->
  exists e',
    run_blocks FluxAudio.process_sample bs e = Some e' /\ engine_ok e'.
Proof.
  induction bs as [|[c ins] bs IH]; intros e Hbs He; simpl.
  - eexists. split; [reflexivity | exact He].
  - inversion Hbs as [|b bs' Hc Hbs']; subst. simpl in Hc.
    destruct (process_block_ok c ins e Hc He) as (outs & e1 & -> & H1).
    exact (IH e1 Hbs' H1).
Qed.

Lemma power_on_ok n0 g d :
  1 <= n0 < MAX_SLICE_LENGTH -> engine_ok (power_on n0 g d).
Proof.
  intro Hn. unfold MAX_SLICE_LENGTH in Hn.
  split; [|split; [|split]].
  - intro i. simpl. unfold MAX_SLICE_LENGTH. lia.
  - unfold capture_ok, MAX_SLICES, MAX_SLICE_LENGTH. simpl. lia.
  - unfold playback_ok, MAX_SLICES. simpl. lia.
  - simpl. destruct (of_int_spec n0) as [G V].
    { assert (24000 < 2 ^ 24) by reflexivity. lia. }
    split; [exact G|]. unfold F32.of_int. rewrite V.
    pose proof pow2K_pos. unfold U. split; [nia|].
    apply Z.mul_lt_mono_pos_r; lia.
Qed.

End FluxRuns.

(** A knob value scales a non-negative constant down, never up. *)
Lemma mul_knob_le a k B :
  knob01 a -> F32.good k -> 0 <= F32.FV k <= B * 2 ^ F32.K ->
  0 <= B < 2 ^ 24 ->
  F32.good (F32.mul a k) /\ 0 <= F32.FV (F32.mul a k) <= F32.FV k.
Proof.
  intros [Ga [Ha0 Ha1]] Gk [Hk0 Hk1] HB. pose proof pow2K_pos as PK.
  assert (HBIG : 2 ^ 24 * 2 ^ F32.K < 2 ^ (127 + F32.K)) by reflexivity.
  destruct (SFmul_spec a k Ga Gk) as [Gm [W [EW Vm]]].
  { rewrite Z.abs_eq by (apply Z.mul_nonneg_nonneg; lia).
    assert (F32.FV a * F32.FV k <= 2 ^ F32.K * (B * 2 ^ F32.K))
      by (apply Z.mul_le_mono_nonneg; lia).
    assert (B * 2 ^ F32.K <= 2 ^ 24 * 2 ^ F32.K)
      by (apply Z.mul_le_mono_nonneg_r; lia).
    assert (2 ^ F32.K * (B * 2 ^ F32.K)
            <= 2 ^ F32.K * (2 ^ 24 * 2 ^ F32.K))
      by (apply Z.mul_le_mono_nonneg_l; lia).
    assert (2 ^ F32.K * (2 ^ 24 * 2 ^ F32.K)
            < 2 ^ F32.K * 2 ^ (127 + F32.K))
      by (apply Z.mul_lt_mono_pos_l; lia).
    lia. }
  split; [exact Gm|]. unfold F32.mul. rewrite Vm.
  assert (HW0 : 0 <= W).
  { apply (Z.mul_le_mono_pos_r _ _ (2 ^ F32.K)); [lia|]. rewrite EW.
    rewrite Z.mul_0_l. apply Z.mul_nonneg_nonneg; lia. }
  assert (HW1 : W <= F32.FV k).
  { apply (Z.mul_le_mono_pos_r _ _ (2 ^ F32.K)); [lia|]. rewrite EW.
    rewrite (Z.mul_comm (F32.FV k)).
    apply Z.mul_le_mono_nonneg_r; lia. }
  split.
  - apply rvs_nonneg, HW0.
  - rewrite <- (rvs_fix k Gk). apply rvs_mono, HW1.
Qed.

Lemma to_int_le x V :
  F32.good x -> 0 <= F32.FV x <= V -> V / 2 ^ F32.K < 2 ^ 31 ->
  F32.to_int x = Some (F32.trunc x) /\ 0 <= F32.trunc x <= V / 2 ^ F32.K.
Proof.
  intros G [H0 HV] HVr. pose proof pow2K_pos as PK.
  pose proof (trunc_nonneg x G H0) as Et.
  assert (Ht : 0 <= F32.trunc x <= V / 2 ^ F32.K).
  { rewrite Et. split.
    - apply Z.div_pos; lia.
    - apply Z.div_le_mono; lia. }
  split; [|exact Ht].
  unfold F32.to_int. rewrite (proj2 G).
  replace (F32.INT_MIN <=? F32.trunc x) with true
    by (symmetry; apply Z.leb_le; unfold F32.INT_MIN; lia).
  replace (F32.trunc x <=? F32.INT_MAX) with true
    by (symmetry; apply Z.leb_le; unfold F32.INT_MAX; lia).
  reflexivity.
Qed.

Lemma good_one : F32.good F32.one /\ F32.FV F32.one = 2 ^ F32.K.
Proof. split; [split|]; reflexivity. Qed.

(** [0 <= c] and [c <= 1], as the firmware would test them, make [c] a
    knob value. *)
Lemma knob01_of_leb c :
  valid_binary F32.prec F32.emax c = true ->
  F32.leb F32.zero c = true -> F32.leb c F32.one = true -> knob01 c.
Proof.
  intros Hv H0 H1.
  assert (G : F32.good c).
  { split; [exact Hv|].
    destruct c as [s|s| |s m e]; try reflexivity.
    - destruct s; discriminate.
    - discriminate. }
  split; [exact G|].
  unfold F32.leb in *.
  rewrite (SFleb_FV F32.zero c (good_zero false) G) in H0.
  rewrite (SFleb_FV c F32.one G (proj1 good_one)) in H1.
  rewrite (proj2 good_one) in H1.
  apply Z.leb_le in H0, H1. change (F32.FV F32.zero) with 0 in H0. lia.
Qed.

(** The two clamps of [ProcessParameters] establish the first two parts of
    [controls_ok]. *)
Lemma clamp_slice_count_range n :
  1 <= FluxControl.clamp_slice_count n <= MAX_SLICES.
Proof.
  unfold FluxControl.clamp_slice_count, MAX_SLICES.
  destruct (n <? 1) eqn:A.
  - simpl. lia.
  - apply Z.ltb_ge in A. destruct (n >? 16) eqn:B; [lia|].
    rewrite Z.gtb_ltb in B. apply Z.ltb_ge in B. lia.
Qed.

Lemma slice_length_samples_of_ms_range ms n :
  FluxControl.slice_length_samples_of_ms ms = Some n ->
  1 <= n <= MAX_SLICE_LENGTH.
Proof.
  unfold FluxControl.slice_length_samples_of_ms, MAX_SLICE_LENGTH.
  destruct (F32.to_int _) as [t|]; [|discriminate].
  intros E. injection E as <-.
  destruct (t <? 1) eqn:A.
  - simpl. lia.
  - apply Z.ltb_ge in A. destruct (t >? 24000) eqn:B; [lia|].
    rewrite Z.gtb_ltb in B. apply Z.ltb_ge in B. lia.
Qed.

(** Claim C5 fails on the code: with the slice-count knob at 0.5 the cast
    truncates 7.9995 to 7 and the count is 8, where rounding gives 9. *)
Lemma slice_count_at_half_is_truncated :
  FluxControl.slice_count_of_knob (F32.lit 5 1) = Some 8 /\
  FluxControl.spec_slice_count (F32.lit 5 1) = 9.
Proof. split; vm_compute; reflexivity. Qed.

(** Claim C5, amended: for every binary32 control value c in [0,1] the
    active slice count is defined and equals the single-precision product
    c * 15.999f truncated toward zero, plus one; it lies in [1, 16], so
    neither clamp ever fires. *)
Theorem slice_count_truncates (c : F32.float) :
  valid_binary F32.prec F32.emax c = true ->
  F32.leb F32.zero c = true -> F32.leb c F32.one = true ->
  exists n,
    FluxControl.slice_count_of_knob c = Some n /\
    n = F32.trunc (F32.mul c (F32.lit 15999 3)) + 1 /\
    1 <= n <= MAX_SLICES.
Proof.
  intros V H0 H1.
  pose proof (knob01_of_leb c V H0 H1) as Hk.
  assert (Gk : F32.good (F32.lit 15999 3)) by (vm_compute; repeat split; discriminate).
  assert (Bk : 0 <= F32.FV (F32.lit 15999 3) <= 16 * 2 ^ F32.K)
    by (vm_compute; split; discriminate).
  destruct (mul_knob_le c _ 16 Hk Gk Bk ltac:(lia)) as [Gm Bm].
  assert (Q : F32.FV (F32.lit 15999 3) / 2 ^ F32.K = 15) by (vm_compute; reflexivity).
  destruct (to_int_le _ (F32.FV (F32.lit 15999 3)) Gm Bm) as [T Tr].
  { rewrite Q. lia. }
  rewrite Q in Tr.
  exists (F32.trunc (F32.mul c (F32.lit 15999 3)) + 1).
  unfold FluxControl.slice_count_of_knob. rewrite T.
  split; [|split; [reflexivity | unfold MAX_SLICES; lia]].
  f_equal. unfold FluxControl.clamp_slice_count, MAX_SLICES.
  set (t := F32.trunc _) in *.
  destruct (t + 1 <? 1) eqn:A; [apply Z.ltb_lt in A; lia|].
  destruct (t + 1 >? 16) eqn:B; [|reflexivity].
  rewrite Z.gtb_ltb in B. apply Z.ltb_lt in B. lia.
Qed.

Lemma slice_count_truncates_witness :
  exists n,
    FluxControl.slice_count_of_knob (F32.lit 5 1) = Some n /\
    n = F32.trunc (F32.mul (F32.lit 5 1) (F32.lit 15999 3)) + 1 /\
    1 <= n <= MAX_SLICES.
Proof.
  apply (slice_count_truncates (F32.lit 5 1)); vm_compute; reflexivity.
Defined.

(** Claim C2: in every execution of the firmware from power-on -- any
    sequence of blocks, any input samples, any controls within the clamps
    of [ProcessParameters] (the slice-length target may sit at its maximum
    of 24000 samples) -- the run is defined and every recorded slice length
    lies in [0, MAX_SLICE_LENGTH]. *)
Theorem slice_lengths_bounded (D : DaisySP) (n0 : Z) (g : rand_state)
    (d : dsp_state) (bs : list (controls * list F32.float)) :
  1 <= n0 < MAX_SLICE_LENGTH ->
  Forall (fun b => controls_ok (fst b)) bs ->
  exists e,
    run_blocks FluxAudio.process_sample bs (power_on n0 g d) = Some e /\
    forall i, 0 <= sliceLengths (store e) i <= MAX_SLICE_LENGTH.
Proof.
  intros Hn Hbs.
  destruct (run_blocks_ok bs (power_on n0 g d) Hbs (power_on_ok n0 g d Hn))
    as (e & Hrun & Hl & _).
  exists e. split; [exact Hrun | exact Hl].
Qed.

Lemma slice_lengths_bounded_witness :
  exists e,
    run_blocks FluxAudio.process_sample
      [(bench_controls 4 MAX_SLICE_LENGTH false false, square_wave 2)]
      bench_engine = Some e /\
    forall i, 0 <= sliceLengths (store e) i <= MAX_SLICE_LENGTH.
Proof.
  apply (slice_lengths_bounded passthrough_dsp 17524 (fun _ => 0%N) tt).
  - unfold MAX_SLICE_LENGTH. lia.
  - constructor; [|constructor].
    unfold controls_ok, knob01, F32.good. vm_compute.
    repeat split; discriminate.
Defined.

(** Why the bound on the smoothed length matters: were it ever exactly
    24000.0, capture would leave accumulation with the write offset at
    24000, one past the last cell, and the next sample would be written
    outside the slice. *)
Lemma capture_needs_smoothed_length_below_max :
  let c := bench_controls 1 MAX_SLICE_LENGTH false false in
  let e0 :=
    set_smooth
      (set_cap bench_engine
         (mkCapture 0 (MAX_SLICE_LENGTH - 1) false F32.zero false 0))
      (F32.of_int MAX_SLICE_LENGTH) in
  exists e1,
    FluxAudio.CaptureSlice c F32.zero e0 = Some e1 /\
    capturePosition (cap e1) = MAX_SLICE_LENGTH /\
    FluxAudio.CaptureSlice c F32.zero e1 = None.
Proof.
  intros c e0.
  destruct (FluxAudio.CaptureSlice c F32.zero e0) as [e1|] eqn:E.
  - exists e1. split; [reflexivity|].
    assert (P : capturePosition (cap e1) = MAX_SLICE_LENGTH
                /\ waitingForZeroCrossing (cap e1) = true
                /\ currentCaptureSlice (cap e1) = 0).
    { apply (f_equal (fun o => match o with
                               | Some e => (capturePosition (cap e),
                                            waitingForZeroCrossing (cap e),
                                            currentCaptureSlice (cap e))
                               | None => (0, false, 0) end)) in E.
      vm_compute in E. injection E as E1 E2 E3.
      repeat split; symmetry; assumption. }
    destruct P as (P1 & P2 & P3). split; [exact P1|].
    unfold FluxAudio.CaptureSlice, Engine.CaptureSlice, buf_write.
    rewrite P1, P3. reflexivity.
  - exfalso. vm_compute in E. discriminate E.
Qed.

(** Claim C3: in every execution from power-on no slice-buffer access leaves
    the arrays (the run never hits an out-of-range access), and in every
    state it reaches the cell [PlaybackSlice] reads lies inside the realized
    part of its slice and the cell [CaptureSlice] writes next lies inside
    the buffer; the read offset is the playback position after its clamp:
    zero, or within the slice. *)
Theorem slice_buffer_accesses_in_range (D : DaisySP) (n0 : Z)
    (g : rand_state) (d : dsp_state)
    (bs : list (controls * list F32.float)) :
  1 <= n0 < MAX_SLICE_LENGTH ->
  Forall (fun b => controls_ok (fst b)) bs ->
  exists e,
    run_blocks FluxAudio.process_sample bs (power_on n0 g d) = Some e /\
    (forall c, controls_ok c ->
       exists out rd e1,
         FluxAudio.PlaybackSlice c e = Some (out, rd, e1) /\
         forall i o, rd = Some (i, o) ->
           slice_ok i = true /\ offset_ok o = true /\
           o < sliceLengths (store e) i) /\
    (forall c x, controls_ok c ->
       exists e2, FluxAudio.CaptureSlice c x e = Some e2) /\
    slice_ok (currentCaptureSlice (cap e)) = true /\
    offset_ok (capturePosition (cap e)) = true /\
    (forall p len,
       Engine.read_position p len = 0 \/
       0 <= Engine.read_position p len < len).
Proof.
  intros Hn Hbs.
  destruct (run_blocks_ok bs (power_on n0 g d) Hbs (power_on_ok n0 g d Hn))
    as (e & Hrun & He).
  exists e. split; [exact Hrun|].
  split; [|split; [|split; [|split]]].
  - intros c Hc.
    destruct (PlaybackSlice_ok Flux.policy c e (Flux_policy_ok _) Hc He)
      as (out & rd & e1 & E & _ & R).
    exists out, rd, e1. split; [exact E|].
    intros i o Hrd. destruct (R i o Hrd) as (Hi & Ho & Hl).
    split; [apply in_range_slice; exact Hi|].
    split; [apply in_range_offset; lia | lia].
  - intros c x Hc.
    destruct (CaptureSlice_ok Flux.policy c x e (Flux_policy_ok _) Hc He)
      as (e2 & E & _).
    exists e2. exact E.
  - destruct He as (_ & (Hc & _) & _). apply in_range_slice. exact Hc.
  - destruct He as (_ & (_ & Hp0 & Hp1) & _). apply in_range_offset.
    destruct (waitingForZeroCrossing (cap e));
      unfold MAX_SLICE_LENGTH in *; lia.
  - exact read_position_clamped.
Qed.

Lemma slice_buffer_accesses_in_range_witness :
  exists e,
    run_blocks FluxAudio.process_sample
      [(bench_controls 1 480 false false, square_wave 3)]
      bench_engine = Some e /\
    (forall c, controls_ok c ->
       exists out rd e1,
         FluxAudio.PlaybackSlice c e = Some (out, rd, e1) /\
         forall i o, rd = Some (i, o) ->
           slice_ok i = true /\ offset_ok o = true /\
           o < sliceLengths (store e) i) /\
    (forall c x, controls_ok c ->
       exists e2, FluxAudio.CaptureSlice c x e = Some e2) /\
    slice_ok (currentCaptureSlice (cap e)) = true /\
    offset_ok (capturePosition (cap e)) = true /\
    (forall p len,
       Engine.read_position p len = 0 \/
       0 <= Engine.read_position p len < len).
Proof.
  apply (slice_buffer_accesses_in_range passthrough_dsp 17524
           (fun _ => 0%N) tt).
  - unfold MAX_SLICE_LENGTH. lia.
  - constructor; [|constructor].
    unfold controls_ok, knob01, F32.good. vm_compute.
    repeat split; discriminate.
Defined.

(** ** Freeze (Ambien Flux) *)



Section Freeze.
Context `{DaisySP}.









End Freeze.


(** The bench controls and the loaded bench engine are within the
    invariants. *)
Lemma bench_controls_ok frozen :
  controls_ok (bench_controls 4 4800 false frozen) /\
  knob01 (knob_stutter (bench_controls 4 4800 false frozen)).
Proof.
  unfold controls_ok, knob01, F32.good. vm_compute.
  repeat split; discriminate.
Qed.

Lemma loaded_engine_ok playing capturing :
  0 <= playing < MAX_SLICES -> 0 <= capturing < MAX_SLICES ->
  engine_ok (loaded_engine playing capturing).
Proof.
  intros Hp Hk.
  destruct (@power_on_ok passthrough_dsp 17524 (fun _ => 0%N) tt
              ltac:(unfold MAX_SLICE_LENGTH; lia)) as (_ & _ & _ & Hs).
  split; [|split; [|split]].
  - intro i. cbn. unfold MAX_SLICE_LENGTH.
    destruct ((i =? 0) || (i =? 1)); lia.
  - unfold capture_ok, MAX_SLICE_LENGTH. cbn. lia.
  - exact Hp.
  - exact Hs.
Qed.


(** ** Division in binary32 *)

Module DivFacts.
Import F32 F32Facts.

Lemma sticky_div g W :
  1 <= g -> 0 <= W ->
  sticky g W / 2 ^ g = W / 2 ^ g /\
  0 <= sticky g W mod 2 ^ g < 2 ^ g /\
  (sticky g W mod 2 ^ g = 0 <-> W mod 2 ^ g = 0) /\
  (sticky g W mod 2 ^ g = 0 \/ sticky g W mod 2 ^ g = 2 ^ (g - 1)).
Proof.
  intros Hg HW. unfold sticky.
  pose proof (pow2_pos g ltac:(lia)) as PG.
  pose proof (pow2_pos (g - 1) ltac:(lia)) as PG2.
  assert (EG : 2 ^ g = 2 * 2 ^ (g - 1)).
  { replace g with (g - 1 + 1) at 1 by lia. apply pow2_succ. lia. }
  set (d := if W mod 2 ^ g =? 0 then 0 else 2 ^ (g - 1)).
  assert (Hd : 0 <= d < 2 ^ g).
  { unfold d. destruct (W mod 2 ^ g =? 0); lia. }
  assert (Q : (2 ^ g * (W / 2 ^ g) + d) / 2 ^ g = W / 2 ^ g).
  { symmetry. apply (Z.div_unique _ _ _ d); lia. }
  assert (R : (2 ^ g * (W / 2 ^ g) + d) mod 2 ^ g = d).
  { symmetry. apply (Z.mod_unique _ _ (W / 2 ^ g)); lia. }
  rewrite Q, R. split; [reflexivity|]. split; [exact Hd|].
  unfold d. destruct (W mod 2 ^ g =? 0) eqn:E.
  - apply Z.eqb_eq in E. split; [tauto | left; reflexivity].
  - apply Z.eqb_neq in E. split; [split; lia | right; reflexivity].
Qed.

Lemma sticky_nonneg g W : 1 <= g -> 0 <= W -> 0 <= sticky g W.
Proof.
  intros Hg HW. unfold sticky.
  pose proof (pow2_pos g ltac:(lia)). pose proof (pow2_pos (g - 1) ltac:(lia)).
  assert (0 <= W / 2 ^ g) by (apply Z.div_pos; lia).
  destruct (W mod 2 ^ g =? 0); nia.
Qed.

(** A multiple of [2^g] separates [W] and [sticky g W] from the same
    side. *)
Lemma sticky_cmp g W B :
  1 <= g -> 0 <= W ->
  (sticky g W ?= B * 2 ^ g) = (W ?= B * 2 ^ g).
Proof.
  intros Hg HW.
  pose proof (pow2_pos g ltac:(lia)) as PG.
  destruct (sticky_div g W Hg HW) as (Q & R & Z0 & _).
  pose proof (Z.div_mod W (2 ^ g) ltac:(lia)) as DW.
  pose proof (Z.div_mod (sticky g W) (2 ^ g) ltac:(lia)) as DS.
  pose proof (Z.mod_pos_bound W (2 ^ g) PG) as BW.
  rewrite Q in DS.
  set (a := W / 2 ^ g) in *. set (c := W mod 2 ^ g) in *.
  set (c' := sticky g W mod 2 ^ g) in *.
  destruct (Z.compare_spec W (B * 2 ^ g)) as [E|L|G'].
  - apply Z.compare_eq_iff.
    assert (c = 0).
    { assert (Ha : a = B).
      { unfold a. rewrite E. apply Z.div_mul. lia. }
      rewrite Ha in DW. lia. }
    assert (c' = 0) by (apply Z0; assumption). nia.
  - apply Z.compare_lt_iff.
    assert (a < B) by nia.
    assert (2 ^ g * a + 2 ^ g <= B * 2 ^ g) by nia. lia.
  - apply Z.compare_gt_iff.
    destruct (Z.eq_dec c 0) as [C0|C0].
    + assert (c' = 0) by (apply Z0; assumption). lia.
    + assert (c' <> 0) by (intro C; apply Z0 in C; contradiction).
      assert (B <= a) by nia. nia.
Qed.

Lemma rne_sticky g n W :
  1 <= g -> g + 1 <= n -> 0 <= W -> rne (sticky g W) n = rne W n.
Proof.
  intros Hg Hn HW.
  pose proof (pow2_pos g ltac:(lia)) as PG.
  pose proof (pow2_pos (n - g) ltac:(lia)) as PH.
  pose proof (pow2_pos (n - g - 1) ltac:(lia)) as Ph.
  assert (EH : 2 ^ n = 2 ^ g * 2 ^ (n - g)).
  { rewrite <- (pow2_add g (n - g)) by lia. f_equal. lia. }
  assert (Eh : 2 ^ (n - g) = 2 * 2 ^ (n - g - 1)).
  { replace (n - g) with (n - g - 1 + 1) at 1 by lia. apply pow2_succ. lia. }
  destruct (sticky_div g W Hg HW) as (Q & R & Z0 & _).
  pose proof (sticky_nonneg g W Hg HW) as HS.
  assert (QH : sticky g W / 2 ^ n = W / 2 ^ n).
  { rewrite EH, <- !Z.div_div by lia. rewrite Q. reflexivity. }
  unfold rne. cbv zeta. rewrite QH.
  assert (C : (2 * (sticky g W mod 2 ^ n) ?= 2 ^ n)
              = (2 * (W mod 2 ^ n) ?= 2 ^ n)).
  { pose proof (Z.div_mod W (2 ^ n) ltac:(lia)) as DW.
    pose proof (Z.div_mod (sticky g W) (2 ^ n) ltac:(lia)) as DS.
    rewrite QH in DS.
    set (A := W / 2 ^ n) in *.
    pose proof (sticky_cmp g W (A * 2 ^ (n - g) + 2 ^ (n - g - 1)) Hg HW)
      as SC.
    replace ((A * 2 ^ (n - g) + 2 ^ (n - g - 1)) * 2 ^ g)
      with (2 ^ n * A + 2 ^ (n - g - 1) * 2 ^ g) in SC by (rewrite EH; ring).
    assert (E2 : 2 ^ n = 2 * (2 ^ (n - g - 1) * 2 ^ g)) by (rewrite EH, Eh; ring).
    set (hf := 2 ^ (n - g - 1) * 2 ^ g) in *.
    clearbody A hf.
    set (rs := sticky g W mod 2 ^ n) in *. set (rw := W mod 2 ^ n) in *.
    set (H2 := 2 ^ n) in *. set (HA := H2 * A) in *.
    clearbody rs rw H2 HA.
    clear - DW DS SC E2.
    destruct (Z.compare_spec W (HA + hf)) as [E|L|G'].
    - rewrite Z.compare_eq_iff in SC.
      transitivity Eq; [|symmetry]; apply Z.compare_eq_iff; lia.
    - rewrite Z.compare_lt_iff in SC.
      transitivity Lt; [|symmetry]; apply Z.compare_lt_iff; lia.
    - rewrite Z.compare_gt_iff in SC.
      transitivity Gt; [|symmetry]; apply Z.compare_gt_iff; lia. }
  rewrite C. reflexivity.
Qed.

Lemma sticky_pos g W : 1 <= g -> 0 < W -> 0 < sticky g W.
Proof.
  intros Hg HW.
  pose proof (sticky_cmp g W 0 Hg ltac:(lia)) as C. simpl in C.
  rewrite (proj2 (Z.compare_gt_iff W 0)) in C by lia.
  rewrite Z.compare_gt_iff in C. exact C.
Qed.

Lemma sticky_lt_pow g W j :
  1 <= g -> 0 <= W -> g <= j -> (sticky g W < 2 ^ j <-> W < 2 ^ j).
Proof.
  intros Hg HW Hj.
  pose proof (sticky_cmp g W (2 ^ (j - g)) Hg HW) as C.
  rewrite <- (pow2_add (j - g) g) in C by lia.
  replace (j - g + g) with j in C by lia.
  rewrite <- !Z.compare_lt_iff. rewrite C. reflexivity.
Qed.

Lemma dig_le_of_lt V j : 0 < V -> 0 <= j -> V < 2 ^ j -> dig V <= j.
Proof.
  intros HV Hj Hlt. destruct (dig_bounds V HV) as (Hd & Hl & _).
  assert (dig V - 1 < j) by (apply pow2_lt_inv; lia). lia.
Qed.

Lemma nexp_sticky g W :
  1 <= g -> 0 <= W -> g + 1 <= nexp (sticky g W) ->
  nexp (sticky g W) = nexp W.
Proof.
  intros Hg HW Hn.
  destruct (Z.eq_dec W 0) as [->|NZ].
  { unfold sticky. rewrite Z.div_0_l, Z.mod_0_l by (pose proof (pow2_pos g); lia).
    simpl. rewrite Z.mul_0_r. reflexivity. }
  assert (PW : 0 < W) by lia.
  pose proof (sticky_pos g W Hg PW) as PS.
  destruct (dig_bounds W PW) as (Hd & Hl & Hh).
  unfold nexp in *.
  destruct (Z_le_gt_dec (g + 1) (dig W)) as [Big|Small].
  - assert (dig (sticky g W) = dig W); [|lia].
    apply dig_unique; [lia | lia |]. split.
    + apply Z.le_ngt. intro C.
      apply (sticky_lt_pow g W (dig W - 1)) in C; lia.
    + apply (sticky_lt_pow g W (dig W)); lia.
  - assert (W < 2 ^ g).
    { assert (2 ^ dig W <= 2 ^ g) by (apply pow2_le; lia). lia. }
    assert (sticky g W < 2 ^ g) by (apply (sticky_lt_pow g W g); lia).
    pose proof (dig_le_of_lt _ g PS ltac:(lia) H0). lia.
Qed.

Lemma rv_sticky g W :
  1 <= g -> 0 <= W -> g + 1 <= nexp (sticky g W) ->
  rv (sticky g W) = rv W.
Proof.
  intros Hg HW Hn. unfold rv.
  pose proof (nexp_sticky g W Hg HW Hn) as E. rewrite E in *.
  rewrite rne_sticky by lia. reflexivity.
Qed.

Lemma qsticky_sticky g N D :
  1 <= g -> 0 <= N -> 0 < D -> sticky g (qsticky 1 N D) = qsticky g N D.
Proof.
  intros Hg HN HD.
  pose proof (pow2_pos (g - 1) ltac:(lia)) as PG2.
  assert (EG : 2 ^ g = 2 * 2 ^ (g - 1)).
  { replace g with (g - 1 + 1) at 1 by lia. apply pow2_succ. lia. }
  set (G2 := 2 ^ (g - 1)) in *.
  unfold qsticky at 1. change (2 ^ 1) with 2. change (2 ^ (1 - 1)) with 1.
  set (a := N / (D * 2)).
  set (dl := if N mod (D * 2) =? 0 then 0 else 1).
  assert (Ha : 0 <= a) by (apply Z.div_pos; lia).
  assert (Hdl : 0 <= dl <= 1) by (unfold dl; destruct (_ =? 0); lia).
  assert (W2 : (2 * a + dl) / 2 = a)
    by (symmetry; apply (Z.div_unique _ _ _ dl); lia).
  assert (M2 : (2 * a + dl) mod 2 = dl)
    by (symmetry; apply (Z.mod_unique _ _ a); lia).
  assert (QN : N / (D * 2 ^ g) = a / G2).
  { rewrite EG. replace (D * (2 * G2)) with (D * 2 * G2) by ring.
    rewrite <- Z.div_div by lia. reflexivity. }
  assert (QW : (2 * a + dl) / 2 ^ g = a / G2).
  { rewrite EG. rewrite <- Z.div_div by lia. rewrite W2. reflexivity. }
  assert (RN : N mod (D * 2 ^ g) = N mod (D * 2) + D * 2 * (a mod G2)).
  { rewrite EG. replace (D * (2 * G2)) with (D * 2 * G2) by ring.
    rewrite Z.rem_mul_r by lia. reflexivity. }
  assert (RW : (2 * a + dl) mod 2 ^ g = dl + 2 * (a mod G2)).
  { rewrite EG. rewrite Z.rem_mul_r by lia. rewrite W2, M2. reflexivity. }
  pose proof (Z.mod_pos_bound a G2 PG2) as Bm.
  pose proof (Z.mod_pos_bound N (D * 2) ltac:(lia)) as Br.
  unfold sticky, qsticky. fold G2. rewrite QN, QW, RN, RW.
  f_equal.
  assert (Edl : dl = 0 <-> N mod (D * 2) = 0).
  { unfold dl. destruct (N mod (D * 2) =? 0) eqn:E.
    - apply Z.eqb_eq in E. tauto.
    - apply Z.eqb_neq in E. split; intro; [discriminate | contradiction]. }
  set (m := a mod G2) in *. set (r := N mod (D * 2)) in *.
  clearbody m r dl.
  destruct (dl + 2 * m =? 0) eqn:E1; destruct (r + D * 2 * m =? 0) eqn:E2;
    try reflexivity; exfalso.
  - apply Z.eqb_eq in E1. apply Z.eqb_neq in E2.
    assert (dl = 0) by lia. assert (m = 0) by lia.
    apply E2. subst m. rewrite (proj1 Edl) by assumption. ring.
  - apply Z.eqb_neq in E1. apply Z.eqb_eq in E2.
    assert (0 <= D * 2 * m) by nia.
    assert (r = 0) by lia. assert (m = 0) by nia.
    apply E1. subst m. rewrite (proj2 Edl) by assumption. ring.
Qed.

Lemma qsticky_mono N1 N2 D :
  0 <= N1 <= N2 -> 0 < D -> qsticky 1 N1 D <= qsticky 1 N2 D.
Proof.
  intros HN HD. unfold qsticky. change (2 ^ 1) with 2.
  change (2 ^ (1 - 1)) with 1.
  pose proof (Z.div_mod N1 (D * 2) ltac:(lia)) as D1.
  pose proof (Z.div_mod N2 (D * 2) ltac:(lia)) as D2.
  pose proof (Z.mod_pos_bound N1 (D * 2) ltac:(lia)) as B1.
  pose proof (Z.mod_pos_bound N2 (D * 2) ltac:(lia)) as B2.
  assert (Hq : N1 / (D * 2) <= N2 / (D * 2)) by (apply Z.div_le_mono; lia).
  set (a1 := N1 / (D * 2)) in *. set (a2 := N2 / (D * 2)) in *.
  set (r1 := N1 mod (D * 2)) in *. set (r2 := N2 mod (D * 2)) in *.
  clearbody a1 a2 r1 r2.
  destruct (Z.eqb_spec r1 0) as [E1|E1]; destruct (Z.eqb_spec r2 0) as [E2|E2];
    try lia.
  destruct (Z.eq_dec a1 a2) as [Ea|Na]; [|lia].
  exfalso. subst a2. lia.
Qed.

Lemma qsticky_nonneg N D : 0 <= N -> 0 < D -> 0 <= qsticky 1 N D.
Proof.
  intros HN HD. unfold qsticky. change (2 ^ 1) with 2.
  change (2 ^ (1 - 1)) with 1.
  assert (0 <= N / (D * 2)) by (apply Z.div_pos; lia).
  destruct (_ =? 0); lia.
Qed.

Lemma qsticky_exact V D : 0 < D -> qsticky 1 (D * (2 * V)) D = 2 * V.
Proof.
  intro HD. unfold qsticky. change (2 ^ 1) with 2.
  replace (D * (2 * V)) with (V * (D * 2)) by ring.
  rewrite Z.div_mul, Z.mod_mul by lia. simpl. lia.
Qed.

(** *** Division *)

Lemma new_location_bits q m2 r :
  0 < m2 -> 0 <= r < m2 ->
  shr_record_of_loc q (new_location m2 r)
  = Build_shr_record q (fst (loc_bits m2 r)) (snd (loc_bits m2 r)).
Proof.
  intros Hm Hr. unfold new_location, loc_bits. cbn [fst snd].
  destruct (Z.even m2) eqn:Ev.
  - unfold new_location_even.
    destruct (Z.eqb_spec r 0) as [->|NZ].
    + simpl. replace (m2 <=? 0) with false by (symmetry; apply Z.leb_gt; lia).
      reflexivity.
    + destruct (Z.compare_spec (2 * r) m2) as [E|L|G]; cbn [shr_record_of_loc negb andb].
      * rewrite E, Z.leb_refl, Z.eqb_refl. reflexivity.
      * replace (m2 <=? 2 * r) with false by (symmetry; apply Z.leb_gt; lia).
        replace (2 * r =? m2) with false by (symmetry; apply Z.eqb_neq; lia).
        reflexivity.
      * replace (m2 <=? 2 * r) with true by (symmetry; apply Z.leb_le; lia).
        replace (2 * r =? m2) with false by (symmetry; apply Z.eqb_neq; lia).
        reflexivity.
  - unfold new_location_odd.
    assert (Od : m2 mod 2 = 1).
    { rewrite Zmod_odd, <- Z.negb_even, Ev. reflexivity. }
    assert (Ne : 2 * r <> m2).
    { intro C. rewrite <- C in Od.
      rewrite Z.mul_comm, Z.mod_mul in Od by lia. discriminate. }
    destruct (Z.eqb_spec r 0) as [->|NZ].
    + simpl. replace (m2 <=? 0) with false by (symmetry; apply Z.leb_gt; lia).
      reflexivity.
    + replace (2 * r =? m2) with false by (symmetry; apply Z.eqb_neq; lia).
      destruct (Z.compare_spec (2 * r + 1) m2) as [E|L|G];
        cbn [shr_record_of_loc negb andb].
      * replace (m2 <=? 2 * r) with false by (symmetry; apply Z.leb_gt; lia).
        reflexivity.
      * replace (m2 <=? 2 * r) with false by (symmetry; apply Z.leb_gt; lia).
        reflexivity.
      * replace (m2 <=? 2 * r) with true by (symmetry; apply Z.leb_le; lia).
        reflexivity.
Qed.

(** A quotient with its round and sticky bits is the same record as the
    quotient extended by two bits and shifted twice. *)
Lemma shr_record_two q rb sb :
  0 <= q ->
  Build_shr_record q rb sb
  = Nat.iter 2 shr_1
      (Build_shr_record (4 * q + 2 * b2z rb + b2z sb) false false).
Proof.
  intro Hq. destruct q as [|p|p]; [| |lia]; destruct rb, sb; reflexivity.
Qed.

Lemma shr_fexp_loc q e rb sb :
  0 <= q ->
  let V := 4 * q + 2 * b2z rb + b2z sb in
  e <= fexp prec emax (Zdigits2 q + e) ->
  fexp prec emax (Zdigits2 V + (e - 2)) = fexp prec emax (Zdigits2 q + e) ->
  shr (Build_shr_record q rb sb) e (fexp prec emax (Zdigits2 q + e) - e)
  = shr_fexp prec emax V (e - 2) loc_Exact.
Proof.
  intros Hq V Hn HV. unfold shr_fexp. rewrite HV.
  set (t := fexp prec emax (Zdigits2 q + e)) in *.
  cbn [shr_record_of_loc].
  rewrite (shr_record_two q rb sb Hq). fold V.
  replace (t - (e - 2)) with (t - e + 2) by lia.
  destruct (t - e) as [|p|p] eqn:En; try lia.
  - change (0 + 2) with (Zpos 2). cbn [shr]. rewrite iter_pos_nat.
    f_equal. lia.
  - cbn [shr].
    replace (Zpos p + 2) with (Zpos (p + 2)) by lia. cbn [shr].
    rewrite !iter_pos_nat, <- Nat.iter_add.
    f_equal; [|lia]. f_equal. lia.
Qed.

Lemma round_aux_loc s q e m2 r :
  0 < m2 -> 0 <= r < m2 -> 0 <= q ->
  let V := 4 * q + 2 * b2z (fst (loc_bits m2 r)) + b2z (snd (loc_bits m2 r)) in
  e <= fexp prec emax (Zdigits2 q + e) ->
  fexp prec emax (Zdigits2 V + (e - 2)) = fexp prec emax (Zdigits2 q + e) ->
  binary_round_aux prec emax s q e (new_location m2 r)
  = binary_round_aux prec emax s V (e - 2) loc_Exact.
Proof.
  intros Hm Hr Hq V Hn HV. unfold binary_round_aux.
  replace (shr_fexp prec emax q e (new_location m2 r))
    with (shr_fexp prec emax V (e - 2) loc_Exact); [reflexivity|].
  pose proof (shr_fexp_loc q e _ _ Hq Hn HV) as E. cbv zeta in E.
  fold V in E. rewrite <- E.
  unfold shr_fexp. rewrite new_location_bits by assumption. reflexivity.
Qed.

Lemma div_core_eq mx xe my ye :
  let e' := Z.min (Z.max (dig (Zpos mx) + xe - (dig (Zpos my) + ye) - 24)
                     (-149)) (xe - ye) in
  exists q r,
    SFdiv_core_binary prec emax (Zpos mx) xe (Zpos my) ye
    = (q, e', new_location (Zpos my) r) /\
    Zpos mx * 2 ^ (xe - ye - e') = Zpos my * q + r /\
    0 <= r < Zpos my /\ 0 <= q.
Proof.
  intro e'. unfold SFdiv_core_binary. rewrite fexp_eq.
  fold (dig (Zpos mx)) (dig (Zpos my)). fold e'.
  assert (Hs : 0 <= xe - ye - e') by (unfold e'; lia).
  set (m' := match xe - ye - e' with
             | 0 => Zpos mx
             | Zpos _ => Z.shiftl (Zpos mx) (xe - ye - e')
             | Zneg _ => 0
             end).
  assert (Em : m' = Zpos mx * 2 ^ (xe - ye - e')).
  { unfold m'. destruct (xe - ye - e') as [|p|p] eqn:Es.
    - change (2 ^ 0) with 1. lia.
    - rewrite Z.shiftl_mul_pow2 by lia. reflexivity.
    - lia. }
  pose proof (Z_div_mod m' (Zpos my) eq_refl) as DM.
  destruct (Z.div_eucl m' (Zpos my)) as [q r].
  exists q, r. destruct DM as [Eq Hr].
  split; [reflexivity|]. split; [lia|]. split; [lia|].
  pose proof (pow2_pos _ Hs).
  assert (0 <= m') by (rewrite Em; lia).
  clearbody m'. nia.
Qed.

(** The quotient of two positive finite numbers is the exact quotient,
    kept to within its sticky half unit, rounded to the format. *)
Lemma SFdiv_pos_spec mx xe my ye :
  bounded prec emax mx xe = true -> bounded prec emax my ye = true ->
  Zpos mx * 2 ^ (xe + K) < Zpos my * 2 ^ (ye + K) * 2 ^ 127 ->
  good (SFdiv prec emax (S754_finite false mx xe) (S754_finite false my ye)) /\
  FV (SFdiv prec emax (S754_finite false mx xe) (S754_finite false my ye))
  = rv (qsticky 1 (Zpos mx * 2 ^ (xe + K) * 2 ^ K) (Zpos my * 2 ^ (ye + K))).
Proof.
  intros Bx By Hov.
  destruct (bounded_facts _ _ Bx) as (Hxe & Hdx & _).
  destruct (bounded_facts _ _ By) as (Hye & Hdy & _).
  destruct (dig_bounds (Zpos mx) ltac:(lia)) as (_ & Lx & Ux).
  destruct (dig_bounds (Zpos my) ltac:(lia)) as (_ & Ly & Uy).
  set (d1 := dig (Zpos mx)) in *. set (d2 := dig (Zpos my)) in *.
  destruct (div_core_eq mx xe my ye) as (q & r & Ecore & Eqr & Hr & Hq).
  fold d1 d2 in Ecore, Eqr.
  set (e' := Z.min (Z.max (d1 + xe - (d2 + ye) - 24) (-149)) (xe - ye)) in *.
  set (s := xe - ye - e') in *.
  assert (Hs : 0 <= s) by (unfold s, e'; lia).
  assert (He'lo : -253 <= e') by (unfold e'; lia).
  (* the quotient is below the overflow threshold *)
  assert (HA : d1 + xe - (d2 + ye) <= 127).
  { assert (2 ^ (d1 - 1) * 2 ^ (xe + K) < 2 ^ d2 * 2 ^ (ye + K) * 2 ^ 127).
    { pose proof (pow2_pos (xe + K) ltac:(unfold K; lia)).
      pose proof (pow2_pos (ye + K) ltac:(unfold K; lia)).
      pose proof (pow2_pos 127 ltac:(lia)).
      eapply Z.le_lt_trans; [|eapply Z.lt_le_trans; [exact Hov|]].
      - apply Z.mul_le_mono_nonneg_r; lia.
      - apply Z.mul_le_mono_nonneg_r; [lia|].
        apply Z.mul_le_mono_nonneg_r; lia. }
    rewrite <- (pow2_add (d1 - 1) (xe + K)) in H by (unfold K; lia).
    rewrite <- (pow2_add d2 (ye + K)) in H by (unfold K; lia).
    rewrite <- (pow2_add (d2 + (ye + K)) 127) in H by (unfold K; lia).
    apply pow2_lt_inv in H; unfold K in *; lia. }
  assert (He'hi : e' <= 103) by (unfold e'; lia).
  pose proof (pow2_pos s Hs) as Ps.
  set (M' := Zpos mx * 2 ^ s) in *.
  assert (LM : 2 ^ (d1 - 1 + s) <= M').
  { rewrite (pow2_add (d1 - 1) s) by lia. unfold M'.
    apply Z.mul_le_mono_nonneg_r; lia. }
  set (rb := fst (loc_bits (Zpos my) r)).
  set (sb := snd (loc_bits (Zpos my) r)).
  set (V := 4 * q + 2 * b2z rb + b2z sb).
  assert (Hb : 0 <= 2 * b2z rb + b2z sb <= 3)
    by (destruct rb, sb; cbn [b2z]; lia).
  (* the extended quotient is positive *)
  assert (HVpos : 0 < V).
  { unfold V. destruct (Z.eq_dec q 0) as [Q0|Q0]; [|lia].
    assert (r <> 0) by (clearbody M'; nia).
    assert (sb = true \/ rb = true).
    { unfold sb, rb, loc_bits. cbn [fst snd].
      destruct (Z.eqb_spec r 0); [contradiction|].
      destruct (Z.eqb_spec (2 * r) (Zpos my)) as [E2|E2].
      - right. apply Z.leb_le. lia.
      - left. reflexivity. }
    destruct H0 as [E|E]; rewrite E; [destruct rb | destruct sb];
      cbn [b2z]; lia. }
  (* digits of the quotient and the two exponent conditions *)
  assert (Hfexp : e' <= Z.max (dig q + e' - 24) (-149) /\
                  Z.max (dig V + (e' - 2) - 24) (-149)
                  = Z.max (dig q + e' - 24) (-149)).
  { destruct (Z.eq_dec q 0) as [Q0|Q0].
    - assert (r = M') by (clearbody M'; nia).
      assert (2 ^ (d1 - 1 + s) < 2 ^ d2) by lia.
      apply pow2_lt_inv in H0; try lia.
      assert (e' <= -149) by (unfold s, e' in *; lia).
      assert (dig V <= 2).
      { apply dig_le_of_lt; [lia | lia |].
        change (2 ^ 2) with 4. unfold V. lia. }
      rewrite Q0, dig_0. lia.
    - assert (Pq : 0 < q) by lia.
      destruct (dig_bounds q Pq) as (Hdq & Lq & Uq).
      assert (DV : dig V = dig q + 2).
      { apply dig_unique; [lia | lia |].
        replace (dig q + 2 - 1) with (dig q - 1 + 2) by lia.
        rewrite !pow2_add by lia. change (2 ^ 2) with 4.
        unfold V. lia. }
      assert (Dq : d1 + s - d2 <= dig q).
      { apply Z.le_ngt. intro C.
        assert (A1 : 2 ^ dig q <= 2 ^ (d1 + s - d2 - 1)) by (apply pow2_le; lia).
        assert (A2 : q + 1 <= 2 ^ (d1 + s - d2 - 1)) by lia.
        assert (A3 : M' < Zpos my * (q + 1)) by (clearbody M'; lia).
        assert (A4 : Zpos my * (q + 1) <= Zpos my * 2 ^ (d1 + s - d2 - 1))
          by (apply Z.mul_le_mono_nonneg_l; lia).
        assert (A5 : Zpos my * 2 ^ (d1 + s - d2 - 1)
                     < 2 ^ d2 * 2 ^ (d1 + s - d2 - 1)).
        { apply Z.mul_lt_mono_pos_r; [apply pow2_pos; lia | lia]. }
        rewrite <- (pow2_add d2 (d1 + s - d2 - 1)) in A5 by lia.
        replace (d2 + (d1 + s - d2 - 1)) with (d1 - 1 + s) in A5 by lia.
        clearbody M'. lia. }
      rewrite DV. unfold s, e' in *. lia. }
  destruct Hfexp as [Hn HVe].
  (* the value being rounded *)
  set (g := e' + K - 1).
  assert (Hg : 1 <= g) by (unfold g, K; lia).
  set (N := Zpos mx * 2 ^ (xe + K) * 2 ^ K).
  set (D := Zpos my * 2 ^ (ye + K)).
  assert (PD : 0 < D).
  { unfold D. pose proof (pow2_pos (ye + K) ltac:(unfold K; lia)). lia. }
  assert (PN : 0 <= N).
  { unfold N. pose proof (pow2_pos (xe + K) ltac:(unfold K; lia)).
    pose proof (pow2_pos K ltac:(unfold K; lia)).
    apply Z.mul_nonneg_nonneg; [apply Z.mul_nonneg_nonneg|]; lia. }
  assert (ESV : V * 2 ^ (e' - 2 + K) = qsticky g N D).
  { set (c := ye + K + g).
    assert (Hc : 0 <= c) by (unfold c, g, K; lia).
    pose proof (pow2_pos c Hc) as Pc.
    assert (EN : N = 2 * M' * 2 ^ c).
    { unfold N, M'. rewrite <- Z.mul_assoc.
      rewrite <- (pow2_add (xe + K) K) by (unfold K; lia).
      replace (xe + K + K) with (1 + s + c) by (unfold c, g, s; lia).
      rewrite (pow2_add (1 + s) c) by lia.
      rewrite (pow2_add 1 s) by lia. change (2 ^ 1) with 2. ring. }
    assert (ED : D * 2 ^ g = Zpos my * 2 ^ c).
    { unfold D, c. rewrite (pow2_add (ye + K) g) by (unfold K; lia). ring. }
    assert (Q2 : 2 * M' / Zpos my = 2 * q + b2z rb /\
                 2 * M' mod Zpos my = 2 * r - b2z rb * Zpos my).
    { assert (0 <= 2 * r - b2z rb * Zpos my < Zpos my).
      { unfold rb, loc_bits. cbn [fst].
        destruct (Z.leb_spec (Zpos my) (2 * r)); simpl b2z; lia. }
      assert (2 * M' = Zpos my * (2 * q + b2z rb)
                       + (2 * r - b2z rb * Zpos my))
        by (clearbody M'; rewrite Eqr; ring).
      split; symmetry.
      - apply (Z.div_unique _ _ _ (2 * r - b2z rb * Zpos my)); lia.
      - apply (Z.mod_unique _ _ (2 * q + b2z rb)); lia. }
    destruct Q2 as [Q2 R2].
    unfold qsticky. rewrite ED, EN.
    rewrite Z.div_mul_cancel_r by lia.
    rewrite Z.mul_mod_distr_r by lia.
    rewrite Q2, R2.
    assert (Hz : forall R, (R * 2 ^ c =? 0) = (R =? 0)).
    { intro R. destruct (Z.eqb_spec R 0) as [->|NZ]; [reflexivity|].
      apply Z.eqb_neq. intro T. apply Z.mul_eq_0 in T. lia. }
    assert (Esb : (if (2 * r - b2z rb * Zpos my) * 2 ^ c =? 0
                   then 0 else 2 ^ (g - 1)) = b2z sb * 2 ^ (g - 1)).
    { rewrite Hz. unfold sb, rb, loc_bits. cbn [fst snd].
      clear - Hr.
      destruct (Z.leb_spec (Zpos my) (2 * r)); cbn [b2z];
        destruct (Z.eqb_spec r 0) as [R0|R0];
        destruct (Z.eqb_spec (2 * r) (Zpos my)) as [E2|E2];
        cbn [negb andb b2z];
        match goal with
        | |- (if ?t =? 0 then _ else _) = _ =>
            destruct (Z.eqb_spec t 0) as [T0|T0]
        end; lia. }
    rewrite Esb.
    replace (e' - 2 + K) with (g - 1) by (unfold g; lia).
    replace (2 ^ g) with (2 * 2 ^ (g - 1)).
    2:{ replace g with (g - 1 + 1) at 2 by lia. rewrite pow2_succ by lia.
        reflexivity. }
    unfold V. ring. }
  assert (Hlt : V * 2 ^ (e' - 2 + K) < 2 ^ (127 + K)).
  { rewrite ESV. unfold qsticky.
    pose proof (pow2_pos g ltac:(lia)) as Pg.
    pose proof (pow2_pos (g - 1) ltac:(lia)) as Pg1.
    assert (EG : 2 ^ g = 2 * 2 ^ (g - 1)).
    { replace g with (g - 1 + 1) at 1 by lia. apply pow2_succ. lia. }
    assert (E127 : 2 ^ (127 + K) = 2 ^ g * 2 ^ (127 + K - g)).
    { rewrite <- (pow2_add g (127 + K - g)) by (unfold g, K in *; lia).
      f_equal. lia. }
    assert (HQ : N / (D * 2 ^ g) < 2 ^ (127 + K - g)).
    { apply Z.div_lt_upper_bound; [apply Z.mul_pos_pos; lia|].
      replace (D * 2 ^ g * 2 ^ (127 + K - g)) with (D * 2 ^ (127 + K))
        by (rewrite E127; ring).
      unfold N, D. rewrite (pow2_add 127 K) by (unfold K; lia).
      pose proof (pow2_pos K ltac:(unfold K; lia)).
      replace (Zpos my * 2 ^ (ye + K) * (2 ^ 127 * 2 ^ K))
        with (Zpos my * 2 ^ (ye + K) * 2 ^ 127 * 2 ^ K) by ring.
      apply Z.mul_lt_mono_pos_r; lia. }
    rewrite E127.
    set (Q := N / (D * 2 ^ g)) in *. set (T := 2 ^ (127 + K - g)) in *.
    assert (HQ2 : 2 ^ g * Q <= 2 ^ g * (T - 1))
      by (apply Z.mul_le_mono_nonneg_l; lia).
    set (G := 2 ^ g) in *. set (G1 := 2 ^ (g - 1)) in *.
    clearbody Q T G G1. clear - HQ2 EG Pg1.
    destruct (_ =? 0); lia. }
  (* assemble *)
  assert (Hspec := round_aux_spec false V (e' - 2) HVpos
                     ltac:(unfold K; lia) ltac:(lia) Hlt).
  assert (Eround :
    SFdiv prec emax (S754_finite false mx xe) (S754_finite false my ye)
    = binary_round_aux prec emax false V (e' - 2) loc_Exact).
  { unfold SFdiv. rewrite Ecore. cbn [xorb].
    apply round_aux_loc; try assumption; lia. }
  rewrite Eround. destruct Hspec as [G1 G2]. split; [exact G1|].
  rewrite G2. cbn [sgn]. rewrite ESV.
  rewrite <- (qsticky_sticky g N D Hg PN PD).
  apply rv_sticky; [exact Hg | apply qsticky_nonneg; assumption |].
  rewrite (qsticky_sticky g N D Hg PN PD), <- ESV.
  rewrite nexp_shift by (unfold K; lia). unfold g. lia.
Qed.

Lemma rvs_nonneg_rv V : 0 <= V -> rvs V = rv V.
Proof.
  intro H. unfold rvs.
  replace (V <? 0) with false by (symmetry; apply Z.ltb_ge; lia).
  reflexivity.
Qed.

Lemma good_nonneg_cases x :
  good x -> 0 <= FV x ->
  (exists s, x = S754_zero s) \/
  (exists m e, x = S754_finite false m e /\ bounded prec emax m e = true).
Proof.
  intros [Hv Hf] H0. destruct x as [s|s| |s m e]; try discriminate.
  - left. exists s. reflexivity.
  - right. exists m, e.
    assert (B : bounded prec emax m e = true) by exact Hv.
    pose proof (FV_pos_finite m e B) as P.
    rewrite FV_finite in H0.
    destruct s; [cbn [sgn] in H0; lia|].
    split; [reflexivity | exact B].
Qed.

(** Dividing a non-negative number by a positive one. *)
Lemma div_nonneg_spec x y :
  good x -> good y -> 0 <= FV x -> 0 < FV y -> FV x < FV y * 2 ^ 127 ->
  good (div x y) /\
  FV (div x y) = rv (qsticky 1 (FV x * 2 ^ K) (FV y)).
Proof.
  intros Gx Gy Hx Hy Hov.
  destruct (good_nonneg_cases y Gy ltac:(lia))
    as [[s ->] | (my & ye & -> & By)]; [cbn [FV] in Hy; lia|].
  destruct (good_nonneg_cases x Gx Hx) as [[s ->] | (mx & xe & -> & Bx)].
  - split; [apply good_zero|].
    rewrite FV_finite in *. cbn [sgn] in *.
    cbn [div SFdiv FV]. rewrite Z.mul_0_l.
    unfold qsticky. rewrite Z.div_0_l, Z.mod_0_l.
    + change (2 ^ 1 * 0 + (if 0 =? 0 then 0 else 2 ^ (1 - 1))) with 0.
      symmetry. apply rv_0.
    + change (2 ^ 1) with 2. lia.
    + change (2 ^ 1) with 2. lia.
  - unfold div. rewrite !FV_finite in *. cbn [sgn] in *.
    apply SFdiv_pos_spec; assumption.
Qed.

(** Two well-formed positive numbers of equal value are equal. *)
Lemma FV_inj_pos m1 e1 m2 e2 :
  bounded prec emax m1 e1 = true -> bounded prec emax m2 e2 = true ->
  Zpos m1 * 2 ^ (e1 + K) = Zpos m2 * 2 ^ (e2 + K) ->
  S754_finite false m1 e1 = S754_finite false m2 e2.
Proof.
  intros B1 B2 E.
  assert (e1 = e2).
  { destruct (Z.lt_trichotomy e1 e2) as [L|[Q|G]]; [|exact Q|].
    - pose proof (canonical_lt _ _ _ _ B1 B2 L). lia.
    - pose proof (canonical_lt _ _ _ _ B2 B1 G). lia. }
  subst e2.
  destruct (bounded_facts _ _ B1) as (He & _).
  pose proof (pow2_pos (e1 + K) ltac:(unfold K; lia)) as P.
  apply Z.mul_cancel_r in E; [|lia].
  congruence.
Qed.

Lemma div_self m e :
  bounded prec emax m e = true ->
  div (S754_finite false m e) (S754_finite false m e) = one.
Proof.
  intro B.
  destruct (bounded_facts _ _ B) as (He & _).
  pose proof (pow2_pos (e + K) ltac:(unfold K; lia)) as P.
  pose proof (FV_pos_finite m e B) as PD.
  destruct (SFdiv_pos_spec m e m e B B) as [G E].
  { pose proof (pow2_pos 127 ltac:(lia)).
    assert (1 < 2 ^ 127) by (vm_compute; reflexivity). nia. }
  replace (Zpos m * 2 ^ (e + K) * 2 ^ K)
    with (Zpos m * 2 ^ (e + K) * (2 * 2 ^ (K - 1))) in E
    by (f_equal; vm_compute; reflexivity).
  rewrite qsticky_exact in E by exact PD.
  replace (2 * 2 ^ (K - 1)) with (1 * 2 ^ K) in E by (vm_compute; reflexivity).
  rewrite <- rvs_nonneg_rv in E by (vm_compute; discriminate).
  rewrite (rvs_exact_small 1) in E by (vm_compute; reflexivity).
  fold (div (S754_finite false m e) (S754_finite false m e)) in *.
  destruct (good_nonneg_cases _ G ltac:(rewrite E; vm_compute; discriminate))
    as [[s Hz] | (m' & e' & Hf & B')].
  - rewrite Hz in E. vm_compute in E. discriminate.
  - rewrite Hf in *. rewrite FV_finite in E. cbn [sgn] in E.
    change one with (S754_finite false 8388608 (-23)).
    apply FV_inj_pos; [exact B' | reflexivity |].
    rewrite E. vm_compute. reflexivity.
Qed.

End DivFacts.

(** ** The slice-length mapping *)

Module SliceLengthFacts.
Import F32 DivFacts FluxControl.

Lemma const_facts :
  (good nine /\ FV nine = 9 * 2 ^ K) /\
  (good one /\ FV one = 1 * 2 ^ K) /\
  (good ten /\ FV ten = 10 * 2 ^ K) /\
  (good span /\ FV span = 400 * 2 ^ K) /\
  (good MIN_SLICE_LENGTH_MS /\ FV MIN_SLICE_LENGTH_MS = 100 * 2 ^ K).
Proof. vm_compute. repeat split; reflexivity. Qed.

Lemma pK : 0 < 2 ^ K.
Proof. apply pow2_pos. unfold K. lia. Qed.

Lemma rvs_small_le V B :
  V <= B * 2 ^ K -> Z.abs B < 2 ^ 24 -> rvs V <= B * 2 ^ K.
Proof.
  intros H HB. rewrite <- (rvs_exact_small B HB). apply rvs_mono. exact H.
Qed.

Lemma rvs_small_ge V B :
  B * 2 ^ K <= V -> Z.abs B < 2 ^ 24 -> B * 2 ^ K <= rvs V.
Proof.
  intros H HB. rewrite <- (rvs_exact_small B HB). apply rvs_mono. exact H.
Qed.

(** A product with a small non-negative constant. *)
Lemma mul_const_spec k x n B :
  good k -> FV k = n * 2 ^ K -> 0 <= n < 2 ^ 24 ->
  good x -> 0 <= FV x <= B * 2 ^ K -> 0 <= B < 2 ^ 24 ->
  (good (mul k x) /\ FV (mul k x) = rvs (n * FV x)) /\
  (good (mul x k) /\ FV (mul x k) = rvs (n * FV x)).
Proof.
  intros Gk Ek Hn Gx Hx HB. pose proof pK as P.
  assert (Hlim : n * 2 ^ K * FV x < 2 ^ (127 + K) * 2 ^ K).
  { assert (n * FV x <= 2 ^ 24 * (B * 2 ^ K))
      by (apply Z.mul_le_mono_nonneg; lia).
    assert (2 ^ 24 * (B * 2 ^ K) < 2 ^ 24 * (2 ^ 24 * 2 ^ K)).
    { apply Z.mul_lt_mono_pos_l; [reflexivity|].
      apply Z.mul_lt_mono_pos_r; lia. }
    assert (2 ^ 24 * (2 ^ 24 * 2 ^ K) < 2 ^ (127 + K))
      by (vm_compute; reflexivity).
    replace (n * 2 ^ K * FV x) with (n * FV x * 2 ^ K) by ring.
    apply Z.mul_lt_mono_pos_r; lia. }
  assert (Hnn : 0 <= n * 2 ^ K * FV x).
  { apply Z.mul_nonneg_nonneg; [|lia]. apply Z.mul_nonneg_nonneg; lia. }
  split.
  - destruct (SFmul_spec k x Gk Gx) as (G & W & EW & EV).
    { rewrite Ek, Z.abs_eq by exact Hnn. exact Hlim. }
    split; [exact G|]. unfold mul. rewrite EV. f_equal.
    rewrite Ek in EW. apply (Z.mul_cancel_r _ _ (2 ^ K)); [lia|].
    rewrite EW. ring.
  - destruct (SFmul_spec x k Gx Gk) as (G & W & EW & EV).
    { rewrite Ek, Z.mul_comm, Z.abs_eq by exact Hnn. exact Hlim. }
    split; [exact G|]. unfold mul. rewrite EV. f_equal.
    rewrite Ek in EW. apply (Z.mul_cancel_r _ _ (2 ^ K)); [lia|].
    rewrite EW. ring.
Qed.

(** A sum with a small non-negative constant. *)
Lemma add_const_spec k x n B :
  good k -> FV k = n * 2 ^ K -> 0 <= n < 2 ^ 24 ->
  good x -> 0 <= FV x <= B * 2 ^ K -> 0 <= B < 2 ^ 24 ->
  good (add k x) /\ FV (add k x) = rvs (n * 2 ^ K + FV x).
Proof.
  intros Gk Ek Hn Gx Hx HB. pose proof pK as P.
  destruct (SFadd_spec k x Gk Gx) as (G & EV).
  { rewrite Ek, Z.abs_eq by nia.
    assert (n * 2 ^ K + B * 2 ^ K < 2 ^ 25 * 2 ^ K) by nia.
    assert (2 ^ 25 * 2 ^ K < 2 ^ (127 + K)) by (vm_compute; reflexivity).
    lia. }
  split; [exact G|]. unfold add. rewrite EV, Ek. reflexivity.
Qed.

Lemma leb_of_FV x y : good x -> good y -> FV x <= FV y -> leb x y = true.
Proof.
  intros Gx Gy H. unfold leb. rewrite (SFleb_FV x y Gx Gy).
  apply Z.leb_le. exact H.
Qed.

Lemma FV_of_leb x y : good x -> good y -> leb x y = true -> FV x <= FV y.
Proof.
  intros Gx Gy H. unfold leb in H. rewrite (SFleb_FV x y Gx Gy) in H.
  apply Z.leb_le. exact H.
Qed.

Section Response.
Variable logf : float -> float.
Hypothesis Hlog : logf_ok logf.

Let L : float := logf ten.

Lemma logf_ten : good L /\ 0 < FV L.
Proof.
  destruct Hlog as (_ & Hfin & _ & Hpos).
  destruct const_facts as (_ & (G1 & E1) & (G10 & E10) & _).
  assert (G : good L).
  { apply Hfin; [exact G10 | |].
    - apply (leb_of_FV one ten G1 G10).
      rewrite E1, E10.
      pose proof pK. lia.
    - apply (leb_of_FV ten ten G10 G10). apply Z.le_refl. }
  split; [exact G|].
  change (SFltb zero L = true) in Hpos.
  rewrite (SFltb_FV zero L (good_zero false) G) in Hpos.
  apply Z.ltb_lt in Hpos. exact Hpos.
Qed.

(** The value of the logarithm's argument, [1.0f + 9.0f * c]. *)
Lemma log_arg_spec c :
  knob01 c ->
  good (add one (mul nine c)) /\
  FV (add one (mul nine c)) = rvs (1 * 2 ^ K + rvs (9 * FV c)) /\
  1 * 2 ^ K <= FV (add one (mul nine c)) <= 10 * 2 ^ K.
Proof.
  intros [Gc Hc]. pose proof pK as P.
  destruct const_facts as ((G9 & E9) & (G1 & E1) & _).
  destruct (mul_const_spec nine c 9 1 G9 E9 ltac:(lia) Gc ltac:(lia)
              ltac:(lia)) as [[Gm Em] _].
  assert (Bm : 0 <= FV (mul nine c) <= 9 * 2 ^ K).
  { rewrite Em. split.
    - apply rvs_nonneg. lia.
    - apply rvs_small_le; [lia | reflexivity]. }
  destruct (add_const_spec one (mul nine c) 1 9 G1 E1 ltac:(lia) Gm Bm
              ltac:(lia)) as [Ga Ea].
  split; [exact Ga|]. split; [rewrite Ea, Em; reflexivity|].
  rewrite Ea. split.
  - apply rvs_small_ge; [lia | reflexivity].
  - apply rvs_small_le; [lia | reflexivity].
Qed.

(** The logarithm of the argument lies between 0 and [logf 10]. *)
Lemma log_value_spec c :
  knob01 c ->
  good (logf (add one (mul nine c))) /\
  0 <= FV (logf (add one (mul nine c))) <= FV L.
Proof.
  intro Hc. destruct (log_arg_spec c Hc) as (Ga & _ & Ba).
  destruct Hlog as (H1 & Hfin & Hmono & _).
  destruct const_facts as (_ & (G1 & E1) & (G10 & E10) & _).
  fold ten in E10, G10.
  destruct logf_ten as [GL _].
  set (a := add one (mul nine c)) in *.
  assert (La : leb one a = true) by (apply leb_of_FV; [| |rewrite E1]; tauto).
  assert (Ua : leb a ten = true) by (apply leb_of_FV; [| |rewrite E10]; tauto).
  assert (Gl : good (logf a)) by (apply Hfin; assumption).
  split; [exact Gl|]. split.
  - assert (M : leb (logf one) (logf a) = true).
    { apply Hmono; try assumption.
      apply leb_of_FV; [exact G1 | exact G1 | apply Z.le_refl]. }
    rewrite H1 in M.
    apply (FV_of_leb zero (logf a) (good_zero false) Gl) in M. exact M.
  - assert (M : leb (logf a) (logf ten) = true).
    { apply Hmono; try assumption.
      apply leb_of_FV; [exact G10 | exact G10 | apply Z.le_refl]. }
    apply (FV_of_leb (logf a) L Gl GL) in M. exact M.
Qed.

(** From the logarithm to milliseconds. *)
Lemma scale_spec l :
  good l -> 0 <= FV l <= FV L ->
  let t := add MIN_SLICE_LENGTH_MS (mul (div l L) span) in
  good t /\
  FV t = rvs (100 * 2 ^ K
              + rvs (400 * rv (qsticky 1 (FV l * 2 ^ K) (FV L)))).
Proof.
  intros Gl Bl t. pose proof pK as P.
  destruct logf_ten as [GL PL].
  destruct const_facts as (_ & _ & _ & (G4 & E4) & (G100 & E100)).
  assert (P127 : 1 < 2 ^ 127) by (vm_compute; reflexivity).
  destruct (div_nonneg_spec l L Gl GL ltac:(lia) PL) as [Gd Ed].
  { assert (FV L * 1 < FV L * 2 ^ 127)
      by (apply Z.mul_lt_mono_pos_l; lia). lia. }
  assert (Bd : 0 <= FV (div l L) <= 1 * 2 ^ K).
  { rewrite Ed. split.
    - apply rv_nonneg. apply qsticky_nonneg; [|exact PL].
      apply Z.mul_nonneg_nonneg; lia.
    - rewrite <- rvs_nonneg_rv
        by (apply qsticky_nonneg; [apply Z.mul_nonneg_nonneg; lia | exact PL]).
      apply rvs_small_le; [|reflexivity].
      replace (1 * 2 ^ K) with (2 * 2 ^ (K - 1)) by (vm_compute; reflexivity).
      rewrite <- (qsticky_exact (2 ^ (K - 1)) (FV L) PL).
      apply qsticky_mono; [|exact PL]. split.
      + apply Z.mul_nonneg_nonneg; lia.
      + replace (2 * 2 ^ (K - 1)) with (2 ^ K) by (vm_compute; reflexivity).
        apply Z.mul_le_mono_nonneg_r; lia. }
  destruct (mul_const_spec span (div l L) 400 1 G4 E4 ltac:(lia) Gd Bd
              ltac:(lia)) as [_ [Gm Em]].
  assert (Bm : 0 <= FV (mul (div l L) span) <= 400 * 2 ^ K).
  { rewrite Em. split.
    - apply rvs_nonneg. lia.
    - apply rvs_small_le; [lia | reflexivity]. }
  destruct (add_const_spec MIN_SLICE_LENGTH_MS (mul (div l L) span) 100 400
              G100 E100 ltac:(lia) Gm Bm ltac:(lia)) as [Ga Ea].
  split; [exact Ga|]. unfold t. rewrite Ea, Em, Ed. reflexivity.
Qed.

Lemma slice_length_ms_mono c1 c2 :
  knob01 c1 -> knob01 c2 -> FV c1 <= FV c2 ->
  leb (FluxControl.slice_length_ms logf c1)
      (FluxControl.slice_length_ms logf c2) = true.
Proof.
  intros H1 H2 Hle. pose proof pK as P.
  destruct logf_ten as [GL PL].
  destruct (log_arg_spec c1 H1) as (Ga1 & Ea1 & Ba1).
  destruct (log_arg_spec c2 H2) as (Ga2 & Ea2 & Ba2).
  destruct (log_value_spec c1 H1) as (Gl1 & Bl1).
  destruct (log_value_spec c2 H2) as (Gl2 & Bl2).
  destruct (scale_spec _ Gl1 Bl1) as (Gt1 & Et1).
  destruct (scale_spec _ Gl2 Bl2) as (Gt2 & Et2).
  fold nine in *.
  assert (Ma : FV (add one (mul nine c1)) <= FV (add one (mul nine c2))).
  { rewrite Ea1, Ea2. apply rvs_mono. apply Z.add_le_mono_l.
    apply rvs_mono. lia. }
  assert (Ml : FV (logf (add one (mul nine c1)))
               <= FV (logf (add one (mul nine c2)))).
  { apply FV_of_leb; try assumption.
    destruct Hlog as (_ & _ & Hmono & _).
    destruct const_facts as (_ & (G1 & E1) & (G10 & E10) & _).
    apply Hmono; try assumption.
    - apply leb_of_FV; [exact G1 | exact Ga1 | rewrite E1; tauto].
    - apply leb_of_FV; assumption.
    - apply leb_of_FV; [exact Ga2 | exact G10 |].
      change (FV (add one (mul nine c2)) <= FV ten). rewrite E10. tauto. }
  unfold FluxControl.slice_length_ms. cbv zeta.
  fold nine ten span L.
  apply leb_of_FV; [exact Gt1 | exact Gt2 |].
  rewrite Et1, Et2.
  apply rvs_mono. apply Z.add_le_mono_l. apply rvs_mono.
  apply Z.mul_le_mono_nonneg_l; [lia|].
  apply rv_mono. split.
  - apply qsticky_nonneg; [|exact PL]. apply Z.mul_nonneg_nonneg; lia.
  - apply qsticky_mono; [|exact PL]. split.
    + apply Z.mul_nonneg_nonneg; lia.
    + apply Z.mul_le_mono_nonneg_r; lia.
Qed.

Lemma slice_length_ms_at_zero :
  FluxControl.slice_length_ms logf zero = MIN_SLICE_LENGTH_MS.
Proof.
  destruct logf_ten as [GL PL].
  destruct (good_nonneg_cases L GL ltac:(lia)) as [[s Hz] | (m & e & Hf & B)].
  { rewrite Hz in PL. cbn [FV] in PL. lia. }
  unfold FluxControl.slice_length_ms. cbv zeta.
  replace (add one (mul (of_int 9) zero)) with one
    by (vm_compute; reflexivity).
  destruct Hlog as (-> & _). fold ten. fold L. rewrite Hf.
  reflexivity.
Qed.

Lemma slice_length_ms_at_one :
  FluxControl.slice_length_ms logf one = MAX_SLICE_LENGTH_MS.
Proof.
  destruct logf_ten as [GL PL].
  destruct (good_nonneg_cases L GL ltac:(lia)) as [[s Hz] | (m & e & Hf & B)].
  { rewrite Hz in PL. cbn [FV] in PL. lia. }
  unfold FluxControl.slice_length_ms. cbv zeta.
  replace (add one (mul (of_int 9) one)) with ten
    by (vm_compute; reflexivity).
  fold ten. fold L. rewrite Hf, (div_self m e B).
  vm_compute. reflexivity.
Qed.

End Response.
End SliceLengthFacts.

(** Ordered knob values between 0 and 1 are finite. *)
Lemma ordered_knobs c1 c2 :
  valid_binary F32.prec F32.emax c1 = true ->
  valid_binary F32.prec F32.emax c2 = true ->
  F32.leb F32.zero c1 = true -> F32.leb c1 c2 = true ->
  F32.leb c2 F32.one = true ->
  knob01 c1 /\ knob01 c2 /\ F32.FV c1 <= F32.FV c2.
Proof.
  intros V1 V2 H0 H12 H1.
  assert (F2 : F32.is_finite c2 = true).
  { destruct c2 as [s|[|]| |s m e]; try reflexivity; try discriminate.
    destruct c1 as [s|[|]| |s m e]; discriminate. }
  assert (F1 : F32.is_finite c1 = true).
  { destruct c1 as [s|[|]| |s m e]; try reflexivity; try discriminate.
    destruct c2 as [s|[|]| |s m e]; discriminate. }
  assert (G1 : F32.good c1) by (split; assumption).
  assert (G2 : F32.good c2) by (split; assumption).
  pose proof (SliceLengthFacts.FV_of_leb _ _ (good_zero false) G1 H0) as L0.
  pose proof (SliceLengthFacts.FV_of_leb _ _ G1 G2 H12) as L12.
  pose proof (SliceLengthFacts.FV_of_leb _ _ G2 (proj1 good_one) H1) as L1.
  rewrite (proj2 good_one) in L1. cbn [F32.FV F32.zero] in L0.
  repeat split; try assumption; lia.
Qed.

(** A stand-in for [logf] that meets [logf_ok]: x - 1. *)
Lemma logf_ok_shift : logf_ok (fun x => F32.sub x F32.one).
Proof.
  destruct good_one as [G1 E1].
  assert (P : 0 < 2 ^ F32.K) by (apply pow2_pos; unfold F32.K; lia).
  assert (E10 : F32.FV (F32.of_int 10) = 10 * 2 ^ F32.K)
    by (vm_compute; reflexivity).
  assert (G10 : F32.good (F32.of_int 10)) by (split; reflexivity).
  assert (Big : 10 * 2 ^ F32.K < 2 ^ (127 + F32.K)) by (vm_compute; reflexivity).
  assert (Hsub : forall x, F32.good x ->
            F32.leb F32.one x = true -> F32.leb x (F32.of_int 10) = true ->
            F32.good (F32.sub x F32.one) /\
            F32.FV (F32.sub x F32.one) = F32.rvs (F32.FV x - 2 ^ F32.K)).
  { intros x Gx Lx Ux.
    apply (SliceLengthFacts.FV_of_leb _ _ G1 Gx) in Lx.
    apply (SliceLengthFacts.FV_of_leb _ _ Gx G10) in Ux.
    rewrite E1 in Lx. rewrite E10 in Ux.
    destruct (SFsub_spec x F32.one Gx G1) as [G E].
    { rewrite E1, Z.abs_eq by lia. lia. }
    rewrite E1 in E. split; assumption. }
  split; [vm_compute; reflexivity|].
  split; [intros x Gx Lx Ux; apply (Hsub x Gx Lx Ux)|].
  split; [|vm_compute; reflexivity].
  intros x y Gx Gy Lx Lxy Uy.
  assert (Ux : F32.leb x (F32.of_int 10) = true).
  { apply (SliceLengthFacts.leb_of_FV _ _ Gx G10).
    apply (SliceLengthFacts.FV_of_leb _ _ Gx Gy) in Lxy.
    apply (SliceLengthFacts.FV_of_leb _ _ Gy G10) in Uy. lia. }
  assert (Ly : F32.leb F32.one y = true).
  { apply (SliceLengthFacts.leb_of_FV _ _ G1 Gy).
    apply (SliceLengthFacts.FV_of_leb _ _ Gx Gy) in Lxy.
    apply (SliceLengthFacts.FV_of_leb _ _ G1 Gx) in Lx. lia. }
  destruct (Hsub x Gx Lx Ux) as [Ga Ea].
  destruct (Hsub y Gy Ly Uy) as [Gb Eb].
  apply (SliceLengthFacts.leb_of_FV _ _ Ga Gb).
  rewrite Ea, Eb. apply rvs_mono.
  apply (SliceLengthFacts.FV_of_leb _ _ Gx Gy) in Lxy. lia.
Qed.

(** Claim C7: for every [logf] that is exact at 1, finite and
    non-decreasing on [1, 10] and positive at 10, the slice-length mapping
    of [ProcessParameters], computed in single precision as the code does,
    sends control 0 to exactly 100 ms and control 1 to exactly 500 ms, and
    is non-decreasing on [0, 1]. *)
Theorem slice_length_ms_response (logf : F32.float -> F32.float)
    (c1 c2 : F32.float) :
  logf_ok logf ->
  valid_binary F32.prec F32.emax c1 = true ->
  valid_binary F32.prec F32.emax c2 = true ->
  F32.leb F32.zero c1 = true -> F32.leb c1 c2 = true ->
  F32.leb c2 F32.one = true ->
  FluxControl.slice_length_ms logf F32.zero = MIN_SLICE_LENGTH_MS /\
  FluxControl.slice_length_ms logf F32.one = MAX_SLICE_LENGTH_MS /\
  F32.leb (FluxControl.slice_length_ms logf c1)
          (FluxControl.slice_length_ms logf c2) = true.
Proof.
  intros Hlog V1 V2 H0 H12 H1.
  destruct (ordered_knobs c1 c2 V1 V2 H0 H12 H1) as (K1 & K2 & Hle).
  split; [apply SliceLengthFacts.slice_length_ms_at_zero; exact Hlog|].
  split; [apply SliceLengthFacts.slice_length_ms_at_one; exact Hlog|].
  apply SliceLengthFacts.slice_length_ms_mono; assumption.
Qed.

Lemma slice_length_ms_response_witness :
  FluxControl.slice_length_ms (fun x => F32.sub x F32.one) F32.zero
  = MIN_SLICE_LENGTH_MS /\
  FluxControl.slice_length_ms (fun x => F32.sub x F32.one) F32.one
  = MAX_SLICE_LENGTH_MS /\
  F32.leb
    (FluxControl.slice_length_ms (fun x => F32.sub x F32.one) (F32.lit 25 2))
    (FluxControl.slice_length_ms (fun x => F32.sub x F32.one) (F32.lit 5 1))
  = true.
Proof.
  apply (slice_length_ms_response (fun x => F32.sub x F32.one)
           (F32.lit 25 2) (F32.lit 5 1)).
  - exact logf_ok_shift.
  - vm_compute. reflexivity.
  - vm_compute. reflexivity.
  - vm_compute. reflexivity.
  - vm_compute. reflexivity.
  - vm_compute. reflexivity.
Defined.

(** * Further properties of the firmware *)

(** ** The weighted repeat table over the integer draw *)

Module DrawFacts.
Import F32 DivFacts.

Lemma of_int_good n :
  Z.abs n < 2 ^ 24 -> good (of_int n) /\ FV (of_int n) = n * 2 ^ K.
Proof. intro H. apply of_int_spec. exact H. Qed.

(** [(float)r / 10000.0f] never decreases with [r]. *)
Lemma draw_spec r :
  0 <= r < 10000 ->
  good (div (of_int r) (of_int 10000)) /\
  FV (div (of_int r) (of_int 10000))
  = rv (qsticky 1 (r * 2 ^ K * 2 ^ K) (10000 * 2 ^ K)).
Proof.
  intro Hr.
  assert (P : 0 < 2 ^ K) by (apply pow2_pos; unfold K; lia).
  destruct (of_int_good r) as [Gr Er]; [change (2 ^ 24) with 16777216; lia|].
  destruct (of_int_good 10000) as [Gd Ed]; [reflexivity|].
  assert (P127 : 1 < 2 ^ 127) by reflexivity.
  destruct (div_nonneg_spec (of_int r) (of_int 10000) Gr Gd) as [G E].
  - rewrite Er. apply Z.mul_nonneg_nonneg; lia.
  - rewrite Ed. lia.
  - rewrite Er, Ed.
    assert (r * 2 ^ K < 10000 * 2 ^ K) by (apply Z.mul_lt_mono_pos_r; lia).
    assert (10000 * 2 ^ K * 1 < 10000 * 2 ^ K * 2 ^ 127)
      by (apply Z.mul_lt_mono_pos_l; lia).
    lia.
  - split; [exact G|]. rewrite E, Er, Ed. reflexivity.
Qed.

Lemma draw_mono r1 r2 :
  0 <= r1 -> r1 <= r2 -> r2 < 10000 ->
  FV (div (of_int r1) (of_int 10000)) <= FV (div (of_int r2) (of_int 10000)).
Proof.
  intros H0 H12 H2.
  assert (P : 0 < 2 ^ K) by (apply pow2_pos; unfold K; lia).
  rewrite (proj2 (draw_spec r1 ltac:(lia))), (proj2 (draw_spec r2 ltac:(lia))).
  assert (N1 : 0 <= r1 * 2 ^ K * 2 ^ K)
    by (apply Z.mul_nonneg_nonneg; [apply Z.mul_nonneg_nonneg|]; lia).
  assert (PD : 0 < 10000 * 2 ^ K) by lia.
  apply rv_mono. split.
  - apply qsticky_nonneg; assumption.
  - apply qsticky_mono; [|exact PD]. split; [exact N1|].
    apply Z.mul_le_mono_nonneg_r; [lia|].
    apply Z.mul_le_mono_nonneg_r; lia.
Qed.

(** A float threshold on the draw is an integer threshold on [r]. *)
Lemma draw_threshold c T r :
  good c -> 1 <= T < 10000 ->
  (FV (div (of_int (T - 1)) (of_int 10000)) <? FV c) = true ->
  (FV c <=? FV (div (of_int T) (of_int 10000))) = true ->
  0 <= r < 10000 ->
  ltb (div (of_int r) (of_int 10000)) c = (r <? T).
Proof.
  intros Gc HT Hlo Hhi Hr.
  apply Z.ltb_lt in Hlo. apply Z.leb_le in Hhi.
  unfold ltb. rewrite (SFltb_FV _ c (proj1 (draw_spec r Hr)) Gc).
  destruct (Z.ltb_spec r T) as [L|G].
  - apply Z.ltb_lt.
    pose proof (draw_mono r (T - 1) ltac:(lia) ltac:(lia) ltac:(lia)). lia.
  - apply Z.ltb_ge.
    pose proof (draw_mono T r ltac:(lia) ltac:(lia) ltac:(lia)). lia.
Qed.

Lemma lit_good n : 0 < n < 100 -> good (lit n 2).
Proof.
  intro Hn.
  assert (P : 0 < 2 ^ K) by (apply pow2_pos; unfold K; lia).
  destruct (of_int_good n) as [Gn En]; [change (2 ^ 24) with 16777216; lia|].
  destruct (of_int_good 100) as [Gd Ed]; [reflexivity|].
  assert (P127 : 1 < 2 ^ 127) by reflexivity.
  unfold lit. change (10 ^ 2) with 100.
  apply (div_nonneg_spec (of_int n) (of_int 100) Gn Gd).
  - rewrite En. apply Z.mul_nonneg_nonneg; lia.
  - rewrite Ed. lia.
  - rewrite En, Ed.
    assert (n * 2 ^ K < 100 * 2 ^ K) by (apply Z.mul_lt_mono_pos_r; lia).
    assert (100 * 2 ^ K * 1 < 100 * 2 ^ K * 2 ^ 127)
      by (apply Z.mul_lt_mono_pos_l; lia).
    lia.
Qed.

Lemma rem_draw g : 0 <= Z.rem (fst (rand g)) 10000 < 10000.
Proof. apply Z.rem_bound_pos; [apply rand_nonneg | lia]. Qed.

(** The seven comparisons of [CalculateRepeatCount]. *)
Lemma threshold_table r :
  0 <= r < 10000 ->
  let d := div (of_int r) (of_int 10000) in
  ltb d (lit 95 2) = (r <? 9500) /\
  ltb d (lit 60 2) = (r <? 6000) /\
  ltb d (lit 90 2) = (r <? 9000) /\
  ltb d (lit 30 2) = (r <? 3000) /\
  ltb d (lit 70 2) = (r <? 7000) /\
  ltb d (lit 10 2) = (r <? 1000) /\
  ltb d (lit 40 2) = (r <? 4000).
Proof.
  intros Hr d. unfold d.
  repeat split;
    (apply draw_threshold;
     [apply lit_good; lia | lia | vm_compute; reflexivity
     | vm_compute; reflexivity | exact Hr]).
Qed.

End DrawFacts.

(** Property X1.
    [CalculateRepeatCount] is its weighted table, with every float
    comparison of the draw an exact integer threshold: the repeat count
    depends only on the bin of the stutter knob and on [rand() % 10000],
    with chances 95/5, 60/30/10, 30/40/20/10 and 10/30/30/30 percent; no
    draw is made in the lowest bin and exactly one otherwise. *)
Theorem CalculateRepeatCount_table (k6_value : F32.float) (g : rand_state) :
  Flux.CalculateRepeatCount k6_value g
  = Some (repeat_of_draw (stutter_bin k6_value)
            (Z.rem (fst (rand g)) 10000),
          if stutter_bin k6_value =? 0 then g else snd (rand g)).
Proof.
  unfold Flux.CalculateRepeatCount, stutter_bin, Flux.random_unit.
  destruct (F32.ltb k6_value (F32.lit 1 2)); [reflexivity|].
  pose proof (DrawFacts.rem_draw g) as Hr.
  destruct (rand g) as [r0 g1]. cbn [fst snd] in *.
  destruct (DrawFacts.threshold_table _ Hr)
    as (T95 & T60 & T90 & T30 & T70 & T10 & T40).
  cbv zeta in *.
  rewrite T95, T60, T90, T30, T70, T10, T40.
  set (r := Z.rem r0 10000) in *.
  destruct (F32.ltb k6_value (F32.lit 25 2)).
  { cbn. destruct (r <? 9500); reflexivity. }
  destruct (F32.ltb k6_value (F32.lit 50 2)).
  { cbn. destruct (r <? 6000); [reflexivity|].
    destruct (r <? 9000); reflexivity. }
  destruct (F32.ltb k6_value (F32.lit 75 2)).
  { cbn. destruct (r <? 3000); [reflexivity|].
    destruct (r <? 7000); [reflexivity|]. destruct (r <? 9000); reflexivity. }
  cbn. destruct (r <? 1000); [reflexivity|].
  destruct (r <? 4000); [reflexivity|]. destruct (r <? 7000); reflexivity.
Qed.

(** Property X2.
    Whatever the knob and the draw, the repeat count is one of the four
    subdivisions 1, 2, 4, 8; below 25% it is at most 2 and below 50% at
    most 4. *)
Theorem CalculateRepeatCount_subdivisions (k6_value : F32.float)
    (g : rand_state) :
  exists n g',
    Flux.CalculateRepeatCount k6_value g = Some (n, g') /\
    (n = 1 \/ n = 2 \/ n = 4 \/ n = 8) /\
    (F32.ltb k6_value (F32.lit 25 2) = true -> n <= 2) /\
    (F32.ltb k6_value (F32.lit 50 2) = true -> n <= 4).
Proof.
  unfold Flux.CalculateRepeatCount.
  destruct (Flux.random_unit g) as [rv g1].
  destruct (F32.ltb k6_value (F32.lit 1 2)).
  { do 2 eexists. split; [reflexivity|]. repeat split; auto; lia. }
  destruct (F32.ltb k6_value (F32.lit 25 2)).
  { do 2 eexists. split; [reflexivity|].
    destruct (F32.ltb rv (F32.lit 95 2)); repeat split; auto; lia. }
  destruct (F32.ltb k6_value (F32.lit 50 2)).
  { destruct (F32.ltb rv (F32.lit 60 2));
      [|destruct (F32.ltb rv (F32.lit 90 2))];
      do 2 eexists; (split; [reflexivity|]);
      repeat split; auto; try lia; try discriminate. }
  destruct (F32.ltb k6_value (F32.lit 75 2)).
  { destruct (F32.ltb rv (F32.lit 30 2));
      [|destruct (F32.ltb rv (F32.lit 70 2));
        [|destruct (F32.ltb rv (F32.lit 90 2))]];
      do 2 eexists; (split; [reflexivity|]);
      repeat split; auto 6; try lia; try discriminate. }
  destruct (F32.ltb rv (F32.lit 10 2));
    [|destruct (F32.ltb rv (F32.lit 40 2));
      [|destruct (F32.ltb rv (F32.lit 70 2))]];
    do 2 eexists; (split; [reflexivity|]);
    repeat split; auto 6; try lia; try discriminate.
Qed.

(** ** The slice sequence: [GetNextSlice] *)

Module ShuffleFacts.
Import F32 DivFacts DrawFacts.

(** The draw is a finite number in [0, 1). *)
Lemma draw_unit r :
  0 <= r < 10000 ->
  good (div (of_int r) (of_int 10000)) /\
  0 <= FV (div (of_int r) (of_int 10000)) < 2 ^ K.
Proof.
  intro Hr. split; [apply draw_spec; exact Hr|].
  pose proof (draw_mono 0 r ltac:(lia) ltac:(lia) ltac:(lia)) as L.
  pose proof (draw_mono r 9999 ltac:(lia) ltac:(lia) ltac:(lia)) as U.
  assert (E0 : FV (div (of_int 0) (of_int 10000)) = 0) by reflexivity.
  assert (E1 : FV (div (of_int 9999) (of_int 10000)) < 2 ^ K)
    by (vm_compute; reflexivity).
  lia.
Qed.

(** No shuffle when the stutter knob is at or below zero. *)
Lemma no_shuffle_at_zero r k :
  0 <= r < 10000 -> leb k zero = true ->
  ltb (div (of_int r) (of_int 10000)) k = false.
Proof.
  intros Hr Hk. destruct (draw_unit r Hr) as [G [L _]].
  destruct (good_nonneg_cases _ G L) as [[s ->] | (m & e & -> & _)];
    destruct k as [sk|[|]| |[|] mk ek]; try reflexivity; try discriminate;
    destruct s; reflexivity.
Qed.

(** Always a shuffle when the stutter knob is at or above one. *)
Lemma shuffle_at_one r k :
  0 <= r < 10000 -> valid_binary prec emax k = true -> leb one k = true ->
  ltb (div (of_int r) (of_int 10000)) k = true.
Proof.
  intros Hr Vk Hk. destruct (draw_unit r Hr) as [G [L U]].
  destruct k as [sk|[|]| |sk mk ek]; try discriminate.
  - destruct (good_nonneg_cases _ G L) as [[s ->] | (m & e & -> & _)];
      reflexivity.
  - assert (Gk : good (S754_finite sk mk ek)) by (split; [exact Vk|reflexivity]).
    destruct good_one as [G1 E1].
    unfold leb in Hk. rewrite (SFleb_FV one _ G1 Gk) in Hk.
    apply Z.leb_le in Hk.
    unfold ltb. rewrite (SFltb_FV _ _ G Gk). apply Z.ltb_lt. lia.
Qed.

End ShuffleFacts.

(** Property X3.
    For a non-negative slice index and a positive slice count whose sum
    fits an [int] (so that neither [current + 1] nor
    [current - 1 + sliceCount] overflows), [GetNextSlice] answers with a
    slice of the active range, and the direction flag follows the mode
    whether or not the draw shuffles: reverse in mode 1, forward in
    mode 0. *)
Theorem GetNextSlice_in_range (current sliceCount : Z)
    (k6_value : F32.float) (mode : Z) (g : rand_state) :
  0 <= current -> 1 <= sliceCount ->
  current + sliceCount <= F32.INT_MAX ->
  exists nextSlice reverseFlag g',
    Flux.GetNextSlice current sliceCount k6_value mode g
    = Some (nextSlice, reverseFlag, g') /\
    0 <= nextSlice < sliceCount /\
    (mode = 1 -> reverseFlag = true) /\
    (mode = 0 -> reverseFlag = false).
Proof.
  intros Hcur Hcount Hsum.
  rewrite Flux_GetNextSlice_eq by assumption.
  destruct (Flux.random_unit g) as [rv g1].
  assert (Hnext : forall r, 0 <= r -> 0 <= Z.rem r sliceCount < sliceCount)
    by (intros; apply Z.rem_bound_pos; lia).
  destruct (F32.ltb rv k6_value).
  - pose proof (rand_nonneg g1) as R. destruct (rand g1) as [r g2].
    cbn [fst] in R.
    destruct (Z.eqb_spec mode 2) as [M2|M2];
      [destruct (rand g2) as [r3 g3]|destruct (Z.eqb_spec mode 1) as [M1|M1]];
      do 3 eexists; (split; [reflexivity|]);
      (split; [apply Hnext; lia|]); split; intro; (reflexivity || lia).
  - destruct (Z.eqb_spec mode 0) as [M0|M0];
      [|destruct (Z.eqb_spec mode 1) as [M1|M1]];
      (destruct (Z.eqb_spec mode 2) as [M2|M2];
       [destruct (rand g1) as [r3 g3]|]);
      try (destruct (Z.eqb_spec mode 1) as [M1'|M1']);
      do 3 eexists; (split; [reflexivity|]);
      (split; [apply Hnext; lia|]); split; intro; (reflexivity || lia).
Qed.

Lemma GetNextSlice_in_range_witness :
  exists nextSlice reverseFlag g',
    Flux.GetNextSlice 3 4 (F32.lit 5 1) 1 (fun _ => 0%N)
    = Some (nextSlice, reverseFlag, g') /\
    0 <= nextSlice < 4 /\
    (1 = 1 -> reverseFlag = true) /\
    (1 = 0 -> reverseFlag = false).
Proof.
  apply (GetNextSlice_in_range 3 4 (F32.lit 5 1) 1);
    [lia | lia | unfold F32.INT_MAX; lia].
Defined.

(** Property X4.
    With the stutter knob at zero, a current slice inside the active range
    and a slice count of at most 2^30 (beyond which the [int] sum
    [current - 1 + sliceCount] can overflow), the sequence is strictly
    sequential: mode 0 steps to the next slice and wraps to 0 after the
    last, mode 1 steps back and wraps to the last after 0, one draw is
    consumed, and a mode-1 step undoes a mode-0 step. *)
Theorem GetNextSlice_sequential (current sliceCount : Z)
    (k6_value : F32.float) (g : rand_state) :
  0 <= current < sliceCount -> sliceCount <= 2 ^ 30 ->
  F32.leb k6_value F32.zero = true ->
  let forward := if current + 1 <? sliceCount then current + 1 else 0 in
  let backward := if current =? 0 then sliceCount - 1 else current - 1 in
  Flux.GetNextSlice current sliceCount k6_value 0 g
  = Some (forward, false, snd (rand g)) /\
  Flux.GetNextSlice current sliceCount k6_value 1 g
  = Some (backward, true, snd (rand g)) /\
  Flux.GetNextSlice forward sliceCount k6_value 1 (snd (rand g))
  = Some (current, true, snd (rand (snd (rand g)))).
Proof.
  intros Hcur Hmax Hk forward backward.
  assert (Hmax' : sliceCount <= 1073741824) by exact Hmax.
  assert (Himax : F32.INT_MAX = 2147483647) by reflexivity.
  assert (Hno : forall g0,
            F32.ltb (fst (Flux.random_unit g0)) k6_value = false).
  { intro g0. unfold Flux.random_unit.
    pose proof (DrawFacts.rem_draw g0) as Hr.
    destruct (rand g0) as [r0 g1]. cbn [fst] in *.
    apply ShuffleFacts.no_shuffle_at_zero; assumption. }
  assert (Hsnd : forall g0, snd (Flux.random_unit g0) = snd (rand g0)).
  { intro g0. unfold Flux.random_unit. destruct (rand g0). reflexivity. }
  assert (Fw : Z.rem (current + 1) sliceCount = forward).
  { unfold forward. destruct (Z.ltb_spec (current + 1) sliceCount).
    - apply Z.rem_small. lia.
    - replace (current + 1) with sliceCount by lia. apply Z.rem_same. lia. }
  assert (Bw : Z.rem (current - 1 + sliceCount) sliceCount = backward).
  { unfold backward. destruct (Z.eqb_spec current 0) as [->|N0].
    - replace (0 - 1 + sliceCount) with (sliceCount - 1) by lia.
      apply Z.rem_small. lia.
    - replace (current - 1 + sliceCount) with (current - 1 + 1 * sliceCount)
        by lia.
      rewrite Z.rem_add by nia. apply Z.rem_small. lia. }
  assert (Rt : Z.rem (forward - 1 + sliceCount) sliceCount = current).
  { unfold forward. destruct (Z.ltb_spec (current + 1) sliceCount).
    - replace (current + 1 - 1 + sliceCount) with (current + 1 * sliceCount)
        by lia.
      rewrite Z.rem_add by nia. apply Z.rem_small. lia.
    - replace (0 - 1 + sliceCount) with current by lia.
      apply Z.rem_small. lia. }
  assert (Hfw : 0 <= forward < sliceCount).
  { unfold forward. destruct (Z.ltb_spec (current + 1) sliceCount); lia. }
  rewrite !Flux_GetNextSlice_eq by lia.
  pose proof (Hno g) as N1. pose proof (Hsnd g) as S1.
  pose proof (Hno (snd (rand g))) as N2. pose proof (Hsnd (snd (rand g))) as S2.
  destruct (Flux.random_unit g) as [rv1 g1].
  destruct (Flux.random_unit (snd (rand g))) as [rv2 g2].
  cbn [fst snd] in *. rewrite N1, N2. cbn. rewrite Fw, Bw, Rt.
  subst g1 g2. repeat split; reflexivity.
Qed.

Lemma GetNextSlice_sequential_witness :
  Flux.GetNextSlice 3 4 F32.zero 0 (fun _ => 7%N)
  = Some (0, false, snd (rand (fun _ => 7%N))) /\
  Flux.GetNextSlice 3 4 F32.zero 1 (fun _ => 7%N)
  = Some (2, true, snd (rand (fun _ => 7%N))) /\
  Flux.GetNextSlice 0 4 F32.zero 1 (snd (rand (fun _ => 7%N)))
  = Some (3, true, snd (rand (snd (rand (fun _ => 7%N))))).
Proof.
  apply (GetNextSlice_sequential 3 4 F32.zero (fun _ => 7%N));
    [lia | lia | reflexivity].
Defined.

(** Property X5.
    With the stutter knob at or above one every slice change is a random
    jump: the next slice is [rand() % sliceCount] in every mode. *)
Theorem GetNextSlice_full_stutter (current sliceCount : Z)
    (k6_value : F32.float) (mode : Z) (g : rand_state) :
  1 <= sliceCount ->
  valid_binary F32.prec F32.emax k6_value = true ->
  F32.leb F32.one k6_value = true ->
  exists reverseFlag g',
    Flux.GetNextSlice current sliceCount k6_value mode g
    = Some (Z.rem (fst (rand (snd (rand g)))) sliceCount, reverseFlag, g').
Proof.
  intros Hcount Vk Hk. unfold Flux.GetNextSlice, Flux.random_unit.
  pose proof (DrawFacts.rem_draw g) as Hr.
  destruct (rand g) as [r0 g1]. cbn [fst snd] in *.
  rewrite (ShuffleFacts.shuffle_at_one _ _ Hr Vk Hk).
  pose proof (rand_nonneg g1) as Hr1.
  destruct (rand g1) as [r1 g2]. cbn [fst] in *.
  rewrite int_rem_ok by lia.
  destruct (mode =? 2); [destruct (rand g2) as [r2 g3]|destruct (mode =? 1)];
    do 2 eexists; reflexivity.
Qed.

Lemma GetNextSlice_full_stutter_witness :
  exists reverseFlag g',
    Flux.GetNextSlice 2 4 F32.one 0 (fun _ => 7%N)
    = Some (Z.rem (fst (rand (snd (rand (fun _ => 7%N))))) 4,
            reverseFlag, g').
Proof.
  apply (GetNextSlice_full_stutter 2 4 F32.one 0 (fun _ => 7%N));
    [lia | reflexivity | reflexivity].
Defined.

(** ** The crossfade envelope *)

Module FadeFacts.
Import F32 DivFacts DrawFacts.

(** A ratio of two sample counts, [(float)a / (float)b] with
    [0 <= a <= b]: a finite number in [0, 1]. *)
Lemma ratio_unit a b :
  0 <= a <= b -> 0 < b < 2 ^ 24 ->
  good (div (of_int a) (of_int b)) /\
  0 <= FV (div (of_int a) (of_int b)) <= 2 ^ K.
Proof.
  intros Ha Hb. pose proof SliceLengthFacts.pK as P.
  destruct (of_int_good a) as [Ga Ea]; [lia|].
  destruct (of_int_good b) as [Gb Eb]; [lia|].
  assert (P127 : 1 < 2 ^ 127) by reflexivity.
  assert (Na : 0 <= a * 2 ^ K) by (apply Z.mul_nonneg_nonneg; lia).
  assert (Pb : 0 < b * 2 ^ K) by (apply Z.mul_pos_pos; lia).
  assert (Lab : a * 2 ^ K <= b * 2 ^ K) by (apply Z.mul_le_mono_nonneg_r; lia).
  destruct (div_nonneg_spec (of_int a) (of_int b) Ga Gb) as [G E].
  - rewrite Ea. exact Na.
  - rewrite Eb. exact Pb.
  - rewrite Ea, Eb.
    assert (b * 2 ^ K * 1 < b * 2 ^ K * 2 ^ 127)
      by (apply Z.mul_lt_mono_pos_l; lia).
    lia.
  - split; [exact G|]. rewrite E, Ea, Eb.
    assert (NN : 0 <= a * 2 ^ K * 2 ^ K) by (apply Z.mul_nonneg_nonneg; lia).
    split.
    + apply rv_nonneg. apply qsticky_nonneg; assumption.
    + rewrite <- rvs_nonneg_rv by (apply qsticky_nonneg; assumption).
      apply Z.le_trans with (1 * 2 ^ K); [|lia].
      apply SliceLengthFacts.rvs_small_le; [|reflexivity].
      replace (1 * 2 ^ K) with (2 * 2 ^ (K - 1)) by reflexivity.
      rewrite <- (qsticky_exact (2 ^ (K - 1)) (b * 2 ^ K) Pb).
      apply qsticky_mono; [|exact Pb]. split; [exact NN|].
      replace (2 * 2 ^ (K - 1)) with (2 ^ K) by reflexivity.
      rewrite (Z.mul_comm (b * 2 ^ K) (2 ^ K)).
      rewrite (Z.mul_comm (a * 2 ^ K) (2 ^ K)).
      apply Z.mul_le_mono_nonneg_l; lia.
Qed.

(** [1.0f - q] for [q] in [0, 1] is again in [0, 1]. *)
Lemma one_minus_unit q :
  good q -> 0 <= FV q <= 2 ^ K ->
  good (sub one q) /\ 0 <= FV (sub one q) <= 2 ^ K.
Proof.
  intros Gq Hq. pose proof SliceLengthFacts.pK as P.
  destruct good_one as [G1 E1].
  destruct (SFsub_spec one q G1 Gq) as [G E].
  { rewrite E1, Z.abs_eq by lia.
    assert (2 ^ K < 2 ^ (127 + K)) by reflexivity. lia. }
  split; [exact G|]. unfold sub. rewrite E, E1. split.
  - apply rvs_nonneg. lia.
  - apply Z.le_trans with (1 * 2 ^ K); [|lia].
    apply SliceLengthFacts.rvs_small_le; [lia | reflexivity].
Qed.

End FadeFacts.

(** Property X6.
    The crossfade envelope is a finite gain between 0 and 1 at every
    position of a slice; it is exactly 0 on the first sample of every
    slice and exactly 1 between the fade-in and the fade-out. *)
Theorem fade_envelope_unit_range (playbackPosition fadeLength sliceLen : Z) :
  0 <= playbackPosition < sliceLen -> sliceLen <= MAX_SLICE_LENGTH ->
  1 <= fadeLength <= MAX_SLICE_LENGTH ->
  let env := fade_envelope playbackPosition fadeLength sliceLen in
  F32.good env /\
  F32.leb F32.zero env = true /\ F32.leb env F32.one = true /\
  (playbackPosition = 0 -> env = F32.zero) /\
  (fadeLength <= playbackPosition < sliceLen - fadeLength -> env = F32.one).
Proof.
  intros Hpos Hlen Hfade env. unfold MAX_SLICE_LENGTH in *.
  destruct good_one as [G1 E1]. pose proof SliceLengthFacts.pK as P.
  assert (R : F32.good env /\ 0 <= F32.FV env <= 2 ^ F32.K).
  { unfold env, fade_envelope.
    set (fin := if playbackPosition <? fadeLength
                then F32.div (F32.of_int playbackPosition)
                       (F32.of_int fadeLength)
                else F32.one).
    assert (Rin : F32.good fin /\ 0 <= F32.FV fin <= 2 ^ F32.K).
    { unfold fin. destruct (Z.ltb_spec playbackPosition fadeLength).
      - apply FadeFacts.ratio_unit; [lia|].
        change (2 ^ 24) with 16777216. lia.
      - split; [exact G1|]. rewrite E1. lia. }
    destruct ((sliceLen - fadeLength >? 0)
              && (playbackPosition >=? sliceLen - fadeLength)) eqn:C;
      [|exact Rin].
    apply andb_true_iff in C. destruct C as [C1 C2].
    rewrite Z.gtb_ltb in C1. apply Z.ltb_lt in C1.
    rewrite Z.geb_leb in C2. apply Z.leb_le in C2.
    destruct (FadeFacts.ratio_unit
                (playbackPosition - (sliceLen - fadeLength)) fadeLength)
      as [Gq Hq]; [lia | change (2 ^ 24) with 16777216; lia|].
    pose proof (FadeFacts.one_minus_unit _ Gq Hq) as Rout.
    destruct (F32.ltb _ fin); [exact Rout | exact Rin]. }
  destruct R as [G B]. split; [exact G|].
  split; [|split; [|split]].
  - unfold F32.leb. rewrite (SFleb_FV F32.zero env (good_zero false) G).
    apply Z.leb_le. cbn [F32.FV F32.zero]. lia.
  - unfold F32.leb. rewrite (SFleb_FV env F32.one G G1).
    apply Z.leb_le. rewrite E1. lia.
  - intros ->. unfold env, fade_envelope.
    replace (0 <? fadeLength) with true by (symmetry; apply Z.ltb_lt; lia).
    replace ((sliceLen - fadeLength >? 0) && (0 >=? sliceLen - fadeLength))
      with false.
    2:{ symmetry. apply andb_false_iff.
        destruct (Z.ltb_spec 0 (sliceLen - fadeLength)).
        - right. rewrite Z.geb_leb. apply Z.leb_gt. lia.
        - left. rewrite Z.gtb_ltb. apply Z.ltb_ge. lia. }
    destruct (DrawFacts.of_int_good fadeLength) as [Gf Ef];
      [change (2 ^ 24) with 16777216; lia|].
    destruct (DivFacts.good_nonneg_cases _ Gf ltac:(rewrite Ef; lia))
      as [[s Hz] | (m & e & Hf & _)].
    + rewrite Hz in Ef. cbn [F32.FV] in Ef. lia.
    + rewrite Hf. reflexivity.
  - intros [Hlo Hhi]. unfold env, fade_envelope.
    replace (playbackPosition <? fadeLength) with false
      by (symmetry; apply Z.ltb_ge; lia).
    replace (playbackPosition >=? sliceLen - fadeLength) with false
      by (symmetry; rewrite Z.geb_leb; apply Z.leb_gt; lia).
    rewrite andb_false_r. reflexivity.
Qed.

Lemma fade_envelope_unit_range_witness :
  let env := fade_envelope 100 720 4800 in
  F32.good env /\
  F32.leb F32.zero env = true /\ F32.leb env F32.one = true /\
  (100 = 0 -> env = F32.zero) /\
  (720 <= 100 < 4800 - 720 -> env = F32.one).
Proof.
  apply (fade_envelope_unit_range 100 720 4800);
    unfold MAX_SLICE_LENGTH; lia.
Defined.

(** ** What [CaptureSlice] writes *)

Section CaptureEffects.
Context `{DaisySP}.
Variable P : stutter_policy.

(** What one call of [CaptureSlice] does to the slice store and to the
    capture cursor. *)
Lemma CaptureSlice_effect c x e e' :
  Engine.CaptureSlice P c x e = Some e' ->
  let cur := currentCaptureSlice (cap e) in
  let pos := capturePosition (cap e) in
  sliceBuffers (store e') cur pos = x /\
  (forall i o, i <> cur \/ o <> pos ->
     sliceBuffers (store e') i o = sliceBuffers (store e) i o) /\
  (forall i, i <> cur -> sliceLengths (store e') i = sliceLengths (store e) i) /\
  ((waitingForZeroCrossing (cap e') = false /\
    capturePosition (cap e') = 0 /\
    zeroSearchCount (cap e') = 0 /\
    waitingForZeroCrossing (cap e) = true /\
    sliceLengths (store e') cur = pos + 1)
   \/
   (currentCaptureSlice (cap e') = cur /\
    capturePosition (cap e') = pos + 1 /\
    sliceLengths (store e') cur = sliceLengths (store e) cur /\
    play e' = play e /\ rng e' = rng e /\
    (waitingForZeroCrossing (cap e) = true ->
     waitingForZeroCrossing (cap e') = true /\
     zeroSearchCount (cap e') = zeroSearchCount (cap e) + 1 /\
     zeroSearchCount (cap e') < MAX_ZERO_SEARCH))).
Proof.
  intros E cur pos. unfold Engine.CaptureSlice in E.
  destruct (buf_write (store e) (currentCaptureSlice (cap e))
              (capturePosition (cap e)) x) as [st|] eqn:W; [|discriminate].
  fold cur pos in W.
  assert (Wst : sliceBuffers st cur pos = x /\
                (forall i o, i <> cur \/ o <> pos ->
                   sliceBuffers st i o = sliceBuffers (store e) i o) /\
                sliceLengths st = sliceLengths (store e)).
  { unfold buf_write in W. destruct (slice_ok cur && offset_ok pos);
      [|discriminate].
    injection W as <-. cbn [sliceBuffers sliceLengths].
    rewrite !Z.eqb_refl. split; [reflexivity|]. split; [|reflexivity].
    intros i o [N|N].
    - replace (i =? cur) with false by (symmetry; apply Z.eqb_neq; exact N).
      reflexivity.
    - replace (o =? pos) with false by (symmetry; apply Z.eqb_neq; exact N).
      rewrite andb_false_r. reflexivity. }
  destruct Wst as (Wx & Wo & Wl).
  destruct (waitingForZeroCrossing (cap e)) eqn:Wt.
  - match type of E with
    | (if ?b then _ else _) = _ => destruct b eqn:SF
    end.
    + (* finalize *)
      unfold Engine.finalize_slice in E. fold cur in E.
      destruct (len_set st cur _) as [st2|] eqn:L; [|discriminate].
      destruct (if negb _ then _ else _) as [[p g]|]; [|discriminate].
      destruct (Engine.next_capture_slice _ _ _) as [[next g']|];
        [|discriminate].
      injection E as <-. cbn.
      unfold len_set in L. destruct (slice_ok cur); [|discriminate].
      injection L as <-. cbn [sliceBuffers sliceLengths].
      rewrite Z.eqb_refl.
      split; [exact Wx|]. split; [exact Wo|]. split.
      * intros i N.
        replace (i =? cur) with false by (symmetry; apply Z.eqb_neq; exact N).
        rewrite Wl. reflexivity.
      * left. repeat split; reflexivity.
    + injection E as <-. cbn.
      split; [exact Wx|]. split; [exact Wo|]. split.
      * intros i N. rewrite Wl. reflexivity.
      * right. rewrite Wl. repeat split; try reflexivity.
        fold pos. unfold MAX_ZERO_SEARCH.
        destruct (_ && _); [discriminate|].
        destruct (zeroSearchCount (cap e) + 1 >=? MAX_ZERO_SEARCH) eqn:Z1;
          [discriminate|].
        unfold MAX_ZERO_SEARCH in Z1. rewrite Z.geb_leb in Z1.
        apply Z.leb_gt in Z1. exact Z1.
  - destruct (F32.to_int _) as [target|]; [|discriminate].
    destruct (_ >=? target); injection E as <-; cbn;
      (split; [exact Wx|]); (split; [exact Wo|]);
      (split; [intros i N; rewrite Wl; reflexivity|]);
      right; rewrite Wl; repeat split; try reflexivity; discriminate.
Qed.

End CaptureEffects.

(** Property X7.
    One call of [CaptureSlice] stores the sample in the cell under the
    capture cursor and changes no other cell of any slice buffer and no
    other slice's length. *)
Theorem CaptureSlice_writes_one_cell (D : DaisySP) (c : controls)
    (x : F32.float) (e : engine) :
  controls_ok c -> engine_ok e ->
  exists e',
    FluxAudio.CaptureSlice c x e = Some e' /\
    sliceBuffers (store e') (currentCaptureSlice (cap e))
      (capturePosition (cap e)) = x /\
    (forall i o,
       i <> currentCaptureSlice (cap e) \/ o <> capturePosition (cap e) ->
       sliceBuffers (store e') i o = sliceBuffers (store e) i o) /\
    (forall i, i <> currentCaptureSlice (cap e) ->
       sliceLengths (store e') i = sliceLengths (store e) i).
Proof.
  intros Hc He.
  destruct (CaptureSlice_ok Flux.policy c x e (Flux_policy_ok _) Hc He)
    as (e' & E & _).
  exists e'. split; [exact E|].
  destruct (CaptureSlice_effect Flux.policy c x e e' E) as (A & B & C & _).
  repeat split; assumption.
Qed.

Lemma bench_ok :
  controls_ok (bench_controls 4 4800 false false) /\ engine_ok bench_engine.
Proof.
  split.
  - unfold controls_ok, knob01, F32.good. vm_compute.
    repeat split; discriminate.
  - apply (@power_on_ok passthrough_dsp). unfold MAX_SLICE_LENGTH. lia.
Qed.

Lemma CaptureSlice_writes_one_cell_witness :
  exists e',
    @FluxAudio.CaptureSlice passthrough_dsp
      (bench_controls 4 4800 false false) (F32.lit 5 1) bench_engine
    = Some e' /\
    sliceBuffers (store e') (currentCaptureSlice (cap bench_engine))
      (capturePosition (cap bench_engine)) = F32.lit 5 1 /\
    (forall i o,
       i <> currentCaptureSlice (cap bench_engine) \/
       o <> capturePosition (cap bench_engine) ->
       sliceBuffers (store e') i o = sliceBuffers (store bench_engine) i o) /\
    (forall i, i <> currentCaptureSlice (cap bench_engine) ->
       sliceLengths (store e') i = sliceLengths (store bench_engine) i).
Proof.
  apply (CaptureSlice_writes_one_cell passthrough_dsp);
    [exact (proj1 bench_ok) | exact (proj2 bench_ok)].
Defined.

(** ** The zero-crossing search ends *)

Section SampleSteps.
Context `{DaisySP}.

(** In an active (not bypassed) sample the slice store and the capture
    cursor are moved by [CaptureSlice] alone. *)
Lemma process_sample_capture c x e l r e' :
  FluxAudio.process_sample c x e = Some (l, r, e') -> bypass c = false ->
  exists x' e1 e2,
    store e1 = store e /\ cap e1 = cap e /\
    Engine.CaptureSlice Flux.policy c x' e1 = Some e2 /\
    store e' = store e2 /\ cap e' = cap e2.
Proof.
  intros E Hb. unfold FluxAudio.process_sample in E. rewrite Hb in E.
  cbn [negb] in E.
  set (e0 := set_smooth e _) in E.
  destruct (CustomBitCrush _ _ _ e0) as [[y e1]|] eqn:Ec; [|discriminate].
  destruct (FluxAudio.PlaybackSlice c e1) as [[[wet rd] e2]|] eqn:Ep;
    [|discriminate].
  destruct (FluxAudio.CaptureSlice c _ e2) as [e3|] eqn:Eca; [|discriminate].
  destruct (mix_Process _ _ _) as [o d]. injection E as _ _ <-.
  apply CustomBitCrush_frame in Ec. destruct Ec as (S1 & K1 & _).
  apply PlaybackSlice_frame in Ep. destruct Ep as (S2 & K2 & _).
  exists (F32.add y (F32.mul wet (feedback_amount c))), e2, e3.
  split; [rewrite S2, S1; reflexivity|].
  split; [rewrite K2, K1; reflexivity|].
  split; [exact Eca|]. split; reflexivity.
Qed.

(** The zero-crossing search ends within [MAX_ZERO_SEARCH] samples. *)
Lemma zero_search_ends c : controls_ok c -> bypass c = false ->
  forall xs e,
    engine_ok e -> waitingForZeroCrossing (cap e) = true ->
    zeroSearchCount (cap e) < MAX_ZERO_SEARCH ->
    Z.of_nat (length xs) = MAX_ZERO_SEARCH - zeroSearchCount (cap e) ->
    exists k outs e',
      (1 <= k <= length xs)%nat /\
      process_block FluxAudio.process_sample c (firstn k xs) e
      = Some (outs, e') /\
      waitingForZeroCrossing (cap e') = false /\
      capturePosition (cap e') = 0 /\
      sliceLengths (store e') (currentCaptureSlice (cap e))
      = capturePosition (cap e) + Z.of_nat k.
Proof.
  intros Hc Hb. induction xs as [|x xs IH]; intros e He Hw Hz Hlen.
  { cbn [length] in Hlen. lia. }
  destruct (process_sample_ok c x e Hc He) as (l & r & e1 & E1 & He1).
  destruct (process_sample_capture c x e l r e1 E1 Hb)
    as (x' & ea & eb & Sa & Ka & Eca & Sb & Kb).
  pose proof (CaptureSlice_effect Flux.policy c x' ea eb Eca) as Eff.
  cbv zeta in Eff. rewrite Ka in Eff. rewrite <- Sb, <- Kb in Eff.
  destruct Eff as (_ & _ & _ & [Fin | Cont]).
  - destruct Fin as (W' & P' & _ & _ & L').
    exists 1%nat, [(l, r)], e1. cbn [firstn process_block]. rewrite E1.
    split; [cbn [length]; lia|]. split; [reflexivity|].
    split; [exact W'|]. split; [exact P'|]. rewrite L'. lia.
  - destruct Cont as (C' & P' & L' & _ & _ & Wz).
    destruct (Wz Hw) as (W' & Z' & Zlt).
    destruct (IH e1 He1 W' Zlt) as (k & outs & e2 & Hk & E2 & W2 & P2 & L2).
    { cbn [length] in Hlen. rewrite Z'. lia. }
    exists (S k), ((l, r) :: outs), e2. cbn [firstn process_block].
    rewrite E1, E2.
    split; [cbn [length]; lia|]. split; [reflexivity|].
    split; [exact W2|]. split; [exact P2|].
    rewrite C', P' in L2. rewrite L2. lia.
Qed.

End SampleSteps.

(** Property X8.
    Once the target length is reached, a slice is closed within
    [MAX_ZERO_SEARCH] samples whatever the input (no zero crossing is
    needed): after at most that many further samples of an active block
    the capture cursor is back at offset 0 and the slice's recorded length
    is the number of samples written to it. *)
Theorem zero_crossing_search_is_bounded (D : DaisySP) (c : controls)
    (xs : list F32.float) (e : engine) :
  controls_ok c -> bypass c = false -> engine_ok e ->
  waitingForZeroCrossing (cap e) = true ->
  zeroSearchCount (cap e) < MAX_ZERO_SEARCH ->
  Z.of_nat (length xs) = MAX_ZERO_SEARCH - zeroSearchCount (cap e) ->
  exists k outs e',
    (1 <= k <= length xs)%nat /\
    process_block FluxAudio.process_sample c (firstn k xs) e
    = Some (outs, e') /\
    waitingForZeroCrossing (cap e') = false /\
    capturePosition (cap e') = 0 /\
    sliceLengths (store e') (currentCaptureSlice (cap e))
    = capturePosition (cap e) + Z.of_nat k.
Proof.
  intros Hc Hb He Hw Hz Hlen.
  exact (zero_search_ends c Hc Hb xs e He Hw Hz Hlen).
Qed.

(** ** The rate reduction as a sample-and-hold *)

Lemma downsample_rates_complete n :
  1 <= n <= 32 -> In n downsample_rates.
Proof.
  intro Hn. unfold downsample_rates.
  replace n with (Z.of_nat (Z.to_nat n)) by lia.
  apply in_map. apply in_seq. lia.
Qed.

(** For every hold length the cutoff lies in [500 Hz, 18 kHz], with 80%
    of the effective Nyquist frequency ([flux_main.cpp]) as with 50%. *)
Lemma bitcrush_cutoff_range nf n :
  nf = F32.lit 8 1 \/ nf = F32.lit 5 1 -> 1 <= n <= 32 ->
  F32.good (bitcrush_cutoff nf n) /\
  F32.leb (F32.of_int 500) (bitcrush_cutoff nf n) = true /\
  F32.leb (bitcrush_cutoff nf n) (F32.of_int 18000) = true.
Proof.
  intros Hnf Hn.
  assert (A : forallb (fun n =>
                let c := bitcrush_cutoff (F32.lit 8 1) n in
                valid_binary F32.prec F32.emax c && F32.is_finite c
                && F32.leb (F32.of_int 500) c
                && F32.leb c (F32.of_int 18000)) downsample_rates = true)
    by (vm_compute; reflexivity).
  assert (B : forallb (fun n =>
                let c := bitcrush_cutoff (F32.lit 5 1) n in
                valid_binary F32.prec F32.emax c && F32.is_finite c
                && F32.leb (F32.of_int 500) c
                && F32.leb c (F32.of_int 18000)) downsample_rates = true)
    by (vm_compute; reflexivity).
  rewrite forallb_forall in A, B.
  pose proof (downsample_rates_complete n Hn) as I.
  destruct Hnf as [-> | ->]; [specialize (A n I) | specialize (B n I)];
    cbv zeta in *;
    repeat match goal with
           | X : _ && _ = true |- _ => apply andb_true_iff in X; destruct X
           end;
    (split; [split; assumption | split; assumption]).
Qed.

(** Property X9.
    For an amount in (0, 1] the rate reduction is a sample-and-hold of 1 to
    32 samples: the held sample is replaced by the input, and the counter
    restarts, exactly when the counter has reached the hold length;
    otherwise the held sample stays and the counter advances.  The filter
    is retuned to a cutoff between 500 Hz and 18 kHz and fed the held
    sample; nothing else in the engine changes. *)
Theorem CustomBitCrush_sample_and_hold (D : DaisySP)
    (nf input amount : F32.float) (e : engine) :
  nf = F32.lit 8 1 \/ nf = F32.lit 5 1 ->
  knob01 amount -> F32.leb amount F32.zero = false ->
  exists n y e',
    CustomBitCrush nf input amount e = Some (y, e') /\
    n = 1 + F32.trunc (F32.mul (F32.mul amount amount) (F32.of_int 31)) /\
    1 <= n <= 32 /\
    (if bitcrush_sample_counter e >=? n
     then bitcrush_hold_sample e' = input /\ bitcrush_sample_counter e' = 1
     else bitcrush_hold_sample e' = bitcrush_hold_sample e /\
          bitcrush_sample_counter e'
          = bitcrush_sample_counter e + 1) /\
    (y, dsp e')
    = lofi_filter_Process (bitcrush_hold_sample e')
        (lofi_filter_SetFrequency (bitcrush_cutoff nf n) (dsp e)) /\
    F32.leb (F32.of_int 500) (bitcrush_cutoff nf n) = true /\
    F32.leb (bitcrush_cutoff nf n) (F32.of_int 18000) = true /\
    store e' = store e /\ cap e' = cap e /\ play e' = play e /\
    rng e' = rng e.
Proof.
  intros Hnf Ka Hpos. pose proof pow2K_pos as PK.
  destruct (mul_knob_bounded amount amount 1 Ka (proj1 Ka)
              (knob01_one_bound amount Ka) ltac:(lia)) as [Gaa Haa].
  assert (Kaa : knob01 (F32.mul amount amount)) by (split; [exact Gaa | lia]).
  destruct (of_int_spec 31 ltac:(reflexivity)) as [G31 V31].
  fold (F32.of_int 31) in G31, V31.
  destruct (mul_knob_bounded (F32.mul amount amount) (F32.of_int 31) 31
              Kaa G31) as [Gp Hp]; [rewrite V31; lia | lia |].
  destruct (to_int_le _ (31 * 2 ^ F32.K) Gp Hp) as [Et Bt].
  { rewrite Z.div_mul by lia. reflexivity. }
  rewrite Z.div_mul in Bt by lia.
  set (t := F32.trunc (F32.mul (F32.mul amount amount) (F32.of_int 31))) in *.
  destruct (bitcrush_cutoff_range nf (1 + t) Hnf ltac:(lia)) as (_ & C1 & C2).
  unfold CustomBitCrush. rewrite Hpos, Et.
  fold (bitcrush_cutoff nf (1 + t)).
  destruct (bitcrush_sample_counter e >=? 1 + t) eqn:Cn;
    destruct (lofi_filter_Process _ _) as [y d] eqn:Ef;
    exists (1 + t), y; eexists; (split; [reflexivity|]);
    (split; [reflexivity|]); (split; [lia|]);
    unfold set_dsp, set_crush;
    cbn [bitcrush_hold_sample bitcrush_sample_counter store cap play rng dsp];
    rewrite Cn; repeat split; try reflexivity; try assumption;
    symmetry; exact Ef.
Qed.

Lemma CustomBitCrush_sample_and_hold_witness :
  exists n y e',
    @CustomBitCrush passthrough_dsp (F32.lit 8 1) (F32.lit 5 1) F32.one
      bench_engine = Some (y, e') /\
    n = 1 + F32.trunc (F32.mul (F32.mul F32.one F32.one) (F32.of_int 31)) /\
    1 <= n <= 32 /\
    (if bitcrush_sample_counter bench_engine >=? n
     then bitcrush_hold_sample e' = F32.lit 5 1 /\
          bitcrush_sample_counter e' = 1
     else bitcrush_hold_sample e' = bitcrush_hold_sample bench_engine /\
          bitcrush_sample_counter e'
          = bitcrush_sample_counter bench_engine + 1) /\
    (y, dsp e')
    = lofi_filter_Process (bitcrush_hold_sample e')
        (lofi_filter_SetFrequency (bitcrush_cutoff (F32.lit 8 1) n)
           (dsp bench_engine)) /\
    F32.leb (F32.of_int 500) (bitcrush_cutoff (F32.lit 8 1) n) = true /\
    F32.leb (bitcrush_cutoff (F32.lit 8 1) n) (F32.of_int 18000) = true /\
    store e' = store bench_engine /\ cap e' = cap bench_engine /\
    play e' = play bench_engine /\ rng e' = rng bench_engine.
Proof.
  apply (CustomBitCrush_sample_and_hold passthrough_dsp).
  - left. reflexivity.
  - split; [split; reflexivity|]. vm_compute. split; discriminate.
  - reflexivity.
Defined.



(** A state in the middle of a zero-crossing search. *)
Lemma searching_engine_ok :
  engine_ok (set_cap bench_engine (mkCapture 0 5000 true F32.zero false 998)).
Proof.
  destruct (proj2 bench_ok) as (Hl & _ & Hp & Hs).
  split; [exact Hl|]. split; [|split; [exact Hp | exact Hs]].
  unfold capture_ok, MAX_SLICES, MAX_SLICE_LENGTH. cbn. lia.
Qed.

Lemma zero_crossing_search_is_bounded_witness :
  exists k outs e',
    (1 <= k <= length [F32.zero; F32.zero])%nat /\
    @process_block passthrough_dsp FluxAudio.process_sample
      (bench_controls 4 4800 false false)
      (firstn k [F32.zero; F32.zero])
      (set_cap bench_engine (mkCapture 0 5000 true F32.zero false 998))
    = Some (outs, e') /\
    waitingForZeroCrossing (cap e') = false /\
    capturePosition (cap e') = 0 /\
    sliceLengths (store e')
      (currentCaptureSlice
         (cap (set_cap bench_engine
                 (mkCapture 0 5000 true F32.zero false 998))))
    = capturePosition
        (cap (set_cap bench_engine (mkCapture 0 5000 true F32.zero false 998)))
      + Z.of_nat k.
Proof.
  apply (zero_crossing_search_is_bounded passthrough_dsp).
  - exact (proj1 bench_ok).
  - reflexivity.
  - exact searching_engine_ok.
  - reflexivity.
  - unfold MAX_ZERO_SEARCH. cbn. lia.
  - reflexivity.
Defined.

(** ** The control path: [ProcessParameters] and [UpdateControls] *)

Module ParameterFacts.
Import DivFacts DrawFacts.

Lemma knob01_zero : knob01 F32.zero.
Proof.
  split; [apply good_zero|]. cbn [F32.FV F32.zero].
  pose proof pow2K_pos. lia.
Qed.

Lemma knob01_one : knob01 F32.one.
Proof.
  destruct good_one as [G E]. split; [exact G|]. rewrite E.
  pose proof pow2K_pos. lia.
Qed.

(** The slice count is defined for every knob value in [0, 1]. *)
Lemma slice_count_defined c :
  knob01 c ->
  exists n, FluxControl.slice_count_of_knob c = Some n /\ 1 <= n <= MAX_SLICES.
Proof.
  intro Hk.
  assert (Gk : F32.good (F32.lit 15999 3))
    by (vm_compute; repeat split; discriminate).
  assert (Bk : 0 <= F32.FV (F32.lit 15999 3) <= 16 * 2 ^ F32.K)
    by (vm_compute; split; discriminate).
  destruct (mul_knob_le c _ 16 Hk Gk Bk ltac:(lia)) as [Gm Bm].
  assert (Q : F32.FV (F32.lit 15999 3) / 2 ^ F32.K = 15)
    by (vm_compute; reflexivity).
  destruct (to_int_le _ (F32.FV (F32.lit 15999 3)) Gm Bm) as [T Tr].
  { rewrite Q. lia. }
  rewrite Q in Tr.
  unfold FluxControl.slice_count_of_knob. rewrite T.
  eexists. split; [reflexivity|].
  apply clamp_slice_count_range.
Qed.

(** The slice length in milliseconds is a finite number in [100, 500]. *)
Lemma slice_length_ms_range logf c :
  logf_ok logf -> knob01 c ->
  F32.good (FluxControl.slice_length_ms logf c) /\
  100 * 2 ^ F32.K <= F32.FV (FluxControl.slice_length_ms logf c)
  <= 500 * 2 ^ F32.K.
Proof.
  intros Hlog Hc. pose proof pow2K_pos as P.
  destruct (SliceLengthFacts.log_value_spec logf Hlog c Hc) as (Gl & Bl).
  destruct (SliceLengthFacts.scale_spec logf Hlog _ Gl Bl) as [Gt _].
  change (F32.good (FluxControl.slice_length_ms logf c)) in Gt.
  split; [exact Gt|].
  pose proof (SliceLengthFacts.slice_length_ms_mono logf Hlog F32.zero c
                knob01_zero Hc ltac:(cbn [F32.FV F32.zero]; apply Hc)) as L.
  pose proof (SliceLengthFacts.slice_length_ms_mono logf Hlog c F32.one
                Hc knob01_one
                ltac:(rewrite (proj2 good_one); apply Hc)) as U.
  rewrite (SliceLengthFacts.slice_length_ms_at_zero logf Hlog) in L.
  rewrite (SliceLengthFacts.slice_length_ms_at_one logf Hlog) in U.
  assert (G100 : F32.good MIN_SLICE_LENGTH_MS) by (split; reflexivity).
  assert (G500 : F32.good MAX_SLICE_LENGTH_MS) by (split; reflexivity).
  apply (SliceLengthFacts.FV_of_leb _ _ G100 Gt) in L.
  apply (SliceLengthFacts.FV_of_leb _ _ Gt G500) in U.
  assert (E100 : F32.FV MIN_SLICE_LENGTH_MS = 100 * 2 ^ F32.K) by reflexivity.
  assert (E500 : F32.FV MAX_SLICE_LENGTH_MS = 500 * 2 ^ F32.K) by reflexivity.
  lia.
Qed.

(** Between 100 ms and 500 ms the conversion to samples is defined and
    gives 4800 to 24000 samples; the clamp leaves it alone. *)
Lemma samples_of_ms_range ms :
  F32.good ms -> 100 * 2 ^ F32.K <= F32.FV ms <= 500 * 2 ^ F32.K ->
  exists n,
    FluxControl.slice_length_samples_of_ms ms = Some n /\
    4800 <= n <= MAX_SLICE_LENGTH.
Proof.
  intros Gms Bms. pose proof pow2K_pos as P.
  destruct (of_int_good 1000) as [Gk Ek]; [reflexivity|].
  assert (P127 : 1 < 2 ^ 127) by reflexivity.
  assert (PD : 0 < 1000 * 2 ^ F32.K) by lia.
  destruct (div_nonneg_spec ms (F32.of_int 1000) Gms Gk) as [Gd Ed].
  { lia. } { rewrite Ek. exact PD. }
  { rewrite Ek.
    assert (1000 * 2 ^ F32.K * 1 < 1000 * 2 ^ F32.K * 2 ^ 127)
      by (apply Z.mul_lt_mono_pos_l; lia).
    lia. }
  rewrite Ek in Ed.
  set (q := fun v => F32.rv (F32.qsticky 1 (v * 2 ^ F32.K) (1000 * 2 ^ F32.K))).
  assert (Qm : forall a b, 0 <= a -> a <= b -> q a <= q b).
  { intros a b Ha Hab. unfold q. apply rv_mono. split.
    - apply qsticky_nonneg; [|exact PD]. apply Z.mul_nonneg_nonneg; lia.
    - apply qsticky_mono; [|exact PD]. split.
      + apply Z.mul_nonneg_nonneg; lia.
      + apply Z.mul_le_mono_nonneg_r; lia. }
  assert (Bd : q (100 * 2 ^ F32.K) <= F32.FV (F32.div ms (F32.of_int 1000))
               <= q (500 * 2 ^ F32.K)).
  { rewrite Ed. fold (q (F32.FV ms)). split; apply Qm; lia. }
  assert (Cq : 0 <= q (100 * 2 ^ F32.K) /\
               q (500 * 2 ^ F32.K) <= 1 * 2 ^ F32.K /\
               4800 * 2 ^ F32.K <= F32.rvs (48000 * q (100 * 2 ^ F32.K)) /\
               F32.rvs (48000 * q (500 * 2 ^ F32.K)) <= 24000 * 2 ^ F32.K).
  { unfold q. vm_compute. repeat split; discriminate. }
  destruct Cq as (C0 & C1 & C2 & C3).
  destruct (of_int_good 48000) as [Gs Es]; [reflexivity|].
  fold SAMPLE_RATE in Gs, Es.
  destruct (SliceLengthFacts.mul_const_spec SAMPLE_RATE
              (F32.div ms (F32.of_int 1000)) 48000 1 Gs Es
              ltac:(split; [lia | reflexivity]) Gd ltac:(lia)
              ltac:(split; [lia | reflexivity])) as [_ [Gm Em]].
  assert (Bm : 4800 * 2 ^ F32.K
               <= F32.FV (F32.mul (F32.div ms (F32.of_int 1000)) SAMPLE_RATE)
               <= 24000 * 2 ^ F32.K).
  { rewrite Em. split.
    - eapply Z.le_trans; [exact C2|]. apply rvs_mono. lia.
    - eapply Z.le_trans; [|exact C3]. apply rvs_mono. lia. }
  destruct (to_int_bounded _ 24000 Gm ltac:(lia) ltac:(reflexivity))
    as (t & Et & Bt & Vt).
  assert (Lt : 4800 <= t).
  { rewrite Vt. apply Z.div_le_lower_bound; lia. }
  unfold FluxControl.slice_length_samples_of_ms. rewrite Et.
  unfold MAX_SLICE_LENGTH.
  replace (t <? 1) with false by (symmetry; apply Z.ltb_ge; lia).
  replace (t >? 24000) with false
    by (symmetry; rewrite Z.gtb_ltb; apply Z.ltb_ge; lia).
  exists t. split; [reflexivity | lia].
Qed.

Lemma ProcessParameters_defined logf s :
  logf_ok logf ->
  knob01 (Panel.knob_slice_count s) -> knob01 (Panel.knob_slice_length s) ->
  exists s',
    Panel.ProcessParameters logf s = Some s' /\
    1 <= Panel.active_slice_count s' <= MAX_SLICES /\
    4800 <= Panel.slice_length_samples s' <= MAX_SLICE_LENGTH /\
    Panel.knob_slice_count s' = Panel.knob_slice_count s /\
    Panel.knob_slice_length s' = Panel.knob_slice_length s /\
    Panel.lofi_bitcrush s' = Panel.lofi_bitcrush s.
Proof.
  intros Hlog Hc Hl.
  destruct (slice_count_defined _ Hc) as (n & En & Bn).
  destruct (slice_length_ms_range logf _ Hlog Hl) as [Gms Bms].
  destruct (samples_of_ms_range _ Gms Bms) as (m & Em & Bm).
  unfold Panel.ProcessParameters. rewrite En, Em.
  eexists. split; [reflexivity|].
  cbn [Panel.active_slice_count Panel.slice_length_samples
       Panel.knob_slice_count Panel.knob_slice_length Panel.lofi_bitcrush].
  repeat split; try reflexivity; try apply Bn; apply Bm.
Qed.

End ParameterFacts.

(** Property X11.
    For knob values in [0, 1] (and a [logf] as in [logf_ok])
    [ProcessParameters] is defined and leaves 1 to 16 active slices and a
    target length of 4800 to 24000 samples, 100 ms to 500 ms at 48 kHz; the
    feedback amount is the feedback knob, and nothing else moves. *)
Theorem ProcessParameters_ranges (logf : F32.float -> F32.float)
    (s : Panel.state) :
  logf_ok logf ->
  knob01 (Panel.knob_slice_count s) -> knob01 (Panel.knob_slice_length s) ->
  exists s',
    Panel.ProcessParameters logf s = Some s' /\
    1 <= Panel.active_slice_count s' <= MAX_SLICES /\
    4800 <= Panel.slice_length_samples s' <= MAX_SLICE_LENGTH /\
    F32.leb MIN_SLICE_LENGTH_MS (Panel.slice_length_ms s') = true /\
    F32.leb (Panel.slice_length_ms s') MAX_SLICE_LENGTH_MS = true /\
    Panel.feedback_amount s' = Panel.knob_feedback s /\
    Panel.controls_of s'
    = mkControls (Panel.active_slice_count s') (Panel.slice_length_samples s')
        (Panel.knob_feedback s) (Panel.knob_stutter s) (Panel.toggle_mode s)
        (Panel.knob_mix s) (Panel.master_level s) (Panel.lofi_bitcrush s)
        (Panel.lofi_wobble s) (Panel.lofi_noise s) (Panel.bypass s) false.
Proof.
  intros Hlog Hc Hl.
  destruct (ParameterFacts.slice_count_defined _ Hc) as (n & En & Bn).
  destruct (ParameterFacts.slice_length_ms_range logf _ Hlog Hl) as [Gms Bms].
  destruct (ParameterFacts.samples_of_ms_range _ Gms Bms) as (m & Em & Bm).
  unfold Panel.ProcessParameters. rewrite En, Em.
  eexists. split; [reflexivity|]. cbn.
  split; [exact Bn|]. split; [exact Bm|].
  assert (G100 : F32.good MIN_SLICE_LENGTH_MS) by (split; reflexivity).
  assert (G500 : F32.good MAX_SLICE_LENGTH_MS) by (split; reflexivity).
  split; [apply (SliceLengthFacts.leb_of_FV _ _ G100 Gms); apply Bms|].
  split; [apply (SliceLengthFacts.leb_of_FV _ _ Gms G500); apply Bms|].
  split; reflexivity.
Qed.

Lemma ProcessParameters_ranges_witness :
  exists s',
    Panel.ProcessParameters (fun x => F32.sub x F32.one) Panel.main_controls
    = Some s' /\
    1 <= Panel.active_slice_count s' <= MAX_SLICES /\
    4800 <= Panel.slice_length_samples s' <= MAX_SLICE_LENGTH /\
    F32.leb MIN_SLICE_LENGTH_MS (Panel.slice_length_ms s') = true /\
    F32.leb (Panel.slice_length_ms s') MAX_SLICE_LENGTH_MS = true /\
    Panel.feedback_amount s' = Panel.knob_feedback Panel.main_controls /\
    Panel.controls_of s'
    = mkControls (Panel.active_slice_count s') (Panel.slice_length_samples s')
        (Panel.knob_feedback Panel.main_controls)
        (Panel.knob_stutter Panel.main_controls)
        (Panel.toggle_mode Panel.main_controls)
        (Panel.knob_mix Panel.main_controls)
        (Panel.master_level Panel.main_controls)
        (Panel.lofi_bitcrush Panel.main_controls)
        (Panel.lofi_wobble Panel.main_controls)
        (Panel.lofi_noise Panel.main_controls)
        (Panel.bypass Panel.main_controls) false.
Proof.
  apply (ProcessParameters_ranges (fun x => F32.sub x F32.one)
           Panel.main_controls).
  - exact logf_ok_shift.
  - split; [split; reflexivity|]. vm_compute. split; discriminate.
  - split; [split; reflexivity|]. vm_compute. split; discriminate.
Defined.

Ltac panel_simpl :=
  cbn [Panel.bypass Panel.shift_mode Panel.knob_mix Panel.knob_feedback
       Panel.knob_slice_count Panel.knob_slice_length Panel.knob_stutter
       Panel.toggle_mode Panel.knob_prev Panel.knob_touched
       Panel.master_level Panel.lofi_wobble Panel.lofi_noise
       Panel.lofi_bitcrush Panel.lofi_age_mix Panel.active_slice_count
       Panel.slice_length_ms Panel.slice_length_samples
       Panel.feedback_amount Panel.GetKnobValue Panel.TOGGLESWITCH_1
       Panel.TOGGLESWITCH_3 negb andb].

Module PanelFacts.

(** The movement loop only ever writes the two touch arrays. *)
Lemma touch_frame kv i s :
  let s' := Panel.touch kv i s in
  Panel.bypass s' = Panel.bypass s /\
  Panel.knob_feedback s' = Panel.knob_feedback s /\
  Panel.knob_slice_count s' = Panel.knob_slice_count s /\
  Panel.knob_slice_length s' = Panel.knob_slice_length s /\
  Panel.knob_stutter s' = Panel.knob_stutter s /\
  Panel.lofi_wobble s' = Panel.lofi_wobble s /\
  Panel.lofi_noise s' = Panel.lofi_noise s /\
  Panel.lofi_bitcrush s' = Panel.lofi_bitcrush s /\
  Panel.lofi_age_mix s' = Panel.lofi_age_mix s /\
  Panel.active_slice_count s' = Panel.active_slice_count s /\
  Panel.slice_length_ms s' = Panel.slice_length_ms s /\
  Panel.slice_length_samples s' = Panel.slice_length_samples s /\
  Panel.feedback_amount s' = Panel.feedback_amount s /\
  (forall j, Panel.knob_touched s j = true -> Panel.knob_touched s' j = true).
Proof.
  unfold Panel.touch. destruct (F32.gtb _ _); panel_simpl; repeat split; auto.
  intros j Hj. destruct (j =? i); [reflexivity | exact Hj].
Qed.

Lemma touched_frame hw s :
  let s' := Panel.detect_movement hw s in
  Panel.bypass s' = Panel.bypass s /\
  Panel.knob_feedback s' = Panel.knob_feedback s /\
  Panel.knob_slice_count s' = Panel.knob_slice_count s /\
  Panel.knob_slice_length s' = Panel.knob_slice_length s /\
  Panel.knob_stutter s' = Panel.knob_stutter s /\
  Panel.lofi_wobble s' = Panel.lofi_wobble s /\
  Panel.lofi_noise s' = Panel.lofi_noise s /\
  Panel.lofi_bitcrush s' = Panel.lofi_bitcrush s /\
  Panel.lofi_age_mix s' = Panel.lofi_age_mix s /\
  Panel.active_slice_count s' = Panel.active_slice_count s /\
  Panel.slice_length_ms s' = Panel.slice_length_ms s /\
  Panel.slice_length_samples s' = Panel.slice_length_samples s /\
  Panel.feedback_amount s' = Panel.feedback_amount s /\
  (forall j, Panel.knob_touched s j = true -> Panel.knob_touched s' j = true).
Proof.
  unfold Panel.detect_movement. cbv zeta.
  set (kv := Panel.GetKnobValue hw).
  pose proof (touch_frame kv 2 s) as A.
  pose proof (touch_frame kv 3 (Panel.touch kv 2 s)) as B.
  pose proof (touch_frame kv 4 (Panel.touch kv 3 (Panel.touch kv 2 s))) as C.
  pose proof (touch_frame kv 5
                (Panel.touch kv 4 (Panel.touch kv 3 (Panel.touch kv 2 s))))
    as E.
  cbv zeta in *.
  destruct A as (A1&A2&A3&A4&A5&A6&A7&A8&A9&A10&A11&A12&A13&A14).
  destruct B as (B1&B2&B3&B4&B5&B6&B7&B8&B9&B10&B11&B12&B13&B14).
  destruct C as (C1&C2&C3&C4&C5&C6&C7&C8&C9&C10&C11&C12&C13&C14).
  destruct E as (E1&E2&E3&E4&E5&E6&E7&E8&E9&E10&E11&E12&E13&E14).
  repeat split; try congruence. auto.
Qed.

Lemma UpdateControls_ok hw s :
  Panel.hardware_ok hw -> Panel.state_ok s ->
  Panel.state_ok (Panel.UpdateControls hw s).
Proof.
  intros Hh (S1 & S2 & S3).
  pose proof (touched_frame hw s) as F. cbv zeta in F.
  destruct F as (_&_&F3&F4&_&_&_&F8&_).
  unfold Panel.state_ok, Panel.UpdateControls, Panel.map_controls.
  fold (Panel.detect_movement hw s).
  cbn [Panel.knob_slice_count Panel.knob_slice_length Panel.lofi_bitcrush].
  rewrite F3, F4, F8.
  split; [|split];
    match goal with
    | |- context [if ?b then _ else _] => destruct b
    end; try assumption; apply Hh; lia.
Qed.

End PanelFacts.

(** Property X12.
    [UpdateControls] serves two pages with the same four knobs and never
    mixes them: with Toggle 3 away from its lo-fi position the four lo-fi
    amounts keep their values, in the lo-fi position the four slicing knobs
    keep theirs.  Master level (twice K1), mix (K2) and the mode switch are
    taken on both pages; bypass and the processed parameters are not
    touched, and a touch flag once set is never cleared. *)
Theorem UpdateControls_pages (hw : Panel.hardware) (s : Panel.state) :
  let s' := Panel.UpdateControls hw s in
  (Panel.TOGGLESWITCH_3 hw <> 2 ->
   Panel.shift_mode s' = false /\
   Panel.lofi_wobble s' = Panel.lofi_wobble s /\
   Panel.lofi_noise s' = Panel.lofi_noise s /\
   Panel.lofi_bitcrush s' = Panel.lofi_bitcrush s /\
   Panel.lofi_age_mix s' = Panel.lofi_age_mix s) /\
  (Panel.TOGGLESWITCH_3 hw = 2 ->
   Panel.shift_mode s' = true /\
   Panel.knob_feedback s' = Panel.knob_feedback s /\
   Panel.knob_slice_count s' = Panel.knob_slice_count s /\
   Panel.knob_slice_length s' = Panel.knob_slice_length s /\
   Panel.knob_stutter s' = Panel.knob_stutter s) /\
  Panel.master_level s'
  = F32.mul (Panel.GetKnobValue hw 0) (F32.of_int 2) /\
  Panel.knob_mix s' = Panel.GetKnobValue hw 1 /\
  Panel.toggle_mode s' = Panel.TOGGLESWITCH_1 hw /\
  Panel.bypass s' = Panel.bypass s /\
  Panel.active_slice_count s' = Panel.active_slice_count s /\
  Panel.slice_length_samples s' = Panel.slice_length_samples s /\
  Panel.feedback_amount s' = Panel.feedback_amount s /\
  (forall j, Panel.knob_touched s j = true -> Panel.knob_touched s' j = true).
Proof.
  intro s'. unfold s', Panel.UpdateControls, Panel.map_controls.
  pose proof (PanelFacts.touched_frame hw s) as F. cbv zeta in F.
  fold (Panel.detect_movement hw s).
  destruct F as (F1&F2&F3&F4&F5&F6&F7&F8&F9&F10&F11&F12&F13&F14).
  panel_simpl. split; [|split].
  - intro N. replace (Panel.TOGGLESWITCH_3 hw =? 2) with false
      by (symmetry; apply Z.eqb_neq; exact N).
    panel_simpl. repeat split; assumption.
  - intro E. rewrite E. change (2 =? 2) with true. panel_simpl.
    repeat split; assumption.
  - repeat split; auto.
Qed.

(** Property X13.
    With every touch flag set, as [main] leaves them, the active page
    follows K3 to K6 at once: the movement threshold never holds a
    parameter back. *)
Theorem UpdateControls_follows_knobs (hw : Panel.hardware) (s : Panel.state) :
  (forall i, 2 <= i <= 5 -> Panel.knob_touched s i = true) ->
  let s' := Panel.UpdateControls hw s in
  (Panel.TOGGLESWITCH_3 hw <> 2 ->
   Panel.knob_feedback s' = Panel.GetKnobValue hw 2 /\
   Panel.knob_slice_count s' = Panel.GetKnobValue hw 3 /\
   Panel.knob_slice_length s' = Panel.GetKnobValue hw 4 /\
   Panel.knob_stutter s' = Panel.GetKnobValue hw 5) /\
  (Panel.TOGGLESWITCH_3 hw = 2 ->
   Panel.lofi_wobble s' = Panel.GetKnobValue hw 2 /\
   Panel.lofi_noise s' = Panel.GetKnobValue hw 3 /\
   Panel.lofi_bitcrush s' = Panel.GetKnobValue hw 4 /\
   Panel.lofi_age_mix s' = Panel.GetKnobValue hw 5) /\
  (forall i, 2 <= i <= 5 -> Panel.knob_touched s' i = true).
Proof.
  intros Ht s'. unfold s', Panel.UpdateControls, Panel.map_controls.
  pose proof (PanelFacts.touched_frame hw s) as F. cbv zeta in F.
  fold (Panel.detect_movement hw s).
  destruct F as (_&_&_&_&_&_&_&_&_&_&_&_&_&F14).
  assert (T : forall i, 2 <= i <= 5 ->
                Panel.knob_touched (Panel.detect_movement hw s) i = true)
    by (intros i Hi; apply F14; apply Ht; exact Hi).
  panel_simpl. rewrite !T by lia. split; [|split].
  - intro N. replace (Panel.TOGGLESWITCH_3 hw =? 2) with false
      by (symmetry; apply Z.eqb_neq; exact N).
    panel_simpl. repeat split; reflexivity.
  - intro E. rewrite E. change (2 =? 2) with true. panel_simpl.
    repeat split; reflexivity.
  - exact T.
Qed.

Lemma UpdateControls_follows_knobs_witness :
  let hw := Panel.mkHardware (fun _ => F32.lit 5 1) 0 2 false in
  let s' := Panel.UpdateControls hw Panel.main_controls in
  (Panel.TOGGLESWITCH_3 hw <> 2 ->
   Panel.knob_feedback s' = Panel.GetKnobValue hw 2 /\
   Panel.knob_slice_count s' = Panel.GetKnobValue hw 3 /\
   Panel.knob_slice_length s' = Panel.GetKnobValue hw 4 /\
   Panel.knob_stutter s' = Panel.GetKnobValue hw 5) /\
  (Panel.TOGGLESWITCH_3 hw = 2 ->
   Panel.lofi_wobble s' = Panel.GetKnobValue hw 2 /\
   Panel.lofi_noise s' = Panel.GetKnobValue hw 3 /\
   Panel.lofi_bitcrush s' = Panel.GetKnobValue hw 4 /\
   Panel.lofi_age_mix s' = Panel.GetKnobValue hw 5) /\
  (forall i, 2 <= i <= 5 -> Panel.knob_touched s' i = true).
Proof.
  apply (UpdateControls_follows_knobs
           (Panel.mkHardware (fun _ => F32.lit 5 1) 0 2 false)
           Panel.main_controls).
  intros i Hi. reflexivity.
Defined.

Section FirmwareRuns.
Context `{DaisySP}.
Variable logf : F32.float -> F32.float.
Hypothesis Hlog : logf_ok logf.

Lemma AudioCallback_ok hw ins p e :
  Panel.hardware_ok hw -> Panel.state_ok p -> engine_ok e ->
  exists outs leds p' e',
    AudioCallback logf hw ins (p, e) = Some (outs, leds, (p', e')) /\
    Panel.state_ok p' /\ engine_ok e' /\
    1 <= Panel.active_slice_count p' <= MAX_SLICES /\
    4800 <= Panel.slice_length_samples p' <= MAX_SLICE_LENGTH.
Proof.
  intros Hh Hp He. unfold AudioCallback. cbn [fst snd].
  pose proof (PanelFacts.UpdateControls_ok hw p Hh Hp) as H1.
  set (p1 := Panel.UpdateControls hw p) in *.
  assert (H2 : Panel.state_ok (Panel.UpdateButtons hw p1)) by exact H1.
  set (p2 := Panel.UpdateButtons hw p1) in *.
  destruct (ParameterFacts.ProcessParameters_defined logf p2 Hlog)
    as (p3 & E3 & B1 & B2 & H3).
  { apply H2. } { apply H2. }
  rewrite E3.
  assert (Hc : controls_ok (Panel.controls_of p3)).
  { unfold controls_ok, Panel.controls_of.
    cbn [active_slice_count slice_length_samples lofi_bitcrush].
    split; [exact B1|]. split; [lia|].
    rewrite (proj2 (proj2 H3)). apply H2. }
  destruct (process_block_ok (Panel.controls_of p3) ins e Hc He)
    as (outs & e' & Eb & He').
  rewrite Eb. exists outs, (Panel.UpdateLEDs p2), p3, e'.
  split; [reflexivity|].
  split; [|split; [exact He' | split; assumption]].
  destruct H3 as (K1 & K2 & K3). destruct H2 as (S1 & S2 & S3).
  unfold Panel.state_ok. rewrite K1, K2, K3.
  exact (conj S1 (conj S2 S3)).
Qed.

End FirmwareRuns.

(** A block yields one output frame per input sample. *)
Lemma process_block_length `{DaisySP}
    (f : controls -> F32.float -> engine
         -> option (F32.float * F32.float * engine)) c ins :
  forall e outs e',
    process_block f c ins e = Some (outs, e') -> length outs = length ins.
Proof.
  induction ins as [|x ins IH]; intros e outs e' Eb; cbn [process_block] in Eb.
  - injection Eb as <- _. reflexivity.
  - destruct (f c x e) as [[[l r] e3]|]; [|discriminate].
    destruct (process_block f c ins e3) as [[o' e4]|] eqn:Eb';
      [|discriminate].
    injection Eb as <- _. cbn [length]. f_equal. exact (IH e3 o' e4 Eb').
Qed.

Section FirmwareRunsAll.
Context `{DaisySP}.
Variable logf : F32.float -> F32.float.
Hypothesis Hlog : logf_ok logf.

Lemma run_callbacks_ok cbs : forall p e,
  Forall (fun cb => Panel.hardware_ok (fst cb)) cbs ->
  Panel.state_ok p -> engine_ok e ->
  exists p' e',
    run_callbacks logf cbs (p, e) = Some (p', e') /\
    Panel.state_ok p' /\ engine_ok e'.
Proof.
  induction cbs as [|[hw ins] cbs IH]; intros p e Hall Hp He.
  - exists p, e. split; [reflexivity | split; assumption].
  - inversion Hall as [|? ? Hh Hrest]; subst. cbn [fst] in Hh.
    destruct (AudioCallback_ok logf Hlog hw ins p e Hh Hp He)
      as (outs & leds & p1 & e1 & E1 & Hp1 & He1 & _).
    cbn [run_callbacks]. rewrite E1.
    apply IH; assumption.
Qed.

Lemma main_ok random d p0 e0 :
  main logf random d = Some (p0, e0) ->
  Panel.slice_length_samples p0 < MAX_SLICE_LENGTH ->
  Panel.state_ok p0 /\ engine_ok e0.
Proof.
  intros Em Hlt. unfold main in Em.
  assert (K1 : knob01 (Panel.knob_slice_count Panel.main_controls)).
  { split; [split; reflexivity|]. vm_compute. split; discriminate. }
  assert (K2 : knob01 (Panel.knob_slice_length Panel.main_controls)).
  { split; [split; reflexivity|]. vm_compute. split; discriminate. }
  destruct (ParameterFacts.ProcessParameters_defined logf Panel.main_controls
              Hlog K1 K2) as (p & Ep & _ & Bs & E1 & E2 & E3).
  rewrite Ep in Em. injection Em as <- <-. split.
  - unfold Panel.state_ok. rewrite E1, E2, E3.
    split; [exact K1|]. split; [exact K2|].
    exact ParameterFacts.knob01_zero.
  - apply power_on_ok. lia.
Qed.

End FirmwareRunsAll.

(** Property X14.
    The whole firmware, control path included: from the state in which
    [main] starts the audio, for any sequence of callbacks whose knob
    readings lie in [0, 1] -- any switch positions, any input samples, any
    random draws -- every callback is defined (no cast or array access
    leaves its domain), every slice length stays within
    [0, MAX_SLICE_LENGTH] and the parameters seen by the sample loop stay
    within 1..16 slices and 4800..24000 samples. *)
Theorem firmware_run_is_safe (D : DaisySP) (logf : F32.float -> F32.float)
    (random : rand_state) (d : dsp_state)
    (cbs : list (Panel.hardware * list F32.float))
    (p0 : Panel.state) (e0 : engine) :
  logf_ok logf ->
  main logf random d = Some (p0, e0) ->
  Panel.slice_length_samples p0 < MAX_SLICE_LENGTH ->
  Forall (fun cb => Panel.hardware_ok (fst cb)) cbs ->
  exists p e,
    run_callbacks logf cbs (p0, e0) = Some (p, e) /\
    (forall i, 0 <= sliceLengths (store e) i <= MAX_SLICE_LENGTH) /\
    (forall hw ins,
       Panel.hardware_ok hw ->
       exists outs leds p' e',
         AudioCallback logf hw ins (p, e) = Some (outs, leds, (p', e')) /\
         length outs = length ins /\
         1 <= Panel.active_slice_count p' <= MAX_SLICES /\
         4800 <= Panel.slice_length_samples p' <= MAX_SLICE_LENGTH).
Proof.
  intros Hlog Em Hlt Hall.
  destruct (main_ok logf Hlog random d p0 e0 Em Hlt) as [Hp0 He0].
  destruct (run_callbacks_ok logf Hlog cbs p0 e0 Hall Hp0 He0)
    as (p & e & Er & Hp & He).
  exists p, e. split; [exact Er|]. split; [apply He|].
  intros hw ins Hh.
  destruct (AudioCallback_ok logf Hlog hw ins p e Hh Hp He)
    as (outs & leds & p1 & e1 & E1 & _ & _ & B1 & B2).
  exists outs, leds, p1, e1. split; [exact E1|].
  split; [|split; assumption].
  unfold AudioCallback in E1. cbn [fst snd] in E1.
  destruct (Panel.ProcessParameters _ _) as [p3|]; [|discriminate].
  destruct (process_block _ _ _ _) as [[o e2]|] eqn:Eb; [|discriminate].
  injection E1 as <- _ _ _.
  exact (process_block_length _ _ _ _ _ _ Eb).
Qed.

(** ** Playback stays off the slice being captured *)

(** Without a shuffle the next slice is the neighbour of the current one. *)
Lemma GetNextSlice_neighbour current sliceCount k6_value mode g :
  0 <= current -> 1 <= sliceCount ->
  current + sliceCount <= F32.INT_MAX ->
  F32.leb k6_value F32.zero = true ->
  exists reverseFlag g',
    Flux.GetNextSlice current sliceCount k6_value mode g
    = Some (if mode =? 1 then Z.rem (current - 1 + sliceCount) sliceCount
            else Z.rem (current + 1) sliceCount, reverseFlag, g').
Proof.
  intros Hcur Hc Hsum Hk. rewrite Flux_GetNextSlice_eq by assumption.
  unfold Flux.random_unit.
  pose proof (DrawFacts.rem_draw g) as Hr.
  destruct (rand g) as [r0 g1]. cbn [fst] in Hr.
  rewrite (ShuffleFacts.no_shuffle_at_zero _ _ Hr Hk).
  destruct (Z.eqb_spec mode 0) as [->|M0].
  - do 2 eexists. reflexivity.
  - destruct (Z.eqb_spec mode 1) as [->|M1].
    + do 2 eexists. reflexivity.
    + destruct (mode =? 2); [destruct (rand g1)|]; do 2 eexists; reflexivity.
Qed.

Lemma neighbour_differs current sliceCount mode :
  0 <= current -> 2 <= sliceCount ->
  (if mode =? 1 then Z.rem (current - 1 + sliceCount) sliceCount
   else Z.rem (current + 1) sliceCount) <> current.
Proof.
  intros Hc Hn.
  destruct (Z_lt_ge_dec current sliceCount) as [In|Out].
  - destruct (mode =? 1).
    + destruct (Z.eq_dec current 0) as [->|N0].
      * replace (0 - 1 + sliceCount) with (sliceCount - 1) by lia.
        rewrite Z.rem_small by lia. lia.
      * replace (current - 1 + sliceCount)
          with (current - 1 + 1 * sliceCount) by lia.
        rewrite Z.rem_add by nia. rewrite Z.rem_small by lia. lia.
    + destruct (Z.eq_dec (current + 1) sliceCount) as [E|N].
      * rewrite E, Z.rem_same by lia. lia.
      * rewrite Z.rem_small by lia. lia.
  - destruct (mode =? 1).
    + pose proof (Z.rem_bound_pos (current - 1 + sliceCount) sliceCount
                    ltac:(lia) ltac:(lia)). lia.
    + pose proof (Z.rem_bound_pos (current + 1) sliceCount
                    ltac:(lia) ltac:(lia)). lia.
Qed.

(** Property X15.
    With at least two active slices and the stutter knob at zero,
    [PlaybackSlice] never reads from the slice being captured: the
    conflict rule moves the reader to a neighbouring slice before the
    read. *)
Theorem PlaybackSlice_avoids_capture_slice (D : DaisySP) (c : controls)
    (e : engine) :
  controls_ok c -> engine_ok e ->
  2 <= active_slice_count c ->
  F32.leb (knob_stutter c) F32.zero = true ->
  exists out rd e',
    FluxAudio.PlaybackSlice c e = Some (out, rd, e') /\
    forall i o, rd = Some (i, o) -> i <> currentCaptureSlice (cap e).
Proof.
  intros Hc He Hn Hk.
  destruct (PlaybackSlice_ok Flux.policy c e (Flux_policy_ok _) Hc He)
    as (out & rd & e' & E & _ & _).
  exists out, rd, e'. unfold FluxAudio.PlaybackSlice. split; [exact E|].
  intros i o Hrd. unfold Engine.PlaybackSlice in E.
  destruct (negb _); [injection E as _ <- _; discriminate|].
  destruct (Engine.resolve_conflict Flux.policy c e) as [[p1 g]|] eqn:ER;
    [|discriminate].
  assert (Hp1 : currentPlaybackSlice p1 <> currentCaptureSlice (cap e)).
  { unfold Engine.resolve_conflict in ER.
    destruct (Z.eqb_spec (currentPlaybackSlice (play e))
                (currentCaptureSlice (cap e))) as [Q|N].
    - cbn [GetNextSlice CalculateRepeatCount Flux.policy] in ER.
      assert (Hp : 0 <= currentPlaybackSlice (play e) < MAX_SLICES)
        by (destruct He as (_ & _ & Hp & _); exact Hp).
      assert (Hcount : 1 <= active_slice_count c <= MAX_SLICES)
        by apply Hc.
      destruct (GetNextSlice_neighbour (currentPlaybackSlice (play e))
                  (active_slice_count c) (knob_stutter c) (toggle_mode c)
                  (rng e) ltac:(lia) ltac:(lia)
                  ltac:(unfold MAX_SLICES, F32.INT_MAX in *; lia) Hk)
        as (rv & g1 & EN).
      rewrite EN in ER.
      destruct (Flux.CalculateRepeatCount _ _) as [[t g2]|]; [|discriminate].
      injection ER as <- _. cbn [currentPlaybackSlice].
      rewrite <- Q. apply neighbour_differs; [|exact Hn].
      apply Hp.
    - injection ER as <- _. exact N. }
  destruct (len_get _ _) as [len|]; [|discriminate].
  destruct (len =? 0); [injection E as _ <- _; discriminate|].
  destruct (buf_read _ _ _) as [s|]; [|discriminate].
  destruct (Engine.advance_playback _ _ _ _ _ _) as [[p3 g3]|];
    [|discriminate].
  injection E as _ <- _. injection Hrd as <- _. exact Hp1.
Qed.

Lemma PlaybackSlice_avoids_capture_slice_witness :
  let c := bench_controls 4 4800 false false in
  let e := loaded_engine 0 0 in
  currentPlaybackSlice (play e) = currentCaptureSlice (cap e) /\
  exists out rd e',
    @FluxAudio.PlaybackSlice passthrough_dsp c e = Some (out, rd, e') /\
    rd = Some (1, 0) /\
    forall i o, rd = Some (i, o) -> i <> currentCaptureSlice (cap e).
Proof.
  intros c e. split; [reflexivity|].
  destruct (PlaybackSlice_avoids_capture_slice passthrough_dsp c e)
    as (out & rd & e' & E & Hrd).
  - exact (proj1 (bench_controls_ok false)).
  - apply loaded_engine_ok; unfold MAX_SLICES; lia.
  - cbn. lia.
  - reflexivity.
  - exists out, rd, e'. split; [exact E|]. split; [|exact Hrd].
    vm_compute in E. injection E as _ <- _. reflexivity.
Defined.

Lemma firmware_run_is_safe_witness :
  let cbs :=
    [(Panel.mkHardware (fun _ => F32.lit 5 1) 0 0 true,
      [F32.zero; F32.lit 5 1])] in
  exists p e,
    @run_callbacks passthrough_dsp (fun x => F32.sub x F32.one) cbs
      (fst bench_main, snd bench_main) = Some (p, e) /\
    (forall i, 0 <= sliceLengths (store e) i <= MAX_SLICE_LENGTH) /\
    (forall hw ins,
       Panel.hardware_ok hw ->
       exists outs leds p' e',
         AudioCallback (fun x => F32.sub x F32.one) hw ins (p, e)
         = Some (outs, leds, (p', e')) /\
         length outs = length ins /\
         1 <= Panel.active_slice_count p' <= MAX_SLICES /\
         4800 <= Panel.slice_length_samples p' <= MAX_SLICE_LENGTH).
Proof.
  apply (firmware_run_is_safe passthrough_dsp (fun x => F32.sub x F32.one)
           (fun _ => 0%N) tt).
  - exact logf_ok_shift.
  - vm_compute. reflexivity.
  - vm_compute. reflexivity.
  - constructor; [|constructor]. intros i Hi.
    split; [split; reflexivity|]. vm_compute. split; discriminate.
Defined.

(** Property X16.
    When Toggle 3 has moved since the last callback, [UpdateControls] of
    the later firmware changes none of the eight parameters behind K3 to
    K6, wherever the knobs stand: it clears the four touch flags and takes
    the knob positions as the new reference, so no parameter jumps on a
    page switch. *)
Theorem page_switch_does_not_jump (hw : Panel.hardware) (s : Pickup.state) :
  Panel.TOGGLESWITCH_3 hw <> Pickup.prev_toggle3_pos s ->
  let p := Pickup.panel s in
  let p' := Pickup.panel (Pickup.UpdateControls hw s) in
  Panel.knob_feedback p' = Panel.knob_feedback p /\
  Panel.knob_slice_count p' = Panel.knob_slice_count p /\
  Panel.knob_slice_length p' = Panel.knob_slice_length p /\
  Panel.knob_stutter p' = Panel.knob_stutter p /\
  Panel.lofi_wobble p' = Panel.lofi_wobble p /\
  Panel.lofi_noise p' = Panel.lofi_noise p /\
  Panel.lofi_bitcrush p' = Panel.lofi_bitcrush p /\
  Panel.lofi_age_mix p' = Panel.lofi_age_mix p /\
  Pickup.prev_toggle3_pos (Pickup.UpdateControls hw s)
  = Panel.TOGGLESWITCH_3 hw /\
  (forall i, 2 <= i <= 5 ->
     Panel.knob_touched p' i = false /\
     Panel.knob_prev p' i = Panel.GetKnobValue hw i).
Proof.
  intros Hn p p'. unfold p', Pickup.UpdateControls.
  replace (Panel.TOGGLESWITCH_3 hw =? Pickup.prev_toggle3_pos s) with false
    by (symmetry; apply Z.eqb_neq; exact Hn).
  cbn [negb Pickup.panel Pickup.prev_toggle3_pos].
  pose proof (PanelFacts.touched_frame hw (Pickup.panel s)) as F.
  cbv zeta in F. fold p in F.
  destruct F as (_&F2&F3&F4&F5&F6&F7&F8&F9&_).
  unfold Panel.map_controls, Pickup.reset_touch. panel_simpl.
  change ((2 <=? 2) && (2 <=? 5)) with true.
  change ((2 <=? 3) && (3 <=? 5)) with true.
  change ((2 <=? 4) && (4 <=? 5)) with true.
  change ((2 <=? 5) && (5 <=? 5)) with true.
  rewrite !andb_false_r.
  repeat split; try assumption.
  - replace ((2 <=? i) && (i <=? 5)) with true; [reflexivity|].
    symmetry. apply andb_true_iff. split; apply Z.leb_le; lia.
  - replace ((2 <=? i) && (i <=? 5)) with true; [reflexivity|].
    symmetry. apply andb_true_iff. split; apply Z.leb_le; lia.
Qed.

Lemma page_switch_does_not_jump_witness :
  let hw := Panel.mkHardware (fun _ => F32.one) 0 2 false in
  let s := Pickup.mkState Panel.main_controls 0 in
  let p := Pickup.panel s in
  let p' := Pickup.panel (Pickup.UpdateControls hw s) in
  Panel.knob_feedback p' = Panel.knob_feedback p /\
  Panel.knob_slice_count p' = Panel.knob_slice_count p /\
  Panel.knob_slice_length p' = Panel.knob_slice_length p /\
  Panel.knob_stutter p' = Panel.knob_stutter p /\
  Panel.lofi_wobble p' = Panel.lofi_wobble p /\
  Panel.lofi_noise p' = Panel.lofi_noise p /\
  Panel.lofi_bitcrush p' = Panel.lofi_bitcrush p /\
  Panel.lofi_age_mix p' = Panel.lofi_age_mix p /\
  Pickup.prev_toggle3_pos (Pickup.UpdateControls hw s)
  = Panel.TOGGLESWITCH_3 hw /\
  (forall i, 2 <= i <= 5 ->
     Panel.knob_touched p' i = false /\
     Panel.knob_prev p' i = Panel.GetKnobValue hw i).
Proof.
  apply (page_switch_does_not_jump
           (Panel.mkHardware (fun _ => F32.one) 0 2 false)
           (Pickup.mkState Panel.main_controls 0)).
  cbn. lia.
Defined.

(** Property X17.
    In the later firmware the repeat count is defined for every stutter
    value in [0, 1] and is one of 1, 2, 4, 8; a count other than 1 needs
    the first draw, taken modulo 100, to fall below the stutter
    percentage. *)
Theorem later_CalculateRepeatCount_subdivisions (stutter_knob : F32.float)
    (g : rand_state) :
  knob01 stutter_knob ->
  exists n g',
    AmbienFlux.CalculateRepeatCount stutter_knob g = Some (n, g') /\
    (n = 1 \/ n = 2 \/ n = 4 \/ n = 8) /\
    (n <> 1 ->
     Z.rem (fst (rand g)) 100
     < F32.trunc (F32.mul stutter_knob (F32.of_int 100)) <= 100).
Proof.
  intro Hk. pose proof pow2K_pos as PK.
  unfold AmbienFlux.CalculateRepeatCount.
  destruct (F32.ltb stutter_knob (F32.lit 1 2)).
  { do 2 eexists. split; [reflexivity|]. split; [auto | congruence]. }
  destruct (of_int_spec 100 ltac:(reflexivity)) as [G100 V100].
  fold (F32.of_int 100) in G100, V100.
  destruct (mul_knob_bounded stutter_knob (F32.of_int 100) 100 Hk G100)
    as [Gp Hp]; [rewrite V100; lia | lia |].
  destruct (to_int_le _ (100 * 2 ^ F32.K) Gp Hp) as [Et Bt].
  { rewrite Z.div_mul by lia. reflexivity. }
  rewrite Z.div_mul in Bt by lia.
  destruct (rand g) as [r g1]. cbn [fst]. rewrite Et.
  destruct (Z.ltb_spec (Z.rem r 100)
              (F32.trunc (F32.mul stutter_knob (F32.of_int 100)))) as [L|G].
  - destruct (rand g1) as [r2 g2].
    destruct (Z.rem r2 100 <? 40); [|destruct (Z.rem r2 100 <? 70);
      [|destruct (Z.rem r2 100 <? 90)]];
      do 2 eexists; (split; [reflexivity|]); (split; [auto 6|]); intros; lia.
  - do 2 eexists. split; [reflexivity|]. split; [auto | congruence].
Qed.

Lemma later_CalculateRepeatCount_subdivisions_witness :
  exists n g',
    AmbienFlux.CalculateRepeatCount F32.one (fun _ => 7%N) = Some (n, g') /\
    (n = 1 \/ n = 2 \/ n = 4 \/ n = 8) /\
    (n <> 1 ->
     Z.rem (fst (rand (fun _ => 7%N))) 100
     < F32.trunc (F32.mul F32.one (F32.of_int 100)) <= 100).
Proof.
  apply (later_CalculateRepeatCount_subdivisions F32.one (fun _ => 7%N)).
  exact ParameterFacts.knob01_one.
Defined.
